(** * easy-fetch-ajax: the request lifecycle of [easyAjax]

    A shallow embedding of the two releases of [easyAjax] found in the
    repository, 1.2.8 and 2.0.0, and of the helpers they share.

    - JavaScript values are an inductive type; an object is the list of its
      own enumerable properties in insertion order.
    - The page is a tree of elements.  An element reference is the [nid] of
      a node; the selectors the code writes out are given by their syntax
      tree, those it builds or receives as text are parsed.
    - Every function that has an effect is a computation in a state and
      exception monad.  The state holds the page, the pending timers and the
      trace of what the library does to its surroundings: toasts, calls of
      the caller's callbacks, the request, navigation, console output, and
      the two writes to the page that the library exists for, the toggling
      of a button ([ButtonLoading]) and the rendering of an inline message
      ([InlineError]).
    - A callback of the caller is opaque: calling it adds a [Call] to the
      trace and either returns or throws; it touches neither the page nor
      the settings.
    - A promise chain [p.then(f).catch(h).finally(k)] is the corresponding
      composition of [bind], [try_catch] and [finally]; the network is an
      oracle that says how [fetch] settles, and a response says whether its
      body parses as JSON.  The continuation of a body read that the error
      handler starts without returning it runs after the chain. *)

From Stdlib Require Import List String Ascii ZArith Bool Lia Arith DecimalString.
Import ListNotations.
Open Scope string_scope.

Set Warnings "-register-all".

(** ** JavaScript values *)

(** A function value: a callback of the caller, known by a name and by
    whether it throws when called, or the library's own
    [defaultBeforeSend]. *)
Inductive fn : Type :=
| Callback (name : string) (throws : bool)
| DefaultBeforeSend.

Inductive value : Type :=
| VUndefined
| VNull
| VBool (b : bool)
| VNum (n : Z)
| VStr (s : string)
| VArr (items : list value)
| VObj (fields : list (string * value))
| VElem (e : nat)
| VFun (f : fn).

Definition obj := list (string * value).

(** JavaScript truthiness. *)
Definition truthy (v : value) : bool :=
  match v with
  | VUndefined | VNull => false
  | VBool b => b
  | VNum n => negb (n =? 0)%Z
  | VStr s => negb (s =? "")
  | VArr _ | VObj _ | VElem _ | VFun _ => true
  end.

(** [a || b] *)
Definition js_or (a b : value) : value := if truthy a then a else b.

Definition dquote : string := String "034"%char "".

Definition decimal (n : Z) : string := NilZero.string_of_int (Z.to_int n).

(** [String(v)], used where a value is turned into text. *)
Fixpoint String_of (v : value) : string :=
  match v with
  | VUndefined => "undefined"
  | VNull => "null"
  | VBool true => "true"
  | VBool false => "false"
  | VNum n => decimal n
  | VStr s => s
  | VArr l =>
      String.concat ","
        (map (fun x => match x with
                       | VUndefined | VNull => ""
                       | _ => String_of x
                       end) l)
  | VObj _ => "[object Object]"
  | VElem _ => "[object HTMLElement]"
  | VFun _ => "function"
  end.

(** *** Objects *)

Fixpoint obj_get (k : string) (o : obj) : option value :=
  match o with
  | [] => None
  | (k', v) :: o' => if k' =? k then Some v else obj_get k o'
  end.

(** [o.k] on an object: [undefined] when the property is absent. *)
Definition field (o : obj) (k : string) : value :=
  match obj_get k o with
  | Some v => v
  | None => VUndefined
  end.

(** [o.k = v]: an existing property keeps its place, a new one goes last. *)
Fixpoint obj_set (k : string) (v : value) (o : obj) : obj :=
  match o with
  | [] => [(k, v)]
  | (k', v') :: o' =>
      if k' =? k then (k, v) :: o' else (k', v') :: obj_set k v o'
  end.

(** [Object.assign(target, source)] *)
Definition Object_assign (target source : obj) : obj :=
  fold_left (fun t kv => obj_set (fst kv) (snd kv) t) source target.

Definition keys (o : obj) : list string := map fst o.

(** A well-formed object has no property twice. *)
Definition wf_obj (o : obj) : Prop := NoDup (keys o).

Fixpoint indexed (i : nat) (l : list value) : obj :=
  match l with
  | [] => []
  | x :: l' => (decimal (Z.of_nat i), x) :: indexed (S i) l'
  end.

Fixpoint chars (s : string) : list value :=
  match s with
  | EmptyString => []
  | String c s' => VStr (String c "") :: chars s'
  end.

(** [Object.entries(v)]: [None] stands for the TypeError on [null] and
    [undefined]. *)
Definition Object_entries (v : value) : option obj :=
  match v with
  | VUndefined | VNull => None
  | VObj o => Some o
  | VArr l => Some (indexed 0 l)
  | VStr s => Some (indexed 0 (chars s))
  | VBool _ | VNum _ | VElem _ | VFun _ => Some []
  end.

(** [v.k] for the property names the library reads ([message], [errors],
    [error], [url]): [None] stands for the TypeError on [null] and
    [undefined]; primitives, arrays and functions have no such property. *)
Definition prop (v : value) (k : string) : option value :=
  match v with
  | VUndefined | VNull => None
  | VObj o => Some (field o k)
  | _ => Some VUndefined
  end.

(** [v[k]] where [v] is known to be neither [null] nor [undefined]. *)
Definition member (v : value) (k : string) : value :=
  match prop v k with
  | Some x => x
  | None => VUndefined
  end.

(** [v[0]] *)
Definition index0 (v : value) : option value :=
  match v with
  | VUndefined | VNull => None
  | VArr (x :: _) => Some x
  | VStr (String c _) => Some (VStr (String c ""))
  | VObj o => Some (field o "0")
  | _ => Some VUndefined
  end.

(** *** Strings *)

Definition upper_char (c : ascii) : ascii :=
  let n := nat_of_ascii c in
  if (97 <=? n)%nat && (n <=? 122)%nat then ascii_of_nat (n - 32) else c.

Fixpoint toUpperCase (s : string) : string :=
  match s with
  | EmptyString => EmptyString
  | String c s' => String (upper_char c) (toUpperCase s')
  end.

Fixpoint includes (s sub : string) : bool :=
  String.prefix sub s ||
  match s with
  | EmptyString => false
  | String _ s' => includes s' sub
  end.

(** ** The page *)

Inductive node : Type := Node {
  nid : nat;
  tag : string;
  attrs : list (string * string);
  classes : list string;
  disabled : bool;
  text : string;
  kids : list node
}.

Definition with_kids (n : node) (ks : list node) : node :=
  Node (nid n) (tag n) (attrs n) (classes n) (disabled n) (text n) ks.

Definition with_classes (cs : list string) (n : node) : node :=
  Node (nid n) (tag n) (attrs n) cs (disabled n) (text n) (kids n).

Definition with_attrs (a : list (string * string)) (n : node) : node :=
  Node (nid n) (tag n) a (classes n) (disabled n) (text n) (kids n).

Definition with_disabled (b : bool) (n : node) : node :=
  Node (nid n) (tag n) (attrs n) (classes n) b (text n) (kids n).

(** The descendants of an element in document order. *)
Fixpoint descendants (n : node) : list node :=
  flat_map (fun k => k :: descendants k) (kids n).

Definition subtree (n : node) : list node := n :: descendants n.

Definition has_id (id : nat) (n : node) : bool := (nid n =? id)%nat.

Definition find_node (id : nat) (doc : node) : option node :=
  find (has_id id) (subtree doc).

Fixpoint getAttribute (k : string) (a : list (string * string)) : option string :=
  match a with
  | [] => None
  | (k', v) :: a' => if k' =? k then Some v else getAttribute k a'
  end.

Definition has_class (c : string) (n : node) : bool :=
  existsb (String.eqb c) (classes n).

(** *** Selectors *)

Inductive selector : Type :=
| ByTag (t : string)
| ByClass (c : string)
| ById (i : string)
| ByAttr (k v : string)
| ByTagAttr (t k v : string).

Definition attr_is (k v : string) (n : node) : bool :=
  match getAttribute k (attrs n) with
  | Some v' => v' =? v
  | None => false
  end.

Definition matches (sel : selector) (n : node) : bool :=
  match sel with
  | ByTag t => tag n =? t
  | ByClass c => has_class c n
  | ById i => attr_is "id" i n
  | ByAttr k v => attr_is k v n
  | ByTagAttr t k v => (tag n =? t) && attr_is k v n
  end.

Definition is_name_char (c : ascii) : bool :=
  let n := nat_of_ascii c in
  ((97 <=? n) && (n <=? 122) || (65 <=? n) && (n <=? 90) ||
   (48 <=? n) && (n <=? 57) || (n =? 45) || (n =? 95))%nat.

Fixpoint all_chars (p : ascii -> bool) (s : string) : bool :=
  match s with
  | EmptyString => true
  | String c s' => p c && all_chars p s'
  end.

Definition is_name (s : string) : bool :=
  negb (s =? "") && all_chars is_name_char s.

(** The text before the first [c] and the text after it. *)
Fixpoint split_at (c : ascii) (s : string) : option (string * string) :=
  match s with
  | EmptyString => None
  | String c' s' =>
      if Ascii.eqb c' c then Some (EmptyString, s')
      else match split_at c s' with
           | Some (a, b) => Some (String c' a, b)
           | None => None
           end
  end.

(** A character of a quoted attribute value that needs no escape. *)
Definition plain_char (c : ascii) : bool :=
  let n := nat_of_ascii c in
  negb ((n =? 34) || (n =? 39) || (n =? 92) || (n =? 10) || (n =? 13) || (n =? 12))%nat.

(** [k=qvq\]] with [q] one of the two quotes. *)
Definition parse_attr (s : string) : option selector :=
  match split_at "="%char s with
  | Some (k, String q rest) =>
      if is_name k && (Ascii.eqb q "034"%char || Ascii.eqb q "'"%char) then
        match split_at q rest with
        | Some (v, "]") => if all_chars plain_char v then Some (ByAttr k v) else None
        | _ => None
        end
      else None
  | _ => None
  end.

(** The selectors the model reads: [.class], [#id], [[attr='value']] with
    either quote, and a tag name.  Any other text is refused as the browser
    refuses a selector it cannot parse; escapes are not modelled. *)
Definition parse_selector (s : string) : option selector :=
  match s with
  | String "." c => if is_name c then Some (ByClass c) else None
  | String "#" i => if is_name i then Some (ById i) else None
  | String "[" rest => parse_attr rest
  | _ => if is_name s then Some (ByTag s) else None
  end.

(** [scope.querySelectorAll(sel)]: the matching descendants of the element
    [scope], in document order.  An element that is not in the page has no
    descendants. *)
Definition querySelectorAll (sel : selector) (scope : nat) (doc : node) : list nat :=
  match find_node scope doc with
  | Some n => map nid (filter (matches sel) (descendants n))
  | None => []
  end.

Definition querySelector (sel : selector) (scope : nat) (doc : node) : option nat :=
  hd_error (querySelectorAll sel scope doc).

(** [document.querySelector(sel)] *)
Definition document_querySelector (sel : selector) (doc : node) : option node :=
  find (matches sel) (subtree doc).

(** [document.body] *)
Definition document_body (doc : node) : value :=
  match find (fun k => tag k =? "body") (kids doc) with
  | Some b => VElem (nid b)
  | None => VNull
  end.

(** *** Updates *)

Fixpoint update_node (id : nat) (f : node -> node) (n : node) : node :=
  let n' := with_kids n (map (update_node id f) (kids n)) in
  if has_id id n then f n' else n'.

(** [el.remove()] *)
Fixpoint remove_node (id : nat) (n : node) : node :=
  with_kids n
    (filter (fun k => negb (has_id id k)) (map (remove_node id) (kids n))).

(** [parent.appendChild(child)] *)
Definition appendChild (parent : nat) (child : node) (doc : node) : node :=
  update_node parent (fun p => with_kids p (kids p ++ [child])) doc.

(** [el.parentNode] *)
Definition parentNode (id : nat) (doc : node) : option nat :=
  option_map nid (find (fun p => existsb (has_id id) (kids p)) (subtree doc)).

(** The elements from [n] down to the element [id], [n] first. *)
Fixpoint path_to (id : nat) (n : node) : option (list node) :=
  if has_id id n then Some [n]
  else
    match
      (fix go (ks : list node) : option (list node) :=
         match ks with
         | [] => None
         | k :: ks' =>
             match path_to id k with
             | Some p => Some p
             | None => go ks'
             end
         end) (kids n)
    with
    | Some p => Some (n :: p)
    | None => None
    end.

(** [el.closest(sel)]: the nearest of the element and its ancestors that
    matches. *)
Definition closest (sel : selector) (id : nat) (doc : node) : option nat :=
  match path_to id doc with
  | Some p => option_map nid (find (matches sel) (rev p))
  | None => None
  end.

Definition fresh_id (doc : node) : nat :=
  S (list_max (map nid (subtree doc))).

Definition add_class (c : string) (n : node) : node :=
  if has_class c n then n else with_classes (classes n ++ [c]) n.

Definition remove_class (c : string) (n : node) : node :=
  with_classes (filter (fun c' => negb (c' =? c)) (classes n)) n.

Fixpoint remove_attr (k : string) (a : list (string * string)) : list (string * string) :=
  match a with
  | [] => []
  | (k', v) :: a' => if k' =? k then remove_attr k a' else (k', v) :: remove_attr k a'
  end.

Definition setAttribute (k v : string) (n : node) : node :=
  match getAttribute k (attrs n) with
  | Some _ =>
      with_attrs (map (fun kv => if fst kv =? k then (k, v) else kv) (attrs n)) n
  | None => with_attrs (attrs n ++ [(k, v)]) n
  end.

Definition removeAttribute (k : string) (n : node) : node :=
  with_attrs (remove_attr k (attrs n)) n.

(** ** Responses, exceptions and effects *)

Record response : Type := Response {
  status : Z;
  contentType : option string;   (* [headers.get("content-type")] *)
  bodyText : string;
  bodyJson : option value        (* the body parsed as JSON, if it parses *)
}.

(** [response.ok] *)
Definition ok (r : response) : bool :=
  (200 <=? status r)%Z && (status r <=? 299)%Z.

(** What can be thrown, or reject a promise. *)
Inductive exn : Type :=
| TypeError (what : string)          (* a property or a call on a wrong value *)
| SyntaxError (what : string)        (* a body that is not JSON, a text that is no selector *)
| FetchFailed                        (* [fetch] rejected: the network failed *)
| AbortError                         (* [fetch] rejected: the timer aborted it *)
| NetworkStatusError (st : Z) (responseJson : value)
                                     (* [new Error(`Network error: ${status}`)] with [responseJson] *)
| UnsupportedContentType (ct : string)
                                     (* [new Error('Unsupported content type: ' + contentType)] *)
| FormNotFound                       (* [new Error('Form not found in the specified container.')] *)
| HttpReject (r : response)          (* the object [{ response }] thrown by release 2.0.0 *)
| AsResponse (r : response)          (* a response given as the error itself: it has
                                        [status] and [json()]; no chain produces it *)
| CallbackThrew (name : string).     (* whatever a callback of the caller threw *)

(** [error.status] *)
Definition exn_status (e : exn) : option Z :=
  match e with
  | AsResponse r => Some (status r)
  | _ => None
  end.

(** [error.response] *)
Definition exn_response (e : exn) : option response :=
  match e with
  | HttpReject r => Some r
  | _ => None
  end.

(** The body handed to [fetch]. *)
Inductive body : Type :=
| NoBody
| RawBody (s : string)
| JsonBody (data : value)               (* [JSON.stringify(data)] *)
| FormBody (form : nat) (extra : obj).  (* [new FormData(form)] and the appended pairs *)

Inductive arg : Type :=
| AValue (v : value)
| AError (e : exn)
| ASettings.

Inductive event : Type :=
| Fetch (url method : value) (headers : obj) (b : body)
| SetTimeout (id : nat) (ms : value)
| TimerFired (id : nat)
| ClearTimeout (id : nat)
| ToastrError (msg : value)
| ToastrSuccess (msg : value)
| SwalFire (options : obj)
| Navigate (url : value)
| FormReset (form : nat)
| Call (name : string) (args : list arg)
| ConsoleWarn (msg : string)
| ConsoleError (msg : string)
| ReadJson (r : response)
| ReadText (r : response)
| ButtonLoading (button : nat) (isLoading : bool)
| InlineError (input : nat) (msg : string)
| UnhandledRejection (e : exn).

Record state : Type := State {
  page : node;
  trace : list event;
  timers : list nat;
  next_timer : nat;
  swal : bool;                         (* [window.Swal] is loaded *)
  deferred : list (response * obj)     (* body reads whose continuation is still to run *)
}.

Inductive outcome (A : Type) : Type :=
| Done (a : A)
| Raised (e : exn).

Arguments Done {A} a.
Arguments Raised {A} e.

Definition M (A : Type) : Type := state -> outcome A * state.

Definition ret {A} (a : A) : M A := fun s => (Done a, s).

Definition bind {A B} (m : M A) (k : A -> M B) : M B :=
  fun s =>
    match m s with
    | (Done a, s') => k a s'
    | (Raised e, s') => (Raised e, s')
    end.

Definition raise {A} (e : exn) : M A := fun s => (Raised e, s).

(** [try { m } catch (e) { h(e) }], and [p.catch(h)]. *)
Definition try_catch {A} (m : M A) (h : exn -> M A) : M A :=
  fun s =>
    match m s with
    | (Done a, s') => (Done a, s')
    | (Raised e, s') => h e s'
    end.

(** [p.finally(k)]: [k] runs however [p] settles; the outcome is that of
    [p] unless [k] itself raises. *)
Definition finally {A} (m : M A) (k : M unit) : M A :=
  fun s =>
    let (r, s') := m s in
    match k s' with
    | (Done _, s'') => (r, s'')
    | (Raised e, s'') => (Raised e, s'')
    end.

Declare Scope js_scope.
Delimit Scope js_scope with js.
Notation "x <- m ;; k" := (bind m (fun x => k))
  (at level 61, m at next level, right associativity) : js_scope.
Notation "m ;;; k" := (bind m (fun _ => k))
  (at level 61, right associativity) : js_scope.
Open Scope js_scope.

Definition emit (e : event) : M unit :=
  fun s => (Done tt, State (page s) (trace s ++ [e]) (timers s) (next_timer s)
                           (swal s) (deferred s)).

Definition get_page : M node := fun s => (Done (page s), s).

Definition modify_page (f : node -> node) : M unit :=
  fun s => (Done tt, State (f (page s)) (trace s) (timers s) (next_timer s)
                           (swal s) (deferred s)).

Definition get_swal : M bool := fun s => (Done (swal s), s).

Definition when (b : bool) (m : M unit) : M unit := if b then m else ret tt.

Fixpoint for_each {A} (l : list A) (f : A -> M unit) : M unit :=
  match l with
  | [] => ret tt
  | x :: l' => f x ;;; for_each l' f
  end.

(** [setTimeout(..., ms)] *)
Definition setTimeout (ms : value) : M nat :=
  fun s =>
    let id := next_timer s in
    (Done id, State (page s) (trace s ++ [SetTimeout id ms]) (id :: timers s)
                    (S id) (swal s) (deferred s)).

Definition drop_timer (id : nat) (l : list nat) : list nat :=
  filter (fun t => negb (t =? id)%nat) l.

(** [clearTimeout(id)] *)
Definition clearTimeout (id : nat) : M unit :=
  fun s => (Done tt, State (page s) (trace s ++ [ClearTimeout id])
                           (drop_timer id (timers s)) (next_timer s)
                           (swal s) (deferred s)).

Definition timer_fires (id : nat) : M unit :=
  fun s => (Done tt, State (page s) (trace s ++ [TimerFired id])
                           (drop_timer id (timers s)) (next_timer s)
                           (swal s) (deferred s)).

Definition defer (r : response) (settings : obj) : M unit :=
  fun s => (Done tt, State (page s) (trace s) (timers s) (next_timer s)
                           (swal s) (deferred s ++ [(r, settings)])).

(** The selector a text denotes, or the SyntaxError of the query. *)
Definition css (s : string) : M selector :=
  match parse_selector s with
  | Some sel => ret sel
  | None => raise (SyntaxError s)
  end.

(** [v.k], raising on [null] and [undefined]. *)
Definition get_prop (v : value) (k : string) : M value :=
  match prop v k with
  | Some x => ret x
  | None => raise (TypeError k)
  end.

(** How [fetch] settles. *)
Inductive network : Type :=
| NetworkFailure
| TimedOut
| Responds (r : response).

Record request : Type := Request {
  method : value;
  headers : obj;
  rbody : body
}.

(** [fetch(url, requestOptions)] with the timer [timeoutId] pending. *)
Definition fetch (url : value) (req : request) (timeoutId : nat) (net : network) : M response :=
  emit (Fetch url (method req) (headers req) (rbody req)) ;;;
  match net with
  | NetworkFailure => raise FetchFailed
  | TimedOut => timer_fires timeoutId ;;; raise AbortError
  | Responds r => ret r
  end.

(** ** The helpers both releases share *)

Definition set_loading (isLoading : bool) (button : node) : node :=
  if isLoading
  then with_disabled true (setAttribute "data-kt-indicator" "on" button)
  else with_disabled false (removeAttribute "data-kt-indicator" button).

Definition toggleButtonLoading (selector : value) (isLoading : bool) (settings : obj) : M unit :=
  if negb (truthy selector) then
    emit (ConsoleWarn "toggleButtonLoading: Selector is not provided")
  else
    buttons <-
      match selector with
      | VElem e => ret (Some [e])
      | _ =>
          match field settings "container" with
          | VElem c =>
              sel <- css (String_of selector) ;;
              doc <- get_page ;;
              ret (Some (querySelectorAll sel c doc))
          | _ =>
              emit (ConsoleWarn "toggleButtonLoading: Invalid or missing container in settings, and selector is not a valid element") ;;;
              ret None
          end
      end ;;
    match buttons with
    | Some bs =>
        for_each bs (fun button =>
          modify_page (update_node button (set_loading isLoading)) ;;;
          emit (ButtonLoading button isLoading))
    | None => ret tt
    end.

Definition defaultBeforeSend (settings : obj) : M unit :=
  if truthy (field settings "disableButton")
     && truthy (field settings "buttonSelector")
     && truthy (field settings "container")
  then toggleButtonLoading (field settings "buttonSelector") true settings
  else ret tt.

(** A call [f(args)] of a value read from the settings.  [ASettings] is the
    settings object of the request. *)
Definition call (settings : obj) (f : value) (args : list arg) : M unit :=
  match f with
  | VFun (Callback name throws) =>
      emit (Call name args) ;;;
      if throws then raise (CallbackThrew name) else ret tt
  | VFun DefaultBeforeSend =>
      match args with
      | ASettings :: _ => defaultBeforeSend settings
      | AValue (VObj o) :: _ => defaultBeforeSend o
      | _ => ret tt
      end
  | _ => raise (TypeError "not a function")
  end.

Definition validateResponse (r : response) : M response :=
  if negb (ok r) then
    emit (ReadJson r) ;;;
    match bodyJson r with
    | Some json => raise (NetworkStatusError (status r) json)
    | None => raise (SyntaxError "JSON")
    end
  else ret r.

Definition processContentType (r : response) : M value :=
  match contentType r with
  | None => raise (TypeError "includes")
  | Some ct =>
      if includes ct "application/json" then
        emit (ReadJson r) ;;;
        match bodyJson r with
        | Some v => ret v
        | None => raise (SyntaxError "JSON")
        end
      else if includes ct "text/html" then
        emit (ReadText r) ;;; ret (VStr (bodyText r))
      else raise (UnsupportedContentType ct)
  end.

(** [container.querySelectorAll(sel)] and [container.querySelector(sel)] on
    a value read from the settings. *)
Definition queryAll (container : value) (sel : selector) : M (list nat) :=
  match container with
  | VElem c => doc <- get_page ;; ret (querySelectorAll sel c doc)
  | _ => raise (TypeError "querySelectorAll")
  end.

Definition query (container : value) (sel : selector) : M (option nat) :=
  match container with
  | VElem c => doc <- get_page ;; ret (querySelector sel c doc)
  | _ => raise (TypeError "querySelector")
  end.

Definition clearValidationErrors (container : value) : M unit :=
  fb <- queryAll container (ByClass "invalid-feedback") ;;
  for_each fb (fun element => modify_page (remove_node element)) ;;;
  inv <- queryAll container (ByClass "is-invalid") ;;
  for_each inv (fun element => modify_page (update_node element (remove_class "is-invalid"))).

Definition handleSuccess (response : value) (settings : obj) : M unit :=
  when (truthy (field settings "container"))
       (clearValidationErrors (field settings "container")) ;;;
  when (truthy (field settings "redirect"))
       (url <- get_prop response "url" ;;
        when (truthy url) (emit (Navigate url))) ;;;
  when (truthy (field settings "formReset"))
       (form <- query (field settings "container") (ByTag "form") ;;
        match form with
        | Some f => emit (FormReset f)
        | None => raise (TypeError "reset")
        end) ;;;
  when (truthy (field settings "showToastrMsg"))
       (message <- get_prop response "message" ;;
        when (truthy message) (emit (ToastrSuccess message))).

Definition processResponse (data : value) (settings : obj) : M unit :=
  when (truthy data && negb (truthy (member data "error")))
       (handleSuccess data settings) ;;;
  if truthy (field settings "customSuccessHandler") then
    call settings (field settings "customSuccessHandler") [AValue data; ASettings]
  else if truthy (field settings "success") then
    call settings (field settings "success") [AValue data]
  else ret tt.

(** [Object.assign({}, v, extra)]: a source that is [null] or [undefined]
    is skipped. *)
Definition assign_from (v : value) (extra : obj) : obj :=
  Object_assign
    (Object_assign [] (match Object_entries v with Some o => o | None => [] end))
    extra.

Definition handleFailure (response : value) (settings : obj) (messageType : value) : M unit :=
  when (truthy (field settings "showToastrMsg"))
       (message <- get_prop response "message" ;;
        when (truthy message) (emit (ToastrError message))) ;;;
  loaded <- get_swal ;;
  when (truthy (field settings "showSwalMsg") && loaded)
       (message <- get_prop response "message" ;;
        emit (SwalFire (assign_from (field settings "swalOptions")
                          [("text", message); ("icon", messageType)]))).

Definition createFormData (settings : obj) : M body :=
  form <- query (field settings "container") (ByTag "form") ;;
  match form with
  | None => raise FormNotFound
  | Some f =>
      match Object_entries (field settings "data") with
      | Some extra => ret (FormBody f extra)
      | None => raise (TypeError "Object.keys")
      end
  end.

(** ** The parts of [easyAjax] both releases share *)

Definition toastrDefaults : obj :=
  [ ("closeButton", VBool true); ("debug", VBool false);
    ("newestOnTop", VBool true); ("progressBar", VBool false);
    ("positionClass", VStr "toastr-top-center");
    ("preventDuplicates", VBool false); ("onclick", VNull);
    ("showDuration", VStr "300"); ("hideDuration", VStr "1000");
    ("timeOut", VStr "3000"); ("extendedTimeOut", VStr "1000");
    ("showEasing", VStr "linear"); ("hideEasing", VStr "linear");
    ("showMethod", VStr "fadeIn"); ("hideMethod", VStr "fadeOut") ].

Definition defaults (doc : node) : obj :=
  [ ("type", VStr "GET"); ("container", document_body doc);
    ("blockUI", VBool true); ("disableButton", VBool true);
    ("buttonSelector", VStr "[type='submit']"); ("dataType", VStr "json");
    ("showToastrMsg", VBool true); ("toastrOptions", VObj toastrDefaults);
    ("showSwalMsg", VBool true); ("swalOptions", VObj []);
    ("redirect", VBool true); ("data", VObj []); ("file", VBool false);
    ("formReset", VBool false); ("async", VBool true); ("debug", VBool false);
    ("timeout", VNum 5000); ("customErrorHandler", VNull);
    ("customSuccessHandler", VNull) ].

(** [Object.assign({}, defaults, options)] *)
Definition merge (doc : node) (options : obj) : obj :=
  Object_assign (Object_assign [] (defaults doc)) options.

(** The settings of a request: the merge, then
    [settings.beforeSend = settings.beforeSend || defaultBeforeSend]. *)
Definition resolve (doc : node) (options : obj) : obj :=
  let settings := merge doc options in
  obj_set "beforeSend"
    (js_or (field settings "beforeSend") (VFun DefaultBeforeSend)) settings.

(** [document.querySelector('meta[name="csrf-token"]').getAttribute('content')] *)
Definition read_csrfToken : M value :=
  doc <- get_page ;;
  match document_querySelector (ByTagAttr "meta" "name" "csrf-token") doc with
  | None => raise (TypeError "getAttribute")
  | Some meta =>
      ret (match getAttribute "content" (attrs meta) with
           | Some c => VStr c
           | None => VNull
           end)
  end.

Definition csrf_header (settings : obj) (csrfToken : value) : value :=
  if truthy (field settings "headers")
     && truthy (member (field settings "headers") "X-CSRF-TOKEN")
  then member (field settings "headers") "X-CSRF-TOKEN"
  else csrfToken.

(** [settings.type.toUpperCase()] *)
Definition upper_type (settings : obj) : M string :=
  match field settings "type" with
  | VStr t => ret (toUpperCase t)
  | _ => raise (TypeError "toUpperCase")
  end.

(** [requestOptions], with its body and content type. *)
Definition requestOptions (settings : obj) (csrfToken : value) : M request :=
  let base :=
    Request (field settings "type")
            [ ("X-CSRF-TOKEN", csrf_header settings csrfToken);
              ("X-Requested-With", VStr "XMLHttpRequest") ]
            NoBody in
  t <- upper_type settings ;;
  if negb (t =? "GET") && negb (t =? "HEAD") then
    if truthy (field settings "file") then
      b <- createFormData settings ;;
      ret (Request (method base) (headers base) b)
    else
      match field settings "data" with
      | VStr s =>
          ret (Request (method base)
                 (obj_set "Content-Type" (VStr "application/x-www-form-urlencoded") (headers base))
                 (RawBody s))
      | data =>
          ret (Request (method base)
                 (obj_set "Content-Type" (VStr "application/json") (headers base))
                 (JsonBody data))
      end
  else ret base.

Definition run_beforeSend (settings : obj) : M unit :=
  match field settings "beforeSend" with
  | VFun f => call settings (VFun f) [ASettings]
  | _ => defaultBeforeSend settings
  end.

(** The callback given to [finally]. *)
Definition completion (settings : obj) (timeoutId : nat) : M unit :=
  clearTimeout timeoutId ;;;
  when (truthy (field settings "disableButton"))
       (toggleButtonLoading (field settings "buttonSelector") false settings) ;;;
  when (truthy (field settings "complete"))
       (call settings (field settings "complete") []).

(** What [easyAjax] does before it calls [fetch]; an exception here leaves
    [easyAjax]. *)
Definition prepare (options : obj) : M (obj * request * nat) :=
  doc <- get_page ;;
  let settings := resolve doc options in
  clearValidationErrors (field settings "container") ;;;
  csrfToken <- read_csrfToken ;;
  req <- requestOptions settings csrfToken ;;
  run_beforeSend settings ;;;
  timeoutId <- setTimeout (field settings "timeout") ;;
  ret (settings, req, timeoutId).

(** A promise nobody listens to: its rejection is reported, not thrown. *)
Definition detached (m : M unit) : M unit :=
  try_catch m (fun e => emit (UnhandledRejection e)).

(** The continuations of the body reads started by the error handler run
    once the chain has settled. *)
Definition run_deferred (job : response -> obj -> M unit) : M unit :=
  fun s =>
    for_each (deferred s) (fun rs => job (fst rs) (snd rs))
      (State (page s) (trace s) (timers s) (next_timer s) (swal s) []).

(** [innerText = message] *)
Definition innerText_of (message : value) : string :=
  match message with
  | VNull => ""
  | _ => String_of message
  end.

Definition errorDiv (doc : node) (message : value) : node :=
  Node (fresh_id doc) "div" [] ["invalid-feedback"] false (innerText_of message) [].

(** The text of the selector [[name="field"]]. *)
Definition name_selector (fld : string) : string :=
  "[name=" ++ dquote ++ fld ++ dquote ++ "]".

(** ** Release 1.2.8 *)

Module V128.

Definition displayValidationError (inputElement : option nat) (message : value) : M unit :=
  match inputElement with
  | None => ret tt
  | Some input =>
      doc <- get_page ;;
      formGroup <-
        match closest (ByClass "form-group") input doc with
        | Some g => ret g
        | None =>
            match parentNode input doc with
            | Some p => ret p
            | None => raise (TypeError "querySelector")
            end
        end ;;
      match querySelector (ByClass "invalid-feedback") formGroup doc with
      | Some existingError => modify_page (remove_node existingError)
      | None => ret tt
      end ;;;
      modify_page (update_node input (add_class "is-invalid")) ;;;
      doc' <- get_page ;;
      modify_page (appendChild formGroup (errorDiv doc' message)) ;;;
      emit (InlineError input (innerText_of message))
  end.

(** The callback of [error.json().then(...)] in [handleError]. *)
Definition validation_job (response : response) (settings : obj) : M unit :=
  detached
    match bodyJson response with
    | None => raise (SyntaxError "JSON")
    | Some errorJson =>
        emit (ConsoleError "Validation errors:") ;;;
        message <- get_prop errorJson "message" ;;
        emit (ToastrError message) ;;;
        errors <- get_prop errorJson "errors" ;;
        match Object_entries errors with
        | None => raise (TypeError "Object.entries")
        | Some entries =>
            for_each entries (fun entry =>
              let (fld, messages) := entry in
              sel <- css (name_selector fld) ;;
              inputElement <- query (field settings "container") sel ;;
              match index0 messages with
              | None => raise (TypeError "0")
              | Some m => displayValidationError inputElement m
              end)
        end
    end.

Definition handleError (error : exn) (settings : obj) : M unit :=
  emit (ConsoleError "Error in fetch operation:") ;;;
  match exn_status error with
  | Some 422%Z =>
      match error with
      | AsResponse r => emit (ReadJson r) ;;; defer r settings
      | _ => raise (TypeError "json")
      end
  | _ => emit (ToastrError (VStr "An error occurred. Please try again."))
  end ;;;
  if truthy (field settings "customErrorHandler") then
    call settings (field settings "customErrorHandler") [AError error; ASettings]
  else if truthy (field settings "error") then
    call settings (field settings "error") [AError error]
  else ret tt.

(** [fetch(...).then(validateResponse).then(processContentType).then(...)] *)
Definition then_steps (settings : obj) (req : request) (timeoutId : nat) (net : network) : M unit :=
  r <- fetch (field settings "url") req timeoutId net ;;
  r <- validateResponse r ;;
  data <- processContentType r ;;
  processResponse data settings.

(** The whole chain: [....catch(...).finally(...)] *)
Definition chain (settings : obj) (req : request) (timeoutId : nat) (net : network) : M unit :=
  finally
    (try_catch (then_steps settings req timeoutId net)
               (fun error => handleError error settings))
    (completion settings timeoutId).

Definition easyAjax (options : obj) (net : network) : M unit :=
  p <- prepare options ;;
  let '(settings, req, timeoutId) := p in
  detached (chain settings req timeoutId net) ;;;
  run_deferred validation_job.

End V128.

(** ** Release 2.0.0 *)

Module V200.

Definition displayValidationError (inputElement : option nat) (message : value) : M unit :=
  match inputElement with
  | None => ret tt
  | Some input =>
      doc <- get_page ;;
      parent <-
        match parentNode input doc with
        | Some p => ret p
        | None => raise (TypeError "querySelector")
        end ;;
      match querySelector (ByClass "invalid-feedback") parent doc with
      | Some existingError => modify_page (remove_node existingError)
      | None => ret tt
      end ;;;
      modify_page (update_node input (add_class "is-invalid")) ;;;
      doc' <- get_page ;;
      (* [inputElement.parentNode] is read again for [appendChild] *)
      parent' <-
        match parentNode input doc' with
        | Some p => ret p
        | None => raise (TypeError "appendChild")
        end ;;
      modify_page (appendChild parent' (errorDiv doc' message)) ;;;
      emit (InlineError input (innerText_of message))
  end.

(** The callback of the loop over the fields:
    [([field, messages]) => { ... }]. *)
Definition render_field (settings : obj) (entry : string * value) : M unit :=
  let (fld, messages) := entry in
  sel <- css (name_selector fld) ;;
  inputElement <- query (field settings "container") sel ;;
  match inputElement with
  | Some input =>
      match index0 messages with
      | None => raise (TypeError "0")
      | Some m => displayValidationError (Some input) m
      end
  | None => ret tt
  end.

(** [Object.entries(errorJson.errors).forEach(...)] *)
Definition render_errors (settings : obj) (entries : obj) : M unit :=
  for_each entries (render_field settings).

(** The callbacks of [response.json().then(...).catch(...)] in
    [handleError]. *)
Definition validation_job (response : response) (settings : obj) : M unit :=
  try_catch
    match bodyJson response with
    | None => raise (SyntaxError "JSON")
    | Some errorJson =>
        message <- get_prop errorJson "message" ;;
        emit (ToastrError (js_or message (VStr "Validation errors occurred."))) ;;;
        errors <- get_prop errorJson "errors" ;;
        if truthy errors then
          match Object_entries errors with
          | None => raise (TypeError "Object.entries")
          | Some entries => render_errors settings entries
          end
        else ret tt
    end
    (fun jsonError => emit (ConsoleError "Error parsing JSON response:")).

Definition handleError (error : exn) (settings : obj) : M unit :=
  match exn_response error with
  | Some response =>
      if (status response =? 422)%Z then
        emit (ReadJson response) ;;; defer response settings
      else emit (ToastrError (VStr "An unexpected error occurred."))
  | None =>
      emit (ToastrError (VStr "A network error occurred. Please check your connection and try again."))
  end.

(** [fetch(...).then(...).then(validateResponse).then(processContentType).then(...)];
    the first callback throws [{ response }] when the response is not ok. *)
Definition then_steps (settings : obj) (req : request) (timeoutId : nat) (net : network) : M unit :=
  r <- fetch (field settings "url") req timeoutId net ;;
  r <- (if negb (ok r) then raise (HttpReject r) else ret r) ;;
  r <- validateResponse r ;;
  data <- processContentType r ;;
  processResponse data settings.

(** The whole chain: [....catch(...).finally(...)] *)
Definition chain (settings : obj) (req : request) (timeoutId : nat) (net : network) : M unit :=
  finally
    (try_catch (then_steps settings req timeoutId net)
               (fun error => handleError error settings))
    (completion settings timeoutId).

Definition easyAjax (options : obj) (net : network) : M unit :=
  p <- prepare options ;;
  let '(settings, req, timeoutId) := p in
  detached (chain settings req timeoutId net) ;;;
  run_deferred validation_job.

End V200.

(** ** Pages and states to run the code on *)

Definition el (id : nat) (t : string) (a : list (string * string)) (ks : list node) : node :=
  Node id t a [] false "" ks.

Definition meta_csrf (id : nat) (token : string) : node :=
  el id "meta" [("name", "csrf-token"); ("content", token)] [].

(** A page with the token, and a form whose two inputs share the form as
    their parent. *)
Definition page_flat : node :=
  el 0 "html" []
    [ el 1 "head" [] [meta_csrf 2 "tok"];
      el 3 "body" []
        [ el 4 "form" []
            [ el 5 "input" [("name", "email")] [];
              el 6 "input" [("name", "name")] [];
              el 7 "button" [("type", "submit")] [] ] ] ].

(** The same form with each input in a wrapper of its own. *)
Definition page_wrapped : node :=
  el 0 "html" []
    [ el 1 "head" [] [meta_csrf 2 "tok"];
      el 3 "body" []
        [ el 4 "form" []
            [ el 8 "div" [] [el 5 "input" [("name", "email")] []];
              el 9 "div" [] [el 6 "input" [("name", "name")] []];
              el 7 "button" [("type", "submit")] [] ] ] ].


(** A page without the token. *)
Definition page_no_meta : node :=
  el 0 "html" []
    [ el 1 "head" [] [];
      el 3 "body" [] [ el 7 "button" [("type", "submit")] [] ] ].

Definition start (doc : node) : state := State doc [] [] 0 true [].

Definition json_response (st : Z) (v : value) : response :=
  Response st (Some "application/json") "" (Some v).

Definition errors_422 : value :=
  VObj [ ("message", VStr "The given data was invalid.");
         ("errors", VObj [ ("email", VArr [VStr "Email is required"]);
                           ("name", VArr [VStr "Name is required"]) ]) ].

(** ** Statements of the claims as they are written, and observations *)

(** The claim's last part, as it is written: a nested key that the
    caller's [toastrOptions] does not mention keeps its default. *)
Definition nested_defaults_kept (doc : node) (options : obj) : Prop :=
  forall nk v,
    obj_get nk toastrDefaults = Some v ->
    prop (field options "toastrOptions") nk = Some VUndefined ->
    member (field (merge doc options) "toastrOptions") nk = v.


(** A request reached the transport. *)
Definition is_fetch (e : event) : bool :=
  match e with
  | Fetch _ _ _ _ => true
  | _ => false
  end.

Definition request_issued (s : state) : bool := existsb is_fetch (trace s).

Definition urlencoded : value := VStr "application/x-www-form-urlencoded".


(** The page has no element that matches [sel]. *)
Definition none_matches (sel : selector) (doc : node) : Prop :=
  Forall (fun n => matches sel n = false) (subtree doc).

Definition csrf_meta : selector := ByTagAttr "meta" "name" "csrf-token".

(** Tag and attribute selectors do not see a change of classes. *)
Definition classless (sel : selector) : Prop :=
  match sel with
  | ByClass _ => False
  | _ => True
  end.

Definition with_page (doc : node) (s : state) : state :=
  State doc (trace s) (timers s) (next_timer s) (swal s) (deferred s).

(** The page after the loops of [clearValidationErrors] over the elements
    [fb] and [inv]. *)
Definition remove_all (fb : list nat) (doc : node) : node :=
  fold_left (fun d e => remove_node e d) fb doc.

Definition unmark_all (inv : list nat) (doc : node) : node :=
  fold_left (fun d e => update_node e (remove_class "is-invalid") d) inv doc.

(** The page once the validation messages and marks under the element [c]
    are cleared. *)
Definition cleared (c : nat) (doc : node) : node :=
  let doc1 := remove_all (querySelectorAll (ByClass "invalid-feedback") c doc) doc in
  unmark_all (querySelectorAll (ByClass "is-invalid") c doc1) doc1.

(** Every effect that [m] adds to the trace satisfies [P]. *)
Definition emits {A : Type} (P : event -> Prop) (m : M A) : Prop :=
  forall s, exists l, trace (snd (m s)) = (trace s ++ l)%list /\ Forall P l.

Definition not_swal (e : event) : Prop :=
  match e with
  | SwalFire _ => False
  | _ => True
  end.

Definition not_call (e : event) : Prop :=
  match e with
  | Call _ _ => False
  | _ => True
  end.



(** The button is enabled and has lost its loading mark. *)
Definition interactive (n : node) : Prop :=
  disabled n = false /\ getAttribute "data-kt-indicator" (attrs n) = None.

Definition add_trace (l : list event) (s : state) : state :=
  State (page s) (trace s ++ l) (timers s) (next_timer s) (swal s) (deferred s).

(** A caller who listens to failures in both ways. *)
Definition failure_options : obj :=
  [ ("type", VStr "POST"); ("url", VStr "/save");
    ("customErrorHandler", VFun (Callback "onError" false));
    ("error", VFun (Callback "onFail" false)) ].

Definition server_error : response :=
  json_response 500 (VObj [("message", VStr "Server Error")]).

(** C7's first part as it is written: the body of a response that is not
    2xx is read as JSON. *)
Definition decode_attempted (r : response) (s : state) : Prop :=
  In (ReadJson r) (trace s).




(** How often the identity [id] occurs in the tree. *)
Definition occ (id : nat) (n : node) : nat :=
  List.length (filter (has_id id) (subtree n)).

Definition ids (n : node) : list nat := map nid (subtree n).

Definition feedback_class : string := "invalid-feedback".

(** The elements of the page that carry an inline message. *)
Definition feedback (doc : node) : list node :=
  filter (has_class feedback_class) (subtree doc).

(** The children an element gains when [ch] is appended to the element
    [p]. *)
Definition extra_of (p : nat) (ch : node) (n : node) : list node :=
  if has_id p n then [ch] else [].

(** [input.classList.add('is-invalid')] *)
Definition mark (input : nat) : node -> node :=
  update_node input (add_class "is-invalid").

(** The test of [parentNode]. *)
Definition is_parent_of (id : nat) (p : node) : bool := existsb (has_id id) (kids p).

(** The page after [displayValidationError] has marked the input [i] and
    appended the message to the element [p] (release 2.0.0, when [p] holds
    no message yet). *)
Definition render_step (i p : nat) (m : value) (d : node) : node :=
  appendChild p (errorDiv (mark i d) m) (mark i d).











Definition validation_fallback : value := VStr "Validation errors occurred.".

Definition post_options : obj := [("type", VStr "POST"); ("url", VStr "/save")].


(** The two settings of the alert dialog. *)
Definition swal_key (k : string) : bool :=
  (k =? "showSwalMsg") || (k =? "swalOptions").

(** Two settings objects that differ at most in the settings of the alert
    dialog. *)
Definition agree (a b : obj) : Prop :=
  forall k, swal_key k = false -> field a k = field b k.

(** Two options objects that differ at most in the settings of the alert
    dialog. *)
Definition same_but_swal (options options' : obj) : Prop :=
  forall k, swal_key k = false -> obj_get k options = obj_get k options'.

(** Two states that differ at most in the alert-dialog settings held by
    the continuations still to run. *)
Definition alike (s s' : state) : Prop :=
  page s = page s' /\ trace s = trace s' /\ timers s = timers s'
  /\ next_timer s = next_timer s' /\ swal s = swal s'
  /\ Forall2 (fun x y => fst x = fst y /\ agree (snd x) (snd y))
       (deferred s) (deferred s').

(** Two computations that, from states that are alike, end alike: both
    return, with results related by [RA], or both raise the same
    exception. *)
Definition related {A : Type} (RA : A -> A -> Prop) (m m' : M A) : Prop :=
  forall s s', alike s s' ->
    match m s, m' s' with
    | (Done a, t), (Done a', t') => RA a a' /\ alike t t'
    | (Raised e, t), (Raised e', t') => e = e' /\ alike t t'
    | _, _ => False
    end.

(** What can be seen of a state from outside. *)
Definition observable (s : state) : node * list event * list nat :=
  (page s, trace s, timers s).

(** The results of [prepare] for two options objects that differ at most
    in the settings of the alert dialog. *)
Definition prepared_alike (p p' : obj * request * nat) : Prop :=
  agree (fst (fst p)) (fst (fst p'))
  /\ snd (fst p) = snd (fst p') /\ snd p = snd p'.

Definition swal_options : obj :=
  [("showSwalMsg", VBool false); ("swalOptions", VObj [("timer", VNum 1500)])].

(** ** Further observations on the helpers and on the request *)

Definition not_fetch (e : event) : Prop :=
  match e with
  | Fetch _ _ _ _ => False
  | _ => True
  end.

(** [m] adds the event [ev] to the trace and, after it, only effects that
    satisfy [P]. *)
Definition leads {A : Type} (P : event -> Prop) (ev : event) (m : M A) : Prop :=
  forall s, exists l, trace (snd (m s)) = (trace s ++ ev :: l)%list /\ Forall P l.

(** The effects of one call of [easyAjax] that starts in [s] and ends in
    [final]: what it adds to the trace holds the request [sent] once, and
    no other request. *)
Definition one_request (sent : event) (s final : state) : Prop :=
  exists before after,
    trace final = (trace s ++ before ++ sent :: after)%list
    /\ Forall not_fetch before /\ Forall not_fetch after.

Definition no_request (s final : state) : Prop :=
  exists l, trace final = (trace s ++ l)%list /\ Forall not_fetch l.

(** The content type that goes with a body. *)
Definition content_type_of (b : body) : option value :=
  match b with
  | RawBody _ => Some urlencoded
  | JsonBody _ => Some (VStr "application/json")
  | NoBody | FormBody _ _ => None
  end.

Definition base_headers (settings : obj) (csrfToken : value) : obj :=
  [ ("X-CSRF-TOKEN", csrf_header settings csrfToken);
    ("X-Requested-With", VStr "XMLHttpRequest") ].

(** [v instanceof Element] *)
Definition is_element (v : value) : bool :=
  match v with
  | VElem _ => true
  | _ => false
  end.




(** A response that is 2xx and whose content type is neither JSON nor
    HTML, or is missing. *)
Definition unreadable (r : response) : Prop :=
  match contentType r with
  | Some ct => includes ct "application/json" = false /\ includes ct "text/html" = false
  | None => True
  end.

(** What [processContentType] throws on such a response. *)
Definition unreadable_error (r : response) : exn :=
  match contentType r with
  | Some ct => UnsupportedContentType ct
  | None => TypeError "includes"
  end.

Definition network_toast : event :=
  ToastrError (VStr "A network error occurred. Please check your connection and try again.").

Definition generic_toast : event :=
  ToastrError (VStr "An error occurred. Please try again.").

(** The calls of the success callbacks, as [processResponse] writes them. *)
Definition success_calls (data : value) (settings : obj) : M unit :=
  if truthy (field settings "customSuccessHandler") then
    call settings (field settings "customSuccessHandler") [AValue data; ASettings]
  else if truthy (field settings "success") then
    call settings (field settings "success") [AValue data]
  else ret tt.

(** Neither a navigation nor a success toast. *)
Definition quiet (e : event) : Prop :=
  match e with
  | Navigate _ | ToastrSuccess _ => False
  | _ => True
  end.

(** None of what a success shows or does: no navigation, no success toast,
    no form reset, no body read as text, no call with the response data
    (the success callbacks are the only ones called with it). *)
Definition not_success (e : event) : Prop :=
  match e with
  | Navigate _ | ToastrSuccess _ | FormReset _ | ReadText _ => False
  | Call _ (AValue _ :: _) => False
  | _ => True
  end.

(** The request failed: the network failed, the timer fired, or the
    response is not 2xx. *)
Definition failed (net : network) : Prop :=
  match net with
  | Responds r => ok r = false
  | _ => True
  end.

(** The list [l] if [b] holds. *)
Definition only_if (b : bool) (l : list event) : list event :=
  if b then l else [].

(** What [handleSuccess] shows for the body [o]: the navigation, the form
    reset, the toast, in this order. *)
Definition success_effects (o settings : obj) (form : option nat) : list event :=
  (only_if (truthy (field settings "redirect") && truthy (field o "url"))
           [Navigate (field o "url")]
   ++ only_if (truthy (field settings "formReset"))
              match form with Some f => [FormReset f] | None => [] end
   ++ only_if (truthy (field settings "showToastrMsg") && truthy (field o "message"))
              [ToastrSuccess (field o "message")])%list.

(** [m] leaves [proj] of the state as it found it. *)
Definition keeps {A X : Type} (proj : state -> X) (m : M A) : Prop :=
  forall s, proj (snd (m s)) = proj s.

(** The timers: those pending and the next identifier. *)
Definition clock (s : state) : list nat * nat := (timers s, next_timer s).

(** Every pending timer was set before: its identifier is below the
    next one. *)
Definition timers_known (s : state) : Prop :=
  Forall (fun t => t < next_timer s) (timers s).

(** [m] raises only exceptions that satisfy [Q]. *)
Definition raises_only {A : Type} (Q : exn -> Prop) (m : M A) : Prop :=
  forall s e s', m s = (Raised e, s') -> Q e.

(** An error without a [status] of its own: what [error.status === 422]
    is false for. *)
Definition no_status (e : exn) : Prop := exn_status e = None.

Definition not_inline (e : event) : Prop :=
  match e with
  | InlineError _ _ => False
  | _ => True
  end.

Definition invalid_class : string := "is-invalid".




(** The calls of the failure callbacks, as [handleError] of release 1.2.8
    writes them. *)
Definition failure_calls (error : exn) (settings : obj) : M unit :=
  if truthy (field settings "customErrorHandler") then
    call settings (field settings "customErrorHandler") [AError error; ASettings]
  else if truthy (field settings "error") then
    call settings (field settings "error") [AError error]
  else ret tt.

(** * Properties *)

Open Scope list_scope.

(** ** Objects *)

Section ObjectFacts.

Lemma obj_get_set_same (k : string) (v : value) (o : obj) :
  obj_get k (obj_set k v o) = Some v.
Proof.
  induction o as [|[k' v'] o IH]; simpl.
  - now rewrite String.eqb_refl.
  - destruct (k' =? k) eqn:E; simpl.
    + now rewrite String.eqb_refl.
    + now rewrite E.
Qed.

Lemma obj_get_set_other (k k' : string) (v : value) (o : obj) :
  k <> k' -> obj_get k' (obj_set k v o) = obj_get k' o.
Proof.
  intros Hne.
  assert (Hf : (k =? k') = false) by now apply String.eqb_neq.
  induction o as [|[k0 v0] o IH]; simpl.
  - now rewrite Hf.
  - destruct (k0 =? k) eqn:E; simpl.
    + apply String.eqb_eq in E; subst k0. now rewrite Hf.
    + now rewrite IH.
Qed.

Lemma obj_get_absent (k : string) (o : obj) :
  ~ In k (keys o) -> obj_get k o = None.
Proof.
  induction o as [|[k' v'] o IH]; simpl; intros Hn; [reflexivity|].
  destruct (k' =? k) eqn:E.
  - apply String.eqb_eq in E. tauto.
  - apply IH. tauto.
Qed.

(** A property of the merge is the one the source gives, else the one the
    target had. *)
Lemma obj_get_assign (k : string) (source : obj) :
  wf_obj source ->
  forall target,
    obj_get k (Object_assign target source) =
    match obj_get k source with
    | Some v => Some v
    | None => obj_get k target
    end.
Proof.
  unfold Object_assign, wf_obj.
  induction source as [|[k' v'] source IH]; simpl; intros Hwf target.
  - reflexivity.
  - inversion Hwf as [|? ? Hnotin Hwf']; subst.
    rewrite IH by assumption.
    destruct (k' =? k) eqn:E.
    + apply String.eqb_eq in E; subst k'.
      rewrite (obj_get_absent k source Hnotin).
      apply obj_get_set_same.
    + destruct (obj_get k source); [reflexivity|].
      apply obj_get_set_other. now apply String.eqb_neq.
Qed.

Lemma wf_defaults (doc : node) : wf_obj (defaults doc).
Proof.
  unfold wf_obj, defaults, keys; simpl.
  repeat (constructor; [simpl; intuition discriminate|]).
  constructor.
Qed.

End ObjectFacts.

(** ** C1: the settings merge *)

(** C1, counterexample: a caller who passes [toastrOptions: { closeButton:
    false }] gets settings whose [toastrOptions.debug] is [undefined], not
    the default [false]: nested defaults are not kept. *)
Lemma C1_nested_defaults_lost :
  ~ nested_defaults_kept page_flat
      [("toastrOptions", VObj [("closeButton", VBool false)])].
Proof.
  intros H.
  specialize (H "debug" (VBool false) eq_refl eq_refl).
  vm_compute in H. discriminate H.
Qed.

(** C1, amended: in the merge [Object.assign({}, defaults, options)] every
    key the caller supplies has exactly the caller's value, every other key
    has its default ([type] 'GET', [timeout] 5000, [file] false, ...), and
    the merge is one level deep: a nested object such as [toastrOptions]
    that the caller supplies replaces the default object whole.  The later
    assignment of [beforeSend] changes no other key. *)
Theorem C1_merge_top_level (doc : node) (options : obj) (k : string) :
  wf_obj options ->
  obj_get k (merge doc options) =
    match obj_get k options with
    | Some v => Some v
    | None => obj_get k (defaults doc)
    end
  /\ (obj_get k options = None ->
      (k = "type" -> field (merge doc options) k = VStr "GET") /\
      (k = "timeout" -> field (merge doc options) k = VNum 5000) /\
      (k = "file" -> field (merge doc options) k = VBool false) /\
      (k = "toastrOptions" -> field (merge doc options) k = VObj toastrDefaults))
  /\ (forall nested, obj_get k options = Some (VObj nested) ->
      field (merge doc options) k = VObj nested)
  /\ (k <> "beforeSend" ->
      obj_get k (resolve doc options) = obj_get k (merge doc options)).
Proof.
  intros Hwf.
  assert (Hget : obj_get k (merge doc options) =
                 match obj_get k options with
                 | Some v => Some v
                 | None => obj_get k (defaults doc)
                 end).
  { unfold merge. rewrite obj_get_assign by assumption.
    destruct (obj_get k options); [reflexivity|].
    rewrite obj_get_assign by apply wf_defaults.
    destruct (obj_get k (defaults doc)); reflexivity. }
  split; [exact Hget|]. split; [|split].
  - intros Hnone. unfold field. rewrite Hget, Hnone.
    repeat split; intros ->; reflexivity.
  - intros nested Hsome. unfold field. now rewrite Hget, Hsome.
  - intros Hne. unfold resolve. apply obj_get_set_other. congruence.
Qed.

Lemma C1_merge_top_level_witness :
  wf_obj [("type", VStr "POST"); ("toastrOptions", VObj [("closeButton", VBool false)])]
  /\ obj_get "timeout"
       (merge page_flat
          [("type", VStr "POST"); ("toastrOptions", VObj [("closeButton", VBool false)])])
     = Some (VNum 5000).
Proof.
  assert (Hwf : wf_obj [("type", VStr "POST");
                        ("toastrOptions", VObj [("closeButton", VBool false)])]).
  { unfold wf_obj; simpl.
    repeat (constructor; [simpl; intuition discriminate|]). constructor. }
  split; [exact Hwf|].
  exact (proj1 (C1_merge_top_level page_flat _ "timeout" Hwf)).
Defined.

(** ** The page as a tree *)

Section TreeFacts.

(** Induction on an element with the hypothesis for all its children. *)
Lemma node_tree_ind (P : node -> Prop) :
  (forall n, Forall P (kids n) -> P n) -> forall n, P n.
Proof.
  intros H. fix IH 1. intros n. apply H.
  destruct n as [i t a c d x ks]; simpl.
  induction ks as [|k ks IHks]; constructor; [apply IH | exact IHks].
Qed.

Lemma flat_map_map_in {A B C : Type} (f : A -> B) (g : B -> list C) (l : list A) :
  flat_map g (map f l) = flat_map (fun x => g (f x)) l.
Proof.
  induction l; simpl; [reflexivity | now rewrite IHl].
Qed.

Lemma flat_map_ext_Forall {A B : Type} (f g : A -> list B) (l : list A) :
  Forall (fun x => f x = g x) l -> flat_map f l = flat_map g l.
Proof.
  induction 1; simpl; [reflexivity | congruence].
Qed.

Lemma map_flat_map {A B C : Type} (f : B -> C) (g : A -> list B) (l : list A) :
  map f (flat_map g l) = flat_map (fun x => map f (g x)) l.
Proof.
  induction l; simpl; [reflexivity|]. now rewrite map_app, IHl.
Qed.

Lemma descendants_unfold (n : node) :
  descendants n = flat_map (fun k => k :: descendants k) (kids n).
Proof. destruct n; reflexivity. Qed.

Lemma kids_update (id : nat) (f : node -> node) (n : node) :
  (forall m, kids (f m) = kids m) ->
  kids (update_node id f n) = map (update_node id f) (kids n).
Proof.
  intros Hk. destruct n as [i t a c d x ks]; simpl.
  destruct (has_id id _); [rewrite Hk|]; reflexivity.
Qed.

(** An update that keeps the children of the element it changes reaches
    every element of the tree in place. *)
Lemma descendants_update (id : nat) (f : node -> node) :
  (forall n, kids (f n) = kids n) ->
  forall n, descendants (update_node id f n) = map (update_node id f) (descendants n).
Proof.
  intros Hk. induction n as [n IH] using node_tree_ind.
  rewrite (descendants_unfold (update_node id f n)), (descendants_unfold n).
  rewrite kids_update by assumption.
  rewrite flat_map_map_in, map_flat_map.
  apply flat_map_ext_Forall.
  eapply Forall_impl; [|exact IH]. simpl. intros k Hkd. now rewrite Hkd.
Qed.

Lemma subtree_update (id : nat) (f : node -> node) :
  (forall n, kids (f n) = kids n) ->
  forall n, subtree (update_node id f n) = map (update_node id f) (subtree n).
Proof.
  intros Hk n. unfold subtree. simpl. now rewrite descendants_update.
Qed.

(** What is left after a removal was there before, its own subtree pruned
    in the same way. *)
Lemma descendants_remove (id : nat) :
  forall n m, In m (descendants (remove_node id n)) ->
              exists m0, In m0 (descendants n) /\ m = remove_node id m0.
Proof.
  induction n as [n IH] using node_tree_ind. intros m Hin.
  destruct n as [i t a c d x ks]; simpl in *.
  apply in_flat_map in Hin. destruct Hin as [k' [Hk' Hm]].
  apply filter_In in Hk'. destruct Hk' as [Hk' _].
  apply in_map_iff in Hk'. destruct Hk' as [k [<- Hk]].
  rewrite Forall_forall in IH.
  destruct Hm as [<- | Hm].
  - exists k. split; [|reflexivity].
    apply in_flat_map. exists k. split; [assumption | now left].
  - destruct (IH k Hk m Hm) as [m0 [Hm0 ->]].
    exists m0. split; [|reflexivity].
    apply in_flat_map. exists k. split; [assumption | now right].
Qed.

Lemma subtree_remove (id : nat) (n m : node) :
  In m (subtree (remove_node id n)) ->
  exists m0, In m0 (subtree n) /\ m = remove_node id m0.
Proof.
  unfold subtree. intros [<- | Hin].
  - exists n. split; [now left | reflexivity].
  - destruct (descendants_remove id n m Hin) as [m0 [H0 ->]].
    exists m0. split; [now right | reflexivity].
Qed.

Lemma matches_remove (sel : selector) (id : nat) (n : node) :
  matches sel (remove_node id n) = matches sel n.
Proof. destruct n, sel; reflexivity. Qed.

Lemma none_matches_remove (sel : selector) (id : nat) (doc : node) :
  none_matches sel doc -> none_matches sel (remove_node id doc).
Proof.
  unfold none_matches. rewrite !Forall_forall. intros H m Hin.
  destruct (subtree_remove id doc m Hin) as [m0 [H0 ->]].
  rewrite matches_remove. now apply H.
Qed.

Lemma update_node_shape (id : nat) (f : node -> node) (n : node) :
  (forall m, tag (f m) = tag m /\ attrs (f m) = attrs m) ->
  tag (update_node id f n) = tag n /\ attrs (update_node id f n) = attrs n.
Proof.
  intros Hf. destruct n as [i t a c d x ks]; simpl.
  destruct (has_id id _); [|now split].
  destruct (Hf (with_kids (Node i t a c d x ks) (map (update_node id f) ks))) as [-> ->].
  now split.
Qed.

Lemma none_matches_update (sel : selector) (id : nat) (f : node -> node) (doc : node) :
  classless sel ->
  (forall m, kids (f m) = kids m) ->
  (forall m, tag (f m) = tag m /\ attrs (f m) = attrs m) ->
  none_matches sel doc -> none_matches sel (update_node id f doc).
Proof.
  unfold none_matches. intros Hsel Hk Hf H.
  rewrite subtree_update by assumption.
  rewrite Forall_map. eapply Forall_impl; [|exact H].
  intros m Hm. simpl in Hm.
  destruct (update_node_shape id f m Hf) as [Ht Ha].
  destruct sel; simpl in *; unfold attr_is in *; try contradiction;
    now rewrite ?Ht, ?Ha.
Qed.

End TreeFacts.

(** ** Running the monad *)

Section MonadFacts.

Lemma for_each_modify (l : list nat) (g : nat -> node -> node) (s : state) :
  for_each l (fun x => modify_page (g x)) s
  = (Done tt, with_page (fold_left (fun d x => g x d) l (page s)) s).
Proof.
  revert s. induction l as [|x l IH]; intros s; simpl.
  - destruct s; reflexivity.
  - unfold bind at 1. simpl. rewrite IH. reflexivity.
Qed.

Lemma clearValidationErrors_element (c : nat) (s : state) :
  clearValidationErrors (VElem c) s = (Done tt, with_page (cleared c (page s)) s).
Proof.
  unfold clearValidationErrors, queryAll, bind, get_page, ret.
  rewrite for_each_modify. simpl.
  rewrite for_each_modify. reflexivity.
Qed.

Lemma clearValidationErrors_other (v : value) (s : state) :
  (forall c, v <> VElem c) ->
  clearValidationErrors v s = (Raised (TypeError "querySelectorAll"), s).
Proof.
  intros H. destruct v; try reflexivity. now destruct (H e).
Qed.

Lemma none_matches_cleared (sel : selector) (c : nat) (doc : node) :
  classless sel -> none_matches sel doc -> none_matches sel (cleared c doc).
Proof.
  intros Hsel. unfold cleared, unmark_all, remove_all.
  set (fb := querySelectorAll _ c doc). clearbody fb.
  intros H.
  assert (H1 : none_matches sel (fold_left (fun d e => remove_node e d) fb doc)).
  { revert doc H. induction fb as [|e fb IH]; simpl; intros doc H; [exact H|].
    apply IH. now apply none_matches_remove. }
  set (doc1 := fold_left _ fb doc) in *. clearbody doc1.
  set (inv := querySelectorAll _ c doc1). clearbody inv.
  revert doc1 H1. induction inv as [|e inv IH]; simpl; intros doc1 H1; [exact H1|].
  apply IH.
  apply none_matches_update; auto; intros m; destruct m; try split; reflexivity.
Qed.

Lemma none_matches_find (sel : selector) (doc : node) :
  none_matches sel doc -> document_querySelector sel doc = None.
Proof.
  unfold none_matches, document_querySelector.
  induction 1 as [|n l Hn _ IH]; simpl; [reflexivity|]. now rewrite Hn.
Qed.

Lemma none_matches_query (sel : selector) (c : nat) (doc : node) :
  none_matches sel doc -> querySelector sel c doc = None.
Proof.
  unfold none_matches, querySelector, querySelectorAll, find_node.
  intros H. destruct (find (has_id c) (subtree doc)) as [n|] eqn:E; [|reflexivity].
  apply find_some in E. destruct E as [Hin _].
  assert (Hd : Forall (fun m => matches sel m = false) (descendants n)).
  { rewrite Forall_forall in *. intros m Hm. apply H.
    clear H. revert Hin Hm. generalize doc. clear doc.
    induction doc as [doc IH] using node_tree_ind. intros Hin Hm.
    destruct Hin as [-> | Hin]; [now right|].
    right. rewrite descendants_unfold in Hin |- *.
    apply in_flat_map in Hin. destruct Hin as [k [Hk Hnk]].
    apply in_flat_map. exists k. split; [assumption|].
    rewrite Forall_forall in IH. exact (IH k Hk Hnk Hm). }
  induction Hd as [|m l Hm _ IH]; simpl; [reflexivity|]. now rewrite Hm.
Qed.

End MonadFacts.

(** ** C4: the body of the request *)




(** ** C5: the CSRF token *)

Lemma prepare_without_meta (options : obj) (s : state) :
  none_matches csrf_meta (page s) ->
  exists e s', prepare options s = (Raised e, s') /\ trace s' = trace s.
Proof.
  intros Hnone. unfold prepare, bind at 1, get_page.
  destruct (field (resolve (page s) options) "container") eqn:Ec;
    try (unfold bind at 1; rewrite clearValidationErrors_other by discriminate;
         eexists; eexists; split; reflexivity).
  unfold bind at 1. rewrite clearValidationErrors_element.
  unfold bind at 1, read_csrfToken, bind at 1, get_page.
  change (page (with_page (cleared e (page s)) s)) with (cleared e (page s)).
  change (document_querySelector (ByTagAttr "meta" "name" "csrf-token"))
    with (document_querySelector csrf_meta).
  rewrite none_matches_find by (apply none_matches_cleared; [exact I | exact Hnone]).
  eexists; eexists; split; reflexivity.
Qed.

(** C5, counterexample: on a page without the csrf-token meta tag a GET
    request raises a TypeError before anything is sent. *)
Lemma C5_get_without_meta_raises :
  V200.easyAjax [("type", VStr "GET"); ("url", VStr "/items")]
    (Responds (json_response 200 (VObj []))) (start page_no_meta)
  = (Raised (TypeError "getAttribute"), start page_no_meta)
  /\ request_issued (start page_no_meta) = false.
Proof. split; reflexivity. Qed.

(** C5, amended: when the page has no csrf-token meta tag, [easyAjax]
    raises before the request is sent for every method, GET included, and
    whatever headers the caller supplies; when the tag is there, the header
    X-CSRF-TOKEN of the request is the caller's [headers['X-CSRF-TOKEN']]
    if that is truthy, and the content of the tag otherwise. *)
Theorem C5_csrf_token (options : obj) (net : network) (s : state) :
  (none_matches csrf_meta (page s) ->
   exists e s',
     V200.easyAjax options net s = (Raised e, s') /\
     V128.easyAjax options net s = (Raised e, s') /\
     trace s' = trace s)
  /\
  (forall settings csrfToken req s',
     requestOptions settings csrfToken s = (Done req, s') ->
     field (headers req) "X-CSRF-TOKEN" =
       if truthy (field settings "headers")
          && truthy (member (field settings "headers") "X-CSRF-TOKEN")
       then member (field settings "headers") "X-CSRF-TOKEN"
       else csrfToken)
  /\
  (forall meta, document_querySelector csrf_meta (page s) = Some meta ->
     read_csrfToken s =
       (Done match getAttribute "content" (attrs meta) with
             | Some c => VStr c
             | None => VNull
             end, s)).
Proof.
  split; [|split].
  - intros Hnone.
    destruct (prepare_without_meta options s Hnone) as [e [s' [Hp Ht]]].
    exists e, s'. unfold V200.easyAjax, V128.easyAjax, bind. rewrite Hp. auto.
  - intros settings csrfToken req s'.
    unfold requestOptions, upper_type, bind, ret.
    destruct (field settings "type"); try discriminate.
    destruct (negb (toUpperCase s0 =? "GET") && negb (toUpperCase s0 =? "HEAD")).
    + destruct (truthy (field settings "file")).
      * unfold createFormData, bind, query.
        destruct (field settings "container"); try discriminate.
        unfold bind, get_page, ret.
        destruct (querySelector _ _ _); try discriminate.
        destruct (Object_entries _); try discriminate.
        intros H; injection H as <- _. reflexivity.
      * destruct (field settings "data"); intros H; injection H as <- _; reflexivity.
    + intros H; injection H as <- _. reflexivity.
  - intros meta Hm. unfold read_csrfToken, bind, get_page, ret.
    change (ByTagAttr "meta" "name" "csrf-token") with csrf_meta.
    now rewrite Hm.
Qed.

Lemma C5_csrf_token_witness :
  none_matches csrf_meta (page (start page_no_meta))
  /\ exists e s',
       V200.easyAjax [("type", VStr "GET")] NetworkFailure (start page_no_meta)
       = (Raised e, s') /\
       V128.easyAjax [("type", VStr "GET")] NetworkFailure (start page_no_meta)
       = (Raised e, s') /\
       trace s' = trace (start page_no_meta).
Proof.
  assert (H : none_matches csrf_meta (page (start page_no_meta))).
  { unfold none_matches. simpl. repeat constructor. }
  split; [exact H|].
  exact (proj1 (C5_csrf_token [("type", VStr "GET")] NetworkFailure (start page_no_meta)) H).
Defined.

(** ** C6: a 2xx body with an [error] field *)

Lemma then_steps_decode_json
    (r : response) (ct : string) (data : value)
    (settings : obj) (req : request) (tid : nat) (s : state) :
  ok r = true ->
  contentType r = Some ct ->
  includes ct "application/json" = true ->
  bodyJson r = Some data ->
  let sent := Fetch (field settings "url") (method req) (headers req) (rbody req) in
  V200.then_steps settings req tid (Responds r) s
    = processResponse data settings (add_trace [sent; ReadJson r] s)
  /\ V128.then_steps settings req tid (Responds r) s
     = processResponse data settings (add_trace [sent; ReadJson r] s).
Proof.
  intros Hok Hct Hinc Hbody sent.
  unfold V200.then_steps, V128.then_steps, fetch, validateResponse, processContentType.
  do 4 (unfold bind, emit, ret; cbn iota beta;
        rewrite ?Hok, ?Hct, ?Hinc, ?Hbody; cbn [negb]).
  unfold add_trace. cbn [page trace timers next_timer swal deferred].
  rewrite <- !app_assoc. split; reflexivity.
Qed.

(** C6: when the decoded body has a truthy [error] field, [processResponse]
    does nothing but call the success callback: [customSuccessHandler(data,
    settings)] if it is set, else [success(data)] if it is set.  Then the
    page is untouched and the call is the only effect: no clearing, no
    redirect, no form reset, no toast.  In both releases a 2xx response
    whose JSON body decodes to [data] reaches [processResponse] with that
    body. *)
Theorem C6_error_body_still_calls_success (data : value) (settings : obj) (s : state) :
  truthy (member data "error") = true ->
  processResponse data settings s =
    (if truthy (field settings "customSuccessHandler") then
       call settings (field settings "customSuccessHandler") [AValue data; ASettings]
     else if truthy (field settings "success") then
       call settings (field settings "success") [AValue data]
     else ret tt) s
  /\
  (forall name throws,
     field settings "customSuccessHandler" = VFun (Callback name throws) ->
     processResponse data settings s =
       (if throws then Raised (CallbackThrew name) else Done tt,
        add_trace [Call name [AValue data; ASettings]] s))
  /\
  (forall name throws,
     truthy (field settings "customSuccessHandler") = false ->
     field settings "success" = VFun (Callback name throws) ->
     processResponse data settings s =
       (if throws then Raised (CallbackThrew name) else Done tt,
        add_trace [Call name [AValue data]] s))
  /\
  (forall r ct req tid s0,
     ok r = true -> contentType r = Some ct ->
     includes ct "application/json" = true -> bodyJson r = Some data ->
     let sent := Fetch (field settings "url") (method req) (headers req) (rbody req) in
     V200.then_steps settings req tid (Responds r) s0
       = processResponse data settings (add_trace [sent; ReadJson r] s0)
     /\ V128.then_steps settings req tid (Responds r) s0
        = processResponse data settings (add_trace [sent; ReadJson r] s0)).
Proof.
  intros Herr.
  assert (Hskip : processResponse data settings s =
    (if truthy (field settings "customSuccessHandler") then
       call settings (field settings "customSuccessHandler") [AValue data; ASettings]
     else if truthy (field settings "success") then
       call settings (field settings "success") [AValue data]
     else ret tt) s).
  { unfold processResponse. rewrite Herr, andb_false_r. reflexivity. }
  split; [exact Hskip|]. split; [|split].
  - intros name throws Hc. rewrite Hskip, Hc. simpl.
    unfold bind, emit. destruct throws; reflexivity.
  - intros name throws Hc Hs. rewrite Hskip, Hc, Hs. simpl.
    unfold bind, emit. destruct throws; reflexivity.
  - intros r ct req tid s0 Hok Hct Hinc Hbody.
    now apply then_steps_decode_json with ct.
Qed.

Lemma C6_error_body_still_calls_success_witness :
  let data := VObj [("error", VStr "quota exceeded"); ("url", VStr "/next");
                    ("message", VStr "Saved")] in
  let settings := resolve page_flat [("success", VFun (Callback "onSuccess" false));
                                    ("formReset", VBool true)] in
  processResponse data settings (start page_flat)
  = (Done tt, add_trace [Call "onSuccess" [AValue data]] (start page_flat)).
Proof.
  intros data settings.
  exact (proj1 (proj2 (proj2 (C6_error_body_still_calls_success data settings
                                (start page_flat) eq_refl)))
           "onSuccess" false eq_refl eq_refl).
Defined.

(** ** Effects added to the trace *)

Section Emits.

Context {P : event -> Prop}.

Lemma emits_ret {A} (a : A) : emits P (ret a).
Proof. intros s. exists []. simpl. now rewrite app_nil_r. Qed.

Lemma emits_raise {A} (e : exn) : emits P (@raise A e).
Proof. intros s. exists []. simpl. now rewrite app_nil_r. Qed.

Lemma emits_emit (e : event) : P e -> emits P (emit e).
Proof. intros H s. exists [e]. simpl. auto. Qed.

Lemma emits_bind {A B} (m : M A) (k : A -> M B) :
  emits P m -> (forall a, emits P (k a)) -> emits P (bind m k).
Proof.
  intros Hm Hk s. unfold bind.
  destruct (Hm s) as [l [El Hl]].
  destruct (m s) as [[a|e] s1]; simpl in *.
  - destruct (Hk a s1) as [l' [El' Hl']].
    exists (l ++ l'). rewrite El', El, app_assoc. split; [reflexivity|].
    apply Forall_app; auto.
  - exists l. auto.
Qed.

Lemma emits_try_catch {A} (m : M A) (h : exn -> M A) :
  emits P m -> (forall e, emits P (h e)) -> emits P (try_catch m h).
Proof.
  intros Hm Hh s. unfold try_catch.
  destruct (Hm s) as [l [El Hl]].
  destruct (m s) as [[a|e] s1]; simpl in *.
  - exists l. auto.
  - destruct (Hh e s1) as [l' [El' Hl']].
    exists (l ++ l'). rewrite El', El, app_assoc. split; [reflexivity|].
    apply Forall_app; auto.
Qed.

Lemma emits_finally {A} (m : M A) (k : M unit) :
  emits P m -> emits P k -> emits P (finally m k).
Proof.
  intros Hm Hk s. unfold finally.
  destruct (Hm s) as [l [El Hl]].
  destruct (m s) as [r s1]; simpl in *.
  destruct (Hk s1) as [l' [El' Hl']].
  exists (l ++ l').
  destruct (k s1) as [[u|e] s2]; simpl in *;
    (rewrite El', El, app_assoc; split; [reflexivity | apply Forall_app; auto]).
Qed.

Lemma emits_when (b : bool) (m : M unit) : emits P m -> emits P (when b m).
Proof. destruct b; simpl; [auto | intros _; apply emits_ret]. Qed.

Lemma emits_for_each {A} (l : list A) (f : A -> M unit) :
  (forall x, emits P (f x)) -> emits P (for_each l f).
Proof.
  intros H. induction l; simpl; [apply emits_ret|].
  apply emits_bind; auto.
Qed.

Lemma emits_silent {A} (m : M A) :
  (forall s, trace (snd (m s)) = trace s) -> emits P m.
Proof. intros H s. exists []. now rewrite H, app_nil_r. Qed.

Lemma emits_get_page : emits P get_page.
Proof. now apply emits_silent. Qed.

Lemma emits_get_swal : emits P get_swal.
Proof. now apply emits_silent. Qed.

Lemma emits_modify_page (f : node -> node) : emits P (modify_page f).
Proof. now apply emits_silent. Qed.

Lemma emits_defer (r : response) (settings : obj) : emits P (defer r settings).
Proof. now apply emits_silent. Qed.

Lemma emits_setTimeout (ms : value) :
  (forall id, P (SetTimeout id ms)) -> emits P (setTimeout ms).
Proof. intros H s. exists [SetTimeout (next_timer s) ms]. simpl. auto. Qed.

Lemma emits_clearTimeout (id : nat) : P (ClearTimeout id) -> emits P (clearTimeout id).
Proof. intros H s. exists [ClearTimeout id]. simpl. auto. Qed.

Lemma emits_timer_fires (id : nat) : P (TimerFired id) -> emits P (timer_fires id).
Proof. intros H s. exists [TimerFired id]. simpl. auto. Qed.

Lemma emits_run_deferred (job : response -> obj -> M unit) :
  (forall r st, emits P (job r st)) -> emits P (run_deferred job).
Proof.
  intros H s. unfold run_deferred.
  destruct (emits_for_each (deferred s) (fun rs => job (fst rs) (snd rs))
              (fun rs => H (fst rs) (snd rs))
              (State (page s) (trace s) (timers s) (next_timer s) (swal s) []))
    as [l [El Hl]].
  exists l. auto.
Qed.

End Emits.

(** One step of a proof that a computation only adds effects that satisfy
    a predicate given by cases on the effect. *)
Ltac emits_step :=
  match goal with
  | |- emits _ (bind _ _) => apply emits_bind; [|intros]
  | |- emits _ (ret _) => apply emits_ret
  | |- emits _ (raise _) => apply emits_raise
  | |- emits _ (emit _) => apply emits_emit; exact I
  | |- emits _ (when _ _) => apply emits_when
  | |- emits _ (for_each _ _) => apply emits_for_each; intros
  | |- emits _ (try_catch _ _) => apply emits_try_catch; [|intros]
  | |- emits _ (detached _) => apply emits_try_catch; [|intros]
  | |- emits _ (finally _ _) => apply emits_finally
  | |- emits _ get_page => apply emits_get_page
  | |- emits _ get_swal => apply emits_get_swal
  | |- emits _ (modify_page _) => apply emits_modify_page
  | |- emits _ (defer _ _) => apply emits_defer
  | |- emits _ (setTimeout _) => apply emits_setTimeout; intros; exact I
  | |- emits _ (timer_fires _) => apply emits_timer_fires; exact I
  | |- emits _ (css _) => unfold css
  | |- emits _ (get_prop _ _) => unfold get_prop
  | |- emits _ (query _ _) => unfold query
  | |- emits _ (queryAll _ _) => unfold queryAll
  | |- emits _ (match ?x with _ => _ end) => destruct x
  | |- emits _ (if ?b then _ else _) => destruct b
  end.

Ltac emits_auto := repeat emits_step.

Section EmitsOfHelpers.

Context {P : event -> Prop}.
Hypothesis P_warn : forall m, P (ConsoleWarn m).
Hypothesis P_log : forall m, P (ConsoleError m).
Hypothesis P_loading : forall b, P (ButtonLoading b true).
Hypothesis P_toast_error : forall m, P (ToastrError m).
Hypothesis P_toast_success : forall m, P (ToastrSuccess m).
Hypothesis P_read_json : forall r, P (ReadJson r).
Hypothesis P_read_text : forall r, P (ReadText r).
Hypothesis P_fetch : forall u m h b, P (Fetch u m h b).
Hypothesis P_set_timeout : forall id ms, P (SetTimeout id ms).
Hypothesis P_timer_fired : forall id, P (TimerFired id).
Hypothesis P_navigate : forall u, P (Navigate u).
Hypothesis P_form_reset : forall f, P (FormReset f).
Hypothesis P_inline : forall i m, P (InlineError i m).
Hypothesis P_unhandled : forall e, P (UnhandledRejection e).
Hypothesis P_call : forall n a, P (Call n a).
Hypothesis P_clear : forall id, P (ClearTimeout id).
Hypothesis P_restore : forall b, P (ButtonLoading b false).

Ltac emits_here :=
  repeat first
    [ emits_step
    | apply emits_emit; solve [auto]
    | apply emits_setTimeout; solve [auto]
    | apply emits_timer_fires; solve [auto]
    | apply emits_clearTimeout; solve [auto] ].

Lemma emits_toggle_on (selector : value) (settings : obj) :
  emits P (toggleButtonLoading selector true settings).
Proof. unfold toggleButtonLoading. emits_here. Qed.

Lemma emits_toggle_off (selector : value) (settings : obj) :
  emits P (toggleButtonLoading selector false settings).
Proof. unfold toggleButtonLoading. emits_here. Qed.

Lemma emits_defaultBeforeSend (settings : obj) : emits P (defaultBeforeSend settings).
Proof.
  unfold defaultBeforeSend.
  destruct (_ && _); [apply emits_toggle_on | apply emits_ret].
Qed.

Lemma emits_call (settings : obj) (f : value) (args : list arg) :
  emits P (call settings f args).
Proof.
  unfold call.
  destruct f as [| | | | | | | |[name throws|]]; try apply emits_raise.
  - emits_here.
  - destruct args as [|[[]| |] args]; try apply emits_ret;
      apply emits_defaultBeforeSend.
Qed.

Lemma emits_validateResponse (r : response) : emits P (validateResponse r).
Proof. unfold validateResponse. emits_here. Qed.

Lemma emits_processContentType (r : response) : emits P (processContentType r).
Proof. unfold processContentType. emits_here. Qed.

Lemma emits_clearValidationErrors (container : value) :
  emits P (clearValidationErrors container).
Proof. unfold clearValidationErrors. emits_here. Qed.

Lemma emits_handleSuccess (response : value) (settings : obj) :
  emits P (handleSuccess response settings).
Proof.
  unfold handleSuccess.
  repeat first [ apply emits_clearValidationErrors | progress emits_here ].
Qed.

Lemma emits_processResponse (data : value) (settings : obj) :
  emits P (processResponse data settings).
Proof.
  unfold processResponse.
  repeat first [ apply emits_handleSuccess | apply emits_call | progress emits_here ].
Qed.

Lemma emits_createFormData (settings : obj) : emits P (createFormData settings).
Proof. unfold createFormData. emits_here. Qed.

Lemma emits_requestOptions (settings : obj) (csrfToken : value) :
  emits P (requestOptions settings csrfToken).
Proof.
  unfold requestOptions, upper_type.
  repeat first [ apply emits_createFormData | progress emits_here ].
Qed.

Lemma emits_prepare (options : obj) : emits P (prepare options).
Proof.
  unfold prepare, read_csrfToken, run_beforeSend.
  repeat first
    [ apply emits_clearValidationErrors | apply emits_requestOptions
    | apply emits_call | apply emits_defaultBeforeSend | progress emits_here ].
Qed.

Lemma emits_fetch (url : value) (req : request) (timeoutId : nat) (net : network) :
  emits P (fetch url req timeoutId net).
Proof. unfold fetch. emits_here. Qed.

Lemma emits_completion (settings : obj) (timeoutId : nat) :
  emits P (completion settings timeoutId).
Proof.
  unfold completion.
  repeat first [ apply emits_toggle_off | apply emits_call | progress emits_here ].
Qed.

Lemma emits_display_128 (inputElement : option nat) (message : value) :
  emits P (V128.displayValidationError inputElement message).
Proof. unfold V128.displayValidationError. emits_here. Qed.

Lemma emits_display_200 (inputElement : option nat) (message : value) :
  emits P (V200.displayValidationError inputElement message).
Proof. unfold V200.displayValidationError. emits_here. Qed.

Lemma emits_job_128 (r : response) (settings : obj) :
  emits P (V128.validation_job r settings).
Proof.
  unfold V128.validation_job.
  repeat first [ apply emits_display_128 | progress emits_here ].
Qed.

Lemma emits_job_200 (r : response) (settings : obj) :
  emits P (V200.validation_job r settings).
Proof.
  unfold V200.validation_job, V200.render_errors, V200.render_field.
  repeat first [ apply emits_display_200 | progress emits_here ].
Qed.

Lemma emits_handleError_128 (error : exn) (settings : obj) :
  emits P (V128.handleError error settings).
Proof.
  unfold V128.handleError.
  repeat first [ apply emits_call | progress emits_here ].
Qed.

Lemma emits_handleError_200 (error : exn) (settings : obj) :
  emits P (V200.handleError error settings).
Proof. unfold V200.handleError. emits_here. Qed.

Lemma emits_then_steps_128 (settings : obj) (req : request) (tid : nat) (net : network) :
  emits P (V128.then_steps settings req tid net).
Proof.
  unfold V128.then_steps.
  repeat first
    [ apply emits_fetch | apply emits_validateResponse
    | apply emits_processContentType | apply emits_processResponse
    | progress emits_here ].
Qed.

Lemma emits_then_steps_200 (settings : obj) (req : request) (tid : nat) (net : network) :
  emits P (V200.then_steps settings req tid net).
Proof.
  unfold V200.then_steps.
  repeat first
    [ apply emits_fetch | apply emits_validateResponse
    | apply emits_processContentType | apply emits_processResponse
    | progress emits_here ].
Qed.

Lemma emits_easyAjax_128 (options : obj) (net : network) :
  emits P (V128.easyAjax options net).
Proof.
  unfold V128.easyAjax, V128.chain.
  apply emits_bind; [apply emits_prepare|]. intros [[settings req] tid].
  apply emits_bind; [|intros; apply emits_run_deferred; intros; apply emits_job_128].
  apply emits_try_catch; [|intros; emits_here].
  apply emits_finally; [|apply emits_completion].
  apply emits_try_catch; [apply emits_then_steps_128|].
  intros; apply emits_handleError_128.
Qed.

Lemma emits_easyAjax_200 (options : obj) (net : network) :
  emits P (V200.easyAjax options net).
Proof.
  unfold V200.easyAjax, V200.chain.
  apply emits_bind; [apply emits_prepare|]. intros [[settings req] tid].
  apply emits_bind; [|intros; apply emits_run_deferred; intros; apply emits_job_200].
  apply emits_try_catch; [|intros; emits_here].
  apply emits_finally; [|apply emits_completion].
  apply emits_try_catch; [apply emits_then_steps_200|].
  intros; apply emits_handleError_200.
Qed.

End EmitsOfHelpers.

(** ** C2: the failure callbacks *)

(** In release 2.0.0 the error handler and the continuation it leaves
    behind call nothing of the caller's. *)
Lemma handleError_200_calls_nothing (error : exn) (settings : obj) :
  emits not_call (V200.handleError error settings)
  /\ forall r, emits not_call (V200.validation_job r settings).
Proof.
  split; [|intros r].
  - apply (emits_handleError_200 (P := not_call)); intros; exact I.
  - apply (emits_job_200 (P := not_call)); intros; exact I.
Qed.

(** In release 1.2.8 every error of the chain (none of them has a
    [status]) reaches [customErrorHandler] when it is set. *)
Lemma handleError_128_calls_customErrorHandler
    (error : exn) (settings : obj) (s : state) (name : string) (throws : bool) :
  exn_status error = None ->
  field settings "customErrorHandler" = VFun (Callback name throws) ->
  V128.handleError error settings s =
    (if throws then Raised (CallbackThrew name) else Done tt,
     add_trace [ ConsoleError "Error in fetch operation:";
                 ToastrError (VStr "An error occurred. Please try again.");
                 Call name [AError error; ASettings] ] s).
Proof.
  intros Hst Hc. unfold V128.handleError. rewrite Hst, Hc. simpl.
  unfold bind, emit, add_trace. simpl.
  rewrite <- !app_assoc. destruct throws; reflexivity.
Qed.

Lemma handleError_128_calls_error
    (error : exn) (settings : obj) (s : state) (name : string) (throws : bool) :
  exn_status error = None ->
  truthy (field settings "customErrorHandler") = false ->
  field settings "error" = VFun (Callback name throws) ->
  V128.handleError error settings s =
    (if throws then Raised (CallbackThrew name) else Done tt,
     add_trace [ ConsoleError "Error in fetch operation:";
                 ToastrError (VStr "An error occurred. Please try again.");
                 Call name [AError error] ] s).
Proof.
  intros Hst Hc He. unfold V128.handleError. rewrite Hst, Hc, He. simpl.
  unfold bind, emit, add_trace. simpl.
  rewrite <- !app_assoc. destruct throws; reflexivity.
Qed.

(** C2, the code at the failing inputs: with [customErrorHandler] and
    [error] both set, release 2.0.0 calls neither when the network fails,
    when the request times out, when the server answers 500 and when it
    answers 422; release 1.2.8 calls [customErrorHandler(error, settings)]
    on the same network failure. *)
Theorem C2_v200_skips_failure_callbacks :
  Forall not_call
    (trace (snd (V200.easyAjax failure_options NetworkFailure (start page_wrapped))))
  /\ Forall not_call
       (trace (snd (V200.easyAjax failure_options TimedOut (start page_wrapped))))
  /\ Forall not_call
       (trace (snd (V200.easyAjax failure_options (Responds server_error)
                      (start page_wrapped))))
  /\ Forall not_call
       (trace (snd (V200.easyAjax failure_options
                      (Responds (json_response 422 errors_422)) (start page_wrapped))))
  /\ In (Call "onError" [AError FetchFailed; ASettings])
        (trace (snd (V128.easyAjax failure_options NetworkFailure (start page_wrapped)))).
Proof.
  split; [|split; [|split; [|split]]].
  1-4: vm_compute; repeat constructor.
  vm_compute. do 5 right. now left.
Qed.

(** ** C7: responses that are not 2xx *)

(** C7, counterexample: release 2.0.0 does not read the body of a 500
    response at all. *)
Lemma C7_no_decode_on_500 :
  ~ decode_attempted server_error
      (snd (V200.easyAjax [("type", VStr "POST"); ("url", VStr "/save")]
              (Responds server_error) (start page_flat))).
Proof.
  unfold decode_attempted. vm_compute. intuition discriminate.
Qed.

(** C7, amended: for a response that is not 2xx,
    - release 2.0.0 rejects with the response itself, undecoded; its
      handler reads the body only when the status is 422 and otherwise
      shows the generic toast; when the body of a 422 does not parse, the
      failure is caught and logged, and nothing is raised;
    - release 1.2.8 reads the body of every such response and rejects with
      an error that carries the status and the decoded body, or, when the
      body does not parse, with the parse error itself.
    No failure ever carries an empty error body. *)
Theorem C7_non_2xx_responses
    (r : response) (settings : obj) (req : request) (tid : nat) (s : state) :
  ok r = false ->
  let sent := Fetch (field settings "url") (method req) (headers req) (rbody req) in
  V200.then_steps settings req tid (Responds r) s
    = (Raised (HttpReject r), add_trace [sent] s)
  /\ (status r <> 422%Z ->
      V200.handleError (HttpReject r) settings s
        = (Done tt, add_trace [ToastrError (VStr "An unexpected error occurred.")] s))
  /\ (status r = 422%Z ->
      V200.handleError (HttpReject r) settings s
        = (Done tt, State (page s) (trace s ++ [ReadJson r]) (timers s)
                          (next_timer s) (swal s) (deferred s ++ [(r, settings)])))
  /\ (bodyJson r = None ->
      V200.validation_job r settings s
        = (Done tt, add_trace [ConsoleError "Error parsing JSON response:"] s))
  /\ V128.then_steps settings req tid (Responds r) s
     = (Raised match bodyJson r with
               | Some json => NetworkStatusError (status r) json
               | None => SyntaxError "JSON"
               end,
        add_trace [sent; ReadJson r] s).
Proof.
  intros Hok sent. repeat split.
  - unfold V200.then_steps, fetch, bind, emit, ret. simpl. rewrite Hok. reflexivity.
  - intros Hs. unfold V200.handleError. simpl.
    apply Z.eqb_neq in Hs. rewrite Hs. reflexivity.
  - intros Hs. unfold V200.handleError. simpl. rewrite Hs. reflexivity.
  - intros Hb. unfold V200.validation_job, try_catch. rewrite Hb. reflexivity.
  - unfold V128.then_steps, fetch, validateResponse, bind, emit, ret. simpl.
    rewrite Hok. simpl. unfold add_trace. simpl. rewrite <- app_assoc.
    destruct (bodyJson r); reflexivity.
Qed.

Lemma C7_non_2xx_responses_witness :
  ok server_error = false
  /\ V200.handleError (HttpReject server_error) [] (start page_flat)
     = (Done tt, add_trace [ToastrError (VStr "An unexpected error occurred.")]
                   (start page_flat)).
Proof.
  split; [reflexivity|].
  refine (proj1 (proj2 (C7_non_2xx_responses server_error [] (Request VNull [] NoBody) 0
                          (start page_flat) eq_refl)) _).
  discriminate.
Defined.

(** ** C9: a container without a form *)










(** ** C8: the completion step *)

Section Completion.

Lemma finally_snd {A} (m : M A) (k : M unit) (s : state) :
  snd (finally m k s) = snd (k (snd (m s))).
Proof.
  unfold finally. destruct (m s) as [r s1]. simpl.
  destruct (k s1) as [[u|e] s2]; reflexivity.
Qed.





Lemma getAttribute_remove_attr (k : string) (a : list (string * string)) :
  getAttribute k (remove_attr k a) = None.
Proof.
  induction a as [|[k' v] a IH]; simpl; [reflexivity|].
  destruct (k' =? k) eqn:E; simpl; [assumption | now rewrite E].
Qed.

Lemma interactive_set_loading (m : node) : interactive (set_loading false m).
Proof.
  unfold interactive, set_loading, removeAttribute. simpl. split; [reflexivity|].
  apply getAttribute_remove_attr.
Qed.





End Completion.




(** A [complete] that throws: the button is restored before the call, and
    the rejection of the chain is left unhandled. *)
Example complete_throws_after_restore :
  trace (snd (V200.easyAjax
                [("url", VStr "/save"); ("complete", VFun (Callback "done" true))]
                NetworkFailure (start page_flat)))
  = [ ButtonLoading 7 true; SetTimeout 0 (VNum 5000);
      Fetch (VStr "/save") (VStr "GET")
        [("X-CSRF-TOKEN", VStr "tok"); ("X-Requested-With", VStr "XMLHttpRequest")]
        NoBody;
      ToastrError (VStr "A network error occurred. Please check your connection and try again.");
      ClearTimeout 0; ButtonLoading 7 false; Call "done" [];
      UnhandledRejection (CallbackThrew "done") ].
Proof. reflexivity. Qed.

(** ** Trees that grow by leaves *)

Lemma subtree_unfold (n : node) : subtree n = n :: flat_map subtree (kids n).
Proof. unfold subtree at 1. now rewrite descendants_unfold. Qed.

Lemma descendants_flat (n : node) : descendants n = flat_map subtree (kids n).
Proof. now rewrite descendants_unfold. Qed.

Lemma find_as_filter {A} (P : A -> bool) (l : list A) :
  find P l = hd_error (filter P l).
Proof.
  induction l as [|x l IH]; simpl; [reflexivity|].
  destruct (P x); [reflexivity | exact IH].
Qed.

Lemma hd_error_map {A B} (f : A -> B) (l : list A) :
  hd_error (map f l) = option_map f (hd_error l).
Proof. destruct l; reflexivity. Qed.

Lemma filter_map_comm {A B} (f : A -> B) (P : B -> bool) (Q : A -> bool) (l : list A) :
  (forall x, P (f x) = Q x) -> filter P (map f l) = map f (filter Q l).
Proof.
  intros H. induction l as [|x l IH]; simpl; [reflexivity|].
  rewrite H. destruct (Q x); simpl; now rewrite IH.
Qed.

Lemma filter_flat_map {A B} (P : B -> bool) (f : A -> list B) (l : list A) :
  filter P (flat_map f l) = flat_map (fun x => filter P (f x)) l.
Proof.
  induction l as [|x l IH]; simpl; [reflexivity|].
  now rewrite filter_app, IH.
Qed.

Lemma flat_map_leaves (l : list node) :
  (forall x, In x l -> kids x = []) -> flat_map subtree l = l.
Proof.
  induction l as [|x l IH]; simpl; intros H; [reflexivity|].
  rewrite IH by auto.
  rewrite descendants_unfold, (H x) by now left. reflexivity.
Qed.

Section Grow.

(** A change [G] of the tree that keeps every element in place and may
    give an element new last children, [extra], which are leaves. *)
Variable G : node -> node.
Variable extra : node -> list node.
Hypothesis G_kids : forall n, kids (G n) = map G (kids n) ++ extra n.
Hypothesis extra_leaf : forall n x, In x (extra n) -> kids x = [].

Lemma descendants_grow (n : node) :
  descendants (G n) = flat_map subtree (map G (kids n)) ++ extra n.
Proof.
  rewrite descendants_flat, G_kids, flat_map_app.
  f_equal. apply flat_map_leaves. apply extra_leaf.
Qed.

(** A test that does not see the change finds the same elements. *)
Lemma filter_descendants_grow (P : node -> bool) :
  (forall m, P (G m) = P m) ->
  (forall n x, In x (extra n) -> P x = false) ->
  forall n, filter P (descendants (G n)) = map G (filter P (descendants n)).
Proof.
  intros HP Hx. induction n as [n IH] using node_tree_ind.
  rewrite descendants_grow, filter_app.
  assert (E : filter P (extra n) = []).
  { specialize (Hx n). induction (extra n) as [|x l IHl]; simpl; [reflexivity|].
    rewrite Hx by now left. apply IHl. intros y Hy. apply Hx. now right. }
  rewrite E, app_nil_r, (descendants_flat n).
  induction IH as [|k ks Hk _ IHks]; [reflexivity|].
  cbn [map flat_map]. rewrite !filter_app, map_app, IHks. f_equal.
  unfold subtree. cbn [filter]. rewrite HP.
  destruct (P k); cbn [map]; now rewrite Hk.
Qed.

Lemma filter_subtree_grow (P : node -> bool) :
  (forall m, P (G m) = P m) ->
  (forall n x, In x (extra n) -> P x = false) ->
  forall n, filter P (subtree (G n)) = map G (filter P (subtree n)).
Proof.
  intros HP Hx n. unfold subtree. simpl.
  rewrite HP, filter_descendants_grow by assumption.
  destruct (P n); reflexivity.
Qed.

Lemma find_subtree_grow (P : node -> bool) :
  (forall m, P (G m) = P m) ->
  (forall n x, In x (extra n) -> P x = false) ->
  forall n, find P (subtree (G n)) = option_map G (find P (subtree n)).
Proof.
  intros HP Hx n.
  now rewrite !find_as_filter, filter_subtree_grow, hd_error_map.
Qed.

(** A test that sees the new leaves counts them. *)
Lemma count_subtree_grow (P : node -> bool) :
  (forall m, P (G m) = P m) ->
  forall n,
    List.length (filter P (subtree (G n)))
    = List.length (filter P (subtree n)) + List.length (filter P (flat_map extra (subtree n))).
Proof.
  intros HP. induction n as [n IH] using node_tree_ind.
  unfold subtree at 1. simpl filter at 1.
  rewrite descendants_grow, HP.
  rewrite (subtree_unfold n). simpl flat_map. simpl filter.
  assert (E : List.length (filter P (flat_map subtree (map G (kids n))))
              = List.length (filter P (flat_map subtree (kids n)))
                + List.length (filter P (flat_map extra (flat_map subtree (kids n))))).
  { induction IH as [|k ks Hk _ IHks]; [reflexivity|].
    cbn [map flat_map].
    rewrite flat_map_app, !filter_app, !length_app, IHks, Hk. lia. }
  rewrite !filter_app, !length_app.
  destruct (P n); simpl; rewrite !length_app, E; lia.
Qed.

End Grow.

(** ** Appending a message and marking an input *)

Section RenderFacts.

Lemma append_kids (p : nat) (ch n : node) :
  kids (appendChild p ch n) = map (appendChild p ch) (kids n) ++ extra_of p ch n.
Proof.
  unfold appendChild, extra_of. destruct n as [i t a c d x ks]; simpl.
  destruct (has_id p _); simpl; [reflexivity | now rewrite app_nil_r].
Qed.

Lemma append_top (p : nat) (ch n : node) :
  nid (appendChild p ch n) = nid n
  /\ tag (appendChild p ch n) = tag n
  /\ attrs (appendChild p ch n) = attrs n
  /\ classes (appendChild p ch n) = classes n
  /\ text (appendChild p ch n) = text n.
Proof.
  unfold appendChild. destruct n as [i t a c d x ks]; simpl.
  destruct (has_id p _); simpl; auto.
Qed.

Lemma mark_kids (i : nat) (n : node) :
  kids (mark i n) = map (mark i) (kids n) ++ [].
Proof.
  rewrite app_nil_r. unfold mark. apply kids_update.
  intros m. unfold add_class. destruct (has_class _ m); destruct m; reflexivity.
Qed.

Lemma has_class_add (c c' : string) (n : node) :
  c <> c' -> has_class c (add_class c' n) = has_class c n.
Proof.
  intros Hne. unfold add_class. destruct (has_class c' n) eqn:E; [reflexivity|].
  unfold has_class. simpl. rewrite existsb_app. simpl.
  apply String.eqb_neq in Hne. rewrite Hne. now rewrite !orb_false_r.
Qed.

Lemma mark_top (i : nat) (n : node) :
  nid (mark i n) = nid n
  /\ tag (mark i n) = tag n
  /\ attrs (mark i n) = attrs n
  /\ has_class feedback_class (mark i n) = has_class feedback_class n
  /\ text (mark i n) = text n.
Proof.
  unfold mark. destruct n as [j t a c d x ks]; simpl.
  destruct (has_id i _); simpl; [|repeat split; reflexivity].
  unfold add_class.
  destruct (has_class "is-invalid" _) eqn:E; simpl; repeat split; try reflexivity.
  unfold has_class. simpl. rewrite existsb_app. simpl. now rewrite orb_false_r.
Qed.

Lemma no_extra_leaf (n x : node) : In x (@nil node) -> kids x = [].
Proof. intros []. Qed.

Lemma extra_of_leaf (p : nat) (ch : node) :
  kids ch = [] -> forall n x, In x (extra_of p ch n) -> kids x = [].
Proof.
  intros Hch n x. unfold extra_of. destruct (has_id p n); simpl; [|tauto].
  intros [<- | []]. exact Hch.
Qed.

Lemma extra_of_fails (P : node -> bool) (p : nat) (ch : node) :
  P ch = false -> forall n x, In x (extra_of p ch n) -> P x = false.
Proof.
  intros Hch n x. unfold extra_of. destruct (has_id p n); simpl; [|tauto].
  intros [<- | []]. exact Hch.
Qed.

Lemma count_extra_of (P : node -> bool) (p : nat) (ch : node) (l : list node) :
  List.length (filter P (flat_map (extra_of p ch) l))
  = if P ch then List.length (filter (has_id p) l) else 0.
Proof.
  induction l as [|x l IH]; simpl; [now destruct (P ch)|].
  rewrite filter_app, length_app, IH. unfold extra_of.
  destruct (has_id p x); simpl; destruct (P ch); reflexivity.
Qed.

(** Appending a leaf adds it once for every occurrence of the parent. *)
Lemma count_append (P : node -> bool) (p : nat) (ch n : node) :
  kids ch = [] ->
  (forall m, P (appendChild p ch m) = P m) ->
  List.length (filter P (subtree (appendChild p ch n)))
  = List.length (filter P (subtree n)) + if P ch then occ p n else 0.
Proof.
  intros Hch HP.
  rewrite (count_subtree_grow (appendChild p ch) (extra_of p ch)
             (append_kids p ch) (extra_of_leaf p ch Hch) P HP).
  now rewrite count_extra_of.
Qed.

Lemma filter_subtree_append (P : node -> bool) (p : nat) (ch n : node) :
  kids ch = [] -> P ch = false ->
  (forall m, P (appendChild p ch m) = P m) ->
  filter P (subtree (appendChild p ch n))
  = map (appendChild p ch) (filter P (subtree n)).
Proof.
  intros Hch HPch HP.
  apply (filter_subtree_grow (appendChild p ch) (extra_of p ch)
           (append_kids p ch) (extra_of_leaf p ch Hch) P HP).
  now apply extra_of_fails.
Qed.


Lemma filter_subtree_mark (P : node -> bool) (i : nat) (n : node) :
  (forall m, P (mark i m) = P m) ->
  filter P (subtree (mark i n)) = map (mark i) (filter P (subtree n)).
Proof.
  intros HP.
  apply (filter_subtree_grow (mark i) (fun _ => []) (mark_kids i) no_extra_leaf P HP).
  intros ? ? [].
Qed.

Lemma filter_descendants_mark (P : node -> bool) (i : nat) (n : node) :
  (forall m, P (mark i m) = P m) ->
  filter P (descendants (mark i n)) = map (mark i) (filter P (descendants n)).
Proof.
  intros HP.
  apply (filter_descendants_grow (mark i) (fun _ => []) (mark_kids i) no_extra_leaf P HP).
  intros ? ? [].
Qed.

Lemma has_id_append (q p : nat) (ch m : node) :
  has_id q (appendChild p ch m) = has_id q m.
Proof. unfold has_id. now rewrite (proj1 (append_top p ch m)). Qed.

Lemma has_id_mark (q i : nat) (m : node) : has_id q (mark i m) = has_id q m.
Proof. unfold has_id. now rewrite (proj1 (mark_top i m)). Qed.


Lemma occ_mark (q i : nat) (n : node) : occ q (mark i n) = occ q n.
Proof.
  unfold occ. rewrite filter_subtree_mark by (intros m; apply has_id_mark).
  apply length_map.
Qed.

Lemma ids_mark (i : nat) (n : node) : ids (mark i n) = ids n.
Proof.
  unfold ids, mark.
  rewrite subtree_update.
  - rewrite map_map. apply map_ext. intros m. apply (proj1 (mark_top i m)).
  - intros m. unfold add_class. destruct (has_class _ m); destruct m; reflexivity.
Qed.

End RenderFacts.

(** ** Looking elements up *)

Section Lookups.

Lemma fresh_id_above (d : node) (x : nat) : In x (ids d) -> x < fresh_id d.
Proof.
  unfold fresh_id, ids. intros Hin.
  assert (H : Forall (fun k => k <= list_max (map nid (subtree d))) (map nid (subtree d)))
    by now apply list_max_le.
  rewrite Forall_forall in H. specialize (H x Hin). lia.
Qed.

Lemma subtree_kid (n k : node) :
  In k (kids n) -> forall m, In m (subtree k) -> In m (descendants n).
Proof.
  intros Hk m Hm. rewrite descendants_flat. apply in_flat_map. now exists k.
Qed.

Lemma descendants_trans (d n m : node) :
  In n (subtree d) -> In m (descendants n) -> In m (descendants d).
Proof.
  revert n m. induction d as [d IH] using node_tree_ind. intros n m Hn Hm.
  destruct Hn as [-> | Hn]; [assumption|].
  rewrite descendants_flat in Hn. apply in_flat_map in Hn.
  destruct Hn as [k [Hk Hnk]].
  apply (subtree_kid d k Hk). right.
  rewrite Forall_forall in IH. exact (IH k Hk n m Hnk Hm).
Qed.

Lemma subtree_trans (d n m : node) :
  In n (subtree d) -> In m (subtree n) -> In m (subtree d).
Proof.
  intros Hn [<- | Hm]; [assumption|]. right. now apply descendants_trans with n.
Qed.



Lemma find_exists {A} (P : A -> bool) (l : list A) (x : A) :
  In x l -> P x = true -> exists y, find P l = Some y.
Proof.
  induction l as [|a l IH]; simpl; intros Hin HP; [contradiction|].
  destruct (P a) eqn:E; [now exists a|].
  destruct Hin as [-> | Hin]; [congruence | now apply IH].
Qed.




End Lookups.

(** ** One rendering *)

Section Step.

Variables (i p : nat) (m : value) (d : node).

Local Abbreviation ch := (errorDiv (mark i d) m).

Lemma ch_leaf : kids ch = [].
Proof. reflexivity. Qed.

Lemma ch_id : nid ch = fresh_id d.
Proof.
  unfold ch, errorDiv. cbn [nid]. unfold fresh_id.
  change (map nid (subtree (mark i d))) with (ids (mark i d)).
  now rewrite ids_mark.
Qed.

Lemma ch_not_in_page (q : nat) : In q (ids d) -> has_id q ch = false.
Proof.
  intros Hq. unfold has_id. rewrite ch_id. apply Nat.eqb_neq.
  apply fresh_id_above in Hq. lia.
Qed.

Lemma find_subtree_append (P : node -> bool) (n : node) :
  P ch = false -> (forall x, P (appendChild p ch x) = P x) ->
  find P (subtree (appendChild p ch n))
  = option_map (appendChild p ch) (find P (subtree n)).
Proof.
  intros HPch HP.
  now rewrite !find_as_filter, filter_subtree_append, hd_error_map by auto using ch_leaf.
Qed.

Lemma find_subtree_mark (P : node -> bool) (n : node) :
  (forall x, P (mark i x) = P x) ->
  find P (subtree (mark i n)) = option_map (mark i) (find P (subtree n)).
Proof.
  intros HP. now rewrite !find_as_filter, filter_subtree_mark, hd_error_map by auto.
Qed.

Lemma find_node_step (q : nat) :
  has_id q ch = false ->
  find_node q (render_step i p m d)
  = option_map (fun n => appendChild p ch (mark i n)) (find_node q d).
Proof.
  intros Hq. unfold find_node, render_step. fold ch.
  rewrite find_subtree_append by (auto; intros x; apply has_id_append).
  rewrite find_subtree_mark by (intros x; apply has_id_mark).
  destruct (find (has_id q) (subtree d)); reflexivity.
Qed.

Lemma step_top (n : node) :
  nid (appendChild p ch (mark i n)) = nid n
  /\ attrs (appendChild p ch (mark i n)) = attrs n
  /\ has_class feedback_class (appendChild p ch (mark i n)) = has_class feedback_class n
  /\ text (appendChild p ch (mark i n)) = text n.
Proof.
  destruct (append_top p ch (mark i n)) as [H1 [_ [H3 [H4 H5]]]].
  destruct (mark_top i n) as [M1 [_ [M3 [M4 M5]]]].
  repeat split; try congruence.
  unfold has_class in *. rewrite H4. exact M4.
Qed.




Lemma existsb_map {A B} (P : B -> bool) (f : A -> B) (l : list A) :
  existsb P (map f l) = existsb (fun x => P (f x)) l.
Proof. induction l; simpl; [reflexivity | now rewrite IHl]. Qed.

Lemma existsb_same {A} (P Q : A -> bool) (l : list A) :
  (forall x, P x = Q x) -> existsb P l = existsb Q l.
Proof. intros H. induction l; simpl; [reflexivity | now rewrite H, IHl]. Qed.

Lemma is_parent_of_append (j : nat) (x : node) :
  has_id j ch = false ->
  is_parent_of j (appendChild p ch x) = is_parent_of j x.
Proof.
  intros Hj. unfold is_parent_of. rewrite append_kids, existsb_app, existsb_map.
  rewrite (existsb_same _ (has_id j)) by (intros k; apply has_id_append).
  unfold extra_of. destruct (has_id p x); simpl; rewrite ?Hj; now rewrite !orb_false_r.
Qed.

Lemma is_parent_of_mark (j : nat) (x : node) :
  is_parent_of j (mark i x) = is_parent_of j x.
Proof.
  unfold is_parent_of. rewrite mark_kids, app_nil_r, existsb_map.
  apply existsb_same. intros k. apply has_id_mark.
Qed.

(** An element of the page keeps its parent. *)
Lemma parentNode_step (j : nat) :
  In j (ids d) -> parentNode j (render_step i p m d) = parentNode j d.
Proof.
  intros Hj. unfold parentNode, render_step. fold ch.
  change (fun q => existsb (has_id j) (kids q)) with (is_parent_of j).
  rewrite find_subtree_append;
    [ | reflexivity | intros x; apply is_parent_of_append; now apply ch_not_in_page ].
  rewrite find_subtree_mark by (intros x; apply is_parent_of_mark).
  destruct (find (is_parent_of j) (subtree d)) as [n|]; [|reflexivity]. simpl.
  f_equal. apply (proj1 (step_top n)).
Qed.

Lemma parentNode_mark (j : nat) : parentNode j (mark i d) = parentNode j d.
Proof.
  unfold parentNode.
  change (fun q => existsb (has_id j) (kids q)) with (is_parent_of j).
  rewrite find_subtree_mark by (intros x; apply is_parent_of_mark).
  destruct (find (is_parent_of j) (subtree d)) as [n|]; [|reflexivity]. simpl.
  f_equal. apply (proj1 (mark_top i n)).
Qed.



End Step.

(** ** The loop over the fields *)

Section RenderLoop.

Lemma occ_positive (q : nat) (d : node) : In q (ids d) -> 1 <= occ q d.
Proof.
  unfold ids, occ. intros Hin. apply in_map_iff in Hin.
  destruct Hin as [n [Hn Hin]].
  assert (Hf : In n (filter (has_id q) (subtree d))).
  { apply filter_In. split; [assumption|]. unfold has_id. rewrite Hn. apply Nat.eqb_refl. }
  destruct (filter (has_id q) (subtree d)); [contradiction | simpl; lia].
Qed.


Lemma find_node_in (q : nat) (d n : node) :
  find_node q d = Some n -> In q (ids d) /\ nid n = q /\ In n (subtree d).
Proof.
  unfold find_node. intros H. apply find_some in H. destruct H as [Hin Hq].
  unfold has_id in Hq. apply Nat.eqb_eq in Hq.
  repeat split; try assumption. unfold ids. rewrite <- Hq. now apply in_map.
Qed.

Lemma in_find_node (q : nat) (d : node) :
  In q (ids d) -> exists n, find_node q d = Some n.
Proof.
  unfold ids, find_node. intros Hin. apply in_map_iff in Hin.
  destruct Hin as [n [Hn Hin]].
  apply (find_exists (has_id q) (subtree d) n Hin).
  unfold has_id. rewrite Hn. apply Nat.eqb_refl.
Qed.


Lemma displayValidationError_200 (i p : nat) (m : value) (s : state) :
  parentNode i (page s) = Some p ->
  querySelector (ByClass feedback_class) p (page s) = None ->
  V200.displayValidationError (Some i) m s
  = (Done tt,
     State (render_step i p m (page s))
           (trace s ++ [InlineError i (innerText_of m)])
           (timers s) (next_timer s) (swal s) (deferred s)).
Proof.
  intros Hp Hq. unfold V200.displayValidationError, bind, get_page, ret.
  rewrite Hp. change (ByClass "invalid-feedback") with (ByClass feedback_class).
  rewrite Hq. cbn [modify_page page].
  change (update_node i (add_class "is-invalid") (page s)) with (mark i (page s)).
  rewrite parentNode_mark, Hp. reflexivity.
Qed.

Variables (i p : nat) (m : value) (d : node) (c : nat).
Hypothesis c_in_page : In c (ids d).











End RenderLoop.

Section RenderAll.

Variables (settings : obj) (c : nat).
Hypothesis container_is_c : field settings "container" = VElem c.






End RenderAll.

(** ** C3: the inline messages of a 422 *)




(** The same response through [easyAjax], on the form with wrappers: two
    messages, in the order of the page. *)
Example wrapped_form_gets_both_messages :
  map text (feedback (page (snd (V200.easyAjax post_options
                                   (Responds (json_response 422 errors_422))
                                   (start page_wrapped)))))
  = ["Email is required"; "Name is required"].
Proof. reflexivity. Qed.

(** Release 1.2.8 never reaches its own rendering: the error it builds for
    a 422 has no [status], so the generic toast is shown and no field is
    annotated. *)
Example v128_shows_generic_toast_on_422 :
  let final := snd (V128.easyAjax post_options
                      (Responds (json_response 422 errors_422)) (start page_wrapped)) in
  feedback (page final) = []
  /\ In (ToastrError (VStr "An error occurred. Please try again.")) (trace final).
Proof. split; [reflexivity|]. vm_compute. do 5 right. now left. Qed.

(** ** Settings that are never read *)

Section Related.

Lemma agree_refl (a : obj) : agree a a.
Proof. intros k _. reflexivity. Qed.

Lemma alike_refl (s : state) : alike s s.
Proof.
  repeat split.
  induction (deferred s) as [|x l IH]; constructor; auto using agree_refl.
Qed.

Lemma related_ret {A} (RA : A -> A -> Prop) (a a' : A) :
  RA a a' -> related RA (ret a) (ret a').
Proof. intros H s s' Hs. simpl. auto. Qed.

Lemma related_raise {A} (RA : A -> A -> Prop) (e : exn) :
  related RA (raise e) (raise e).
Proof. intros s s' Hs. simpl. auto. Qed.

Lemma related_bind {A B} (RA : A -> A -> Prop) (RB : B -> B -> Prop)
    (m m' : M A) (k k' : A -> M B) :
  related RA m m' ->
  (forall a a', RA a a' -> related RB (k a) (k' a')) ->
  related RB (bind m k) (bind m' k').
Proof.
  intros Hm Hk s s' Hs. unfold bind. specialize (Hm s s' Hs).
  destruct (m s) as [[a|e] t], (m' s') as [[a'|e'] t']; try contradiction.
  - destruct Hm as [Ha Ht]. now apply Hk.
  - exact Hm.
Qed.

Lemma related_try_catch {A} (RA : A -> A -> Prop) (m m' : M A) (h h' : exn -> M A) :
  related RA m m' ->
  (forall e, related RA (h e) (h' e)) ->
  related RA (try_catch m h) (try_catch m' h').
Proof.
  intros Hm Hh s s' Hs. unfold try_catch. specialize (Hm s s' Hs).
  destruct (m s) as [[a|e] t], (m' s') as [[a'|e'] t']; try contradiction.
  - exact Hm.
  - destruct Hm as [<- Ht]. now apply Hh.
Qed.

Lemma related_finally {A} (RA : A -> A -> Prop) (m m' : M A) (k k' : M unit) :
  related RA m m' -> related eq k k' ->
  related RA (finally m k) (finally m' k').
Proof.
  intros Hm Hk s s' Hs. unfold finally. specialize (Hm s s' Hs).
  destruct (m s) as [[a|e] t], (m' s') as [[a'|e'] t']; try contradiction;
    destruct Hm as [Hr Ht]; specialize (Hk t t' Ht);
    destruct (k t) as [[u|e1] t1], (k' t') as [[u'|e1'] t1']; try contradiction;
    destruct Hk as [Hu Ht1]; auto.
Qed.

Lemma related_when (b : bool) (m m' : M unit) :
  related eq m m' -> related eq (when b m) (when b m').
Proof. destruct b; simpl; [auto | intros _; now apply related_ret]. Qed.

Lemma related_for_each {A} (l : list A) (f f' : A -> M unit) :
  (forall x, related eq (f x) (f' x)) ->
  related eq (for_each l f) (for_each l f').
Proof.
  intros H. induction l as [|x l IH]; simpl; [now apply related_ret|].
  apply related_bind with (RA := eq); [apply H | intros; exact IH].
Qed.

(** A step that neither reads nor writes the continuations. *)
Lemma related_step {A} (v : state -> outcome A) (u : state -> state) :
  (forall s s', alike s s' -> v s = v s' /\ alike (u s) (u s')) ->
  related eq (fun s => (v s, u s)) (fun s => (v s, u s)).
Proof.
  intros H s s' Hs. destruct (H s s' Hs) as [Hv Hu]. rewrite Hv.
  destruct (v s'); auto.
Qed.

Lemma related_emit (e : event) : related eq (emit e) (emit e).
Proof.
  apply (related_step (fun _ => Done tt)). intros s s' (Hp & Ht & Htm & Hn & Hsw & Hd).
  unfold alike; simpl. rewrite Ht. auto 10.
Qed.

Lemma related_get_page : related eq get_page get_page.
Proof.
  apply (related_step (fun s => Done (page s)) (fun s => s)).
  intros s s' Hs. split; [|assumption]. destruct Hs as [-> _]. reflexivity.
Qed.

Lemma related_get_swal : related eq get_swal get_swal.
Proof.
  apply (related_step (fun s => Done (swal s)) (fun s => s)).
  intros s s' Hs. split; [|assumption].
  destruct Hs as (_ & _ & _ & _ & -> & _). reflexivity.
Qed.

Lemma related_modify_page (f : node -> node) :
  related eq (modify_page f) (modify_page f).
Proof.
  apply (related_step (fun _ => Done tt)). intros s s' (Hp & Ht & Htm & Hn & Hsw & Hd).
  unfold alike; simpl. rewrite Hp. auto 10.
Qed.

Lemma related_setTimeout (ms : value) : related eq (setTimeout ms) (setTimeout ms).
Proof.
  apply (related_step (fun s => Done (next_timer s))).
  intros s s' (Hp & Ht & Htm & Hn & Hsw & Hd).
  unfold alike; simpl. rewrite Ht, Htm, Hn. auto 10.
Qed.

Lemma related_clearTimeout (id : nat) : related eq (clearTimeout id) (clearTimeout id).
Proof.
  apply (related_step (fun _ => Done tt)). intros s s' (Hp & Ht & Htm & Hn & Hsw & Hd).
  unfold alike; simpl. rewrite Ht, Htm. auto 10.
Qed.

Lemma related_timer_fires (id : nat) : related eq (timer_fires id) (timer_fires id).
Proof.
  apply (related_step (fun _ => Done tt)). intros s s' (Hp & Ht & Htm & Hn & Hsw & Hd).
  unfold alike; simpl. rewrite Ht, Htm. auto 10.
Qed.

Lemma related_defer (r : response) (a b : obj) :
  agree a b -> related eq (defer r a) (defer r b).
Proof.
  intros Hab s s' (Hp & Ht & Htm & Hn & Hsw & Hd). simpl. split; [reflexivity|].
  unfold alike; simpl. repeat split; try assumption.
  apply Forall2_app; [assumption|]. constructor; [|constructor]. auto.
Qed.

Lemma related_run_deferred (job job' : response -> obj -> M unit) :
  (forall r a b, agree a b -> related eq (job r a) (job' r b)) ->
  related eq (run_deferred job) (run_deferred job').
Proof.
  intros Hjob s s' (Hp & Ht & Htm & Hn & Hsw & Hd). unfold run_deferred.
  assert (Hs0 : alike (State (page s) (trace s) (timers s) (next_timer s) (swal s) [])
                      (State (page s') (trace s') (timers s') (next_timer s') (swal s') [])).
  { unfold alike; simpl. auto 10. }
  revert Hs0.
  generalize (State (page s) (trace s) (timers s) (next_timer s) (swal s) []).
  generalize (State (page s') (trace s') (timers s') (next_timer s') (swal s') []).
  induction Hd as [|[r a] [r' b] l l' [Hr Hab] _ IH]; intros t' t Ht0.
  - simpl. auto.
  - simpl in Hr. subst r'. cbn [for_each fst snd]. unfold bind.
    specialize (Hjob r a b Hab t t' Ht0).
    destruct (job r a t) as [[u|e] t1], (job' r b t') as [[u'|e'] t1'];
      try contradiction.
    + destruct Hjob as [_ Ht1]. now apply IH.
    + exact Hjob.
Qed.

End Related.

(** One step of a proof that two computations which differ only in the
    settings they were given are related. *)
Ltac related_step :=
  match goal with
  | |- related _ (bind _ _) (bind _ _) =>
      eapply related_bind with (RA := eq); [ | intros ? ? <- ]
  | |- related _ (ret _) (ret _) => apply related_ret; reflexivity
  | |- related _ (raise _) (raise _) => apply related_raise
  | |- related _ (emit _) (emit _) => apply related_emit
  | |- related _ (when _ _) (when _ _) => apply related_when
  | |- related _ (for_each _ _) (for_each _ _) => apply related_for_each; intros
  | |- related _ (try_catch _ _) (try_catch _ _) => apply related_try_catch; [ | intros ]
  | |- related _ (detached _) (detached _) => apply related_try_catch; [ | intros ]
  | |- related _ (finally _ _) (finally _ _) => apply related_finally
  | |- related _ get_page get_page => apply related_get_page
  | |- related _ get_swal get_swal => apply related_get_swal
  | |- related _ (modify_page _) (modify_page _) => apply related_modify_page
  | |- related _ (setTimeout _) (setTimeout _) => apply related_setTimeout
  | |- related _ (clearTimeout _) (clearTimeout _) => apply related_clearTimeout
  | |- related _ (timer_fires _) (timer_fires _) => apply related_timer_fires
  | |- related _ (defer _ _) (defer _ _) => apply related_defer; assumption
  | |- related _ (css _) (css _) => unfold css
  | |- related _ (get_prop _ _) (get_prop _ _) => unfold get_prop
  | |- related _ (query _ _) (query _ _) => unfold query
  | |- related _ (queryAll _ _) (queryAll _ _) => unfold queryAll
  | |- related _ (match ?x with _ => _ end) (match ?x with _ => _ end) => destruct x
  | |- related _ (if ?c then _ else _) (if ?c then _ else _) => destruct c
  end.

(** Reading a setting other than those of the alert dialog gives the same
    value in both settings objects. *)
Ltac same_fields H :=
  repeat match goal with
         | |- context [field ?a ?k] =>
             lazymatch type of H with
             | agree a _ => rewrite (H k eq_refl)
             end
         end.

Section RelatedHelpers.

Lemma related_toggle (a b : obj) (selector : value) (isLoading : bool) :
  agree a b ->
  related eq (toggleButtonLoading selector isLoading a)
             (toggleButtonLoading selector isLoading b).
Proof.
  intros Hab. unfold toggleButtonLoading. same_fields Hab. repeat related_step.
Qed.

Lemma related_defaultBeforeSend (a b : obj) :
  agree a b -> related eq (defaultBeforeSend a) (defaultBeforeSend b).
Proof.
  intros Hab. unfold defaultBeforeSend. same_fields Hab.
  destruct (_ && _); [now apply related_toggle | now apply related_ret].
Qed.

Lemma related_call (a b : obj) (f : value) (args : list arg) :
  agree a b -> related eq (call a f args) (call b f args).
Proof.
  intros Hab. unfold call.
  destruct f as [| | | | | | | |[name throws|]]; try apply related_raise.
  - repeat related_step.
  - destruct args as [|[[]| |] args]; try (now apply related_ret).
    + apply related_defaultBeforeSend, agree_refl.
    + now apply related_defaultBeforeSend.
Qed.

Lemma related_validateResponse (r : response) :
  related eq (validateResponse r) (validateResponse r).
Proof. unfold validateResponse. repeat related_step. Qed.

Lemma related_processContentType (r : response) :
  related eq (processContentType r) (processContentType r).
Proof. unfold processContentType. repeat related_step. Qed.

Lemma related_clearValidationErrors (container : value) :
  related eq (clearValidationErrors container) (clearValidationErrors container).
Proof. unfold clearValidationErrors. repeat related_step. Qed.

Lemma related_handleSuccess (a b : obj) (data : value) :
  agree a b -> related eq (handleSuccess data a) (handleSuccess data b).
Proof.
  intros Hab. unfold handleSuccess. same_fields Hab.
  repeat first [ apply related_clearValidationErrors | related_step ].
Qed.

Lemma related_processResponse (a b : obj) (data : value) :
  agree a b -> related eq (processResponse data a) (processResponse data b).
Proof.
  intros Hab. unfold processResponse. same_fields Hab.
  repeat first
    [ apply related_handleSuccess; assumption
    | apply related_call; assumption
    | related_step ].
Qed.

Lemma related_createFormData (a b : obj) :
  agree a b -> related eq (createFormData a) (createFormData b).
Proof. intros Hab. unfold createFormData. same_fields Hab. repeat related_step. Qed.

Lemma related_requestOptions (a b : obj) (csrfToken : value) :
  agree a b -> related eq (requestOptions a csrfToken) (requestOptions b csrfToken).
Proof.
  intros Hab. unfold requestOptions, upper_type, csrf_header. same_fields Hab.
  repeat first [ apply related_createFormData; assumption | related_step ].
Qed.

Lemma related_run_beforeSend (a b : obj) :
  agree a b -> related eq (run_beforeSend a) (run_beforeSend b).
Proof.
  intros Hab. unfold run_beforeSend. same_fields Hab.
  destruct (field b "beforeSend");
    first [ now apply related_defaultBeforeSend | now apply related_call ].
Qed.

Lemma related_completion (a b : obj) (tid : nat) :
  agree a b -> related eq (completion a tid) (completion b tid).
Proof.
  intros Hab. unfold completion. same_fields Hab.
  repeat first
    [ apply related_toggle; assumption
    | apply related_call; assumption
    | related_step ].
Qed.

Lemma related_fetch (url : value) (req : request) (tid : nat) (net : network) :
  related eq (fetch url req tid net) (fetch url req tid net).
Proof. unfold fetch. repeat related_step. Qed.

Lemma related_display_200 (input : option nat) (message : value) :
  related eq (V200.displayValidationError input message)
             (V200.displayValidationError input message).
Proof. unfold V200.displayValidationError. repeat related_step. Qed.

Lemma related_display_128 (input : option nat) (message : value) :
  related eq (V128.displayValidationError input message)
             (V128.displayValidationError input message).
Proof. unfold V128.displayValidationError. repeat related_step. Qed.

Lemma related_job_200 (r : response) (a b : obj) :
  agree a b -> related eq (V200.validation_job r a) (V200.validation_job r b).
Proof.
  intros Hab. unfold V200.validation_job, V200.render_errors, V200.render_field.
  same_fields Hab.
  repeat first [ apply related_display_200 | related_step ].
Qed.

Lemma related_job_128 (r : response) (a b : obj) :
  agree a b -> related eq (V128.validation_job r a) (V128.validation_job r b).
Proof.
  intros Hab. unfold V128.validation_job. same_fields Hab.
  repeat first [ apply related_display_128 | related_step ].
Qed.

Lemma related_handleError_200 (a b : obj) (error : exn) :
  agree a b -> related eq (V200.handleError error a) (V200.handleError error b).
Proof. intros Hab. unfold V200.handleError. repeat related_step. Qed.

Lemma related_handleError_128 (a b : obj) (error : exn) :
  agree a b -> related eq (V128.handleError error a) (V128.handleError error b).
Proof.
  intros Hab. unfold V128.handleError. same_fields Hab.
  repeat first [ apply related_call; assumption | related_step ].
Qed.

Lemma related_chain_200 (a b : obj) (req : request) (tid : nat) (net : network) :
  agree a b -> related eq (V200.chain a req tid net) (V200.chain b req tid net).
Proof.
  intros Hab. unfold V200.chain, V200.then_steps. same_fields Hab.
  apply related_finally; [|now apply related_completion].
  apply related_try_catch; [|intros; now apply related_handleError_200].
  repeat first
    [ apply related_fetch | apply related_validateResponse
    | apply related_processContentType
    | apply related_processResponse; assumption
    | related_step ].
Qed.

Lemma related_chain_128 (a b : obj) (req : request) (tid : nat) (net : network) :
  agree a b -> related eq (V128.chain a req tid net) (V128.chain b req tid net).
Proof.
  intros Hab. unfold V128.chain, V128.then_steps. same_fields Hab.
  apply related_finally; [|now apply related_completion].
  apply related_try_catch; [|intros; now apply related_handleError_128].
  repeat first
    [ apply related_fetch | apply related_validateResponse
    | apply related_processContentType
    | apply related_processResponse; assumption
    | related_step ].
Qed.

End RelatedHelpers.

Section RelatedRuns.

Lemma agree_resolve (doc : node) (options options' : obj) :
  wf_obj options -> wf_obj options' -> same_but_swal options options' ->
  agree (resolve doc options) (resolve doc options').
Proof.
  intros Hwf Hwf' Hsame.
  assert (Hmerge : forall k, swal_key k = false ->
            obj_get k (merge doc options) = obj_get k (merge doc options')).
  { intros k Hk. unfold merge.
    rewrite (obj_get_assign k options Hwf), (obj_get_assign k options' Hwf').
    now rewrite (Hsame k Hk). }
  intros k Hk. unfold field, resolve.
  destruct (String.eqb_spec "beforeSend" k) as [<- | Hne].
  - rewrite !obj_get_set_same. unfold field.
    now rewrite (Hmerge "beforeSend" eq_refl).
  - rewrite !obj_get_set_other by assumption. now rewrite (Hmerge k Hk).
Qed.

Lemma related_read_csrfToken : related eq read_csrfToken read_csrfToken.
Proof. unfold read_csrfToken. repeat related_step. Qed.

Lemma related_prepare (options options' : obj) :
  wf_obj options -> wf_obj options' -> same_but_swal options options' ->
  related prepared_alike (prepare options) (prepare options').
Proof.
  intros Hwf Hwf' Hsame. unfold prepare.
  apply related_bind with (RA := eq); [apply related_get_page|].
  intros doc ? <-. cbv zeta.
  pose proof (agree_resolve doc options options' Hwf Hwf' Hsame) as Hab.
  set (a := resolve doc options) in *. set (b := resolve doc options') in *.
  same_fields Hab.
  apply related_bind with (RA := eq); [apply related_clearValidationErrors|].
  intros _ _ _.
  apply related_bind with (RA := eq); [apply related_read_csrfToken|].
  intros tok ? <-.
  apply related_bind with (RA := eq); [now apply related_requestOptions|].
  intros rq ? <-.
  apply related_bind with (RA := eq); [now apply related_run_beforeSend|].
  intros _ _ _.
  apply related_bind with (RA := eq); [apply related_setTimeout|].
  intros tid ? <-.
  apply related_ret. repeat split. exact Hab.
Qed.

Lemma related_easyAjax_200 (options options' : obj) (net : network) :
  wf_obj options -> wf_obj options' -> same_but_swal options options' ->
  related eq (V200.easyAjax options net) (V200.easyAjax options' net).
Proof.
  intros Hwf Hwf' Hsame. unfold V200.easyAjax.
  apply related_bind with (RA := prepared_alike); [now apply related_prepare|].
  intros [[a rq] tid] [[b rq'] tid'] (Hab & Hrq & Htid).
  simpl in Hab, Hrq, Htid. subst rq' tid'.
  apply related_bind with (RA := eq).
  - apply related_try_catch; [now apply related_chain_200|].
    intros e. apply related_emit.
  - intros _ _ _. apply related_run_deferred. intros r x y Hxy.
    now apply related_job_200.
Qed.

Lemma related_easyAjax_128 (options options' : obj) (net : network) :
  wf_obj options -> wf_obj options' -> same_but_swal options options' ->
  related eq (V128.easyAjax options net) (V128.easyAjax options' net).
Proof.
  intros Hwf Hwf' Hsame. unfold V128.easyAjax.
  apply related_bind with (RA := prepared_alike); [now apply related_prepare|].
  intros [[a rq] tid] [[b rq'] tid'] (Hab & Hrq & Htid).
  simpl in Hab, Hrq, Htid. subst rq' tid'.
  apply related_bind with (RA := eq).
  - apply related_try_catch; [now apply related_chain_128|].
    intros e. apply related_emit.
  - intros _ _ _. apply related_run_deferred. intros r x y Hxy.
    now apply related_job_128.
Qed.

(** Related runs from the same state end with the same outcome and look
    the same from outside. *)
Lemma related_observable (m m' : M unit) (s : state) :
  related eq m m' ->
  fst (m s) = fst (m' s) /\ observable (snd (m s)) = observable (snd (m' s)).
Proof.
  intros H. specialize (H s s (alike_refl s)).
  destruct (m s) as [[u|e] t], (m' s) as [[u'|e'] t']; try contradiction;
    destruct H as [Hr (Hp & Ht & Htm & _)]; simpl;
    unfold observable; rewrite Hp, Ht, Htm; subst; split; reflexivity.
Qed.

End RelatedRuns.

(** ** C10: the alert dialog *)

(** C10: whatever the options, the page and the way the request settles,
    neither release of [easyAjax] adds a [Swal.fire] to the trace, although
    [showSwalMsg] is true by default; and two calls whose options differ at
    most in [showSwalMsg] and [swalOptions] have the same outcome, the same
    trace, and leave the same page and timers.  The function that reads
    the two settings, [handleFailure], does fire when it is called
    directly. *)
Theorem C10_never_fires_swal (options : obj) (net : network) (s : state) :
  (exists l, trace (snd (V200.easyAjax options net s)) = trace s ++ l
             /\ Forall not_swal l)
  /\ (exists l, trace (snd (V128.easyAjax options net s)) = trace s ++ l
                /\ Forall not_swal l)
  /\ (forall options',
        wf_obj options -> wf_obj options' -> same_but_swal options options' ->
        (fst (V200.easyAjax options net s) = fst (V200.easyAjax options' net s)
         /\ observable (snd (V200.easyAjax options net s))
            = observable (snd (V200.easyAjax options' net s)))
        /\ (fst (V128.easyAjax options net s) = fst (V128.easyAjax options' net s)
            /\ observable (snd (V128.easyAjax options net s))
               = observable (snd (V128.easyAjax options' net s))))
  /\ trace (snd (handleFailure (VObj [("message", VStr "No")])
                   (resolve page_flat []) (VStr "error") (start page_flat)))
     = [ ToastrError (VStr "No");
         SwalFire [("text", VStr "No"); ("icon", VStr "error")] ].
Proof.
  split; [|split; [|split]].
  - apply (emits_easyAjax_200 (P := not_swal)); intros; exact I.
  - apply (emits_easyAjax_128 (P := not_swal)); intros; exact I.
  - intros options' Hwf Hwf' Hsame. split.
    + apply related_observable. now apply related_easyAjax_200.
    + apply related_observable. now apply related_easyAjax_128.
  - reflexivity.
Qed.

Lemma C10_never_fires_swal_witness :
  fst (V200.easyAjax post_options (Responds server_error) (start page_flat))
  = fst (V200.easyAjax (post_options ++ swal_options) (Responds server_error)
           (start page_flat))
  /\ observable (snd (V200.easyAjax post_options (Responds server_error)
                        (start page_flat)))
     = observable (snd (V200.easyAjax (post_options ++ swal_options)
                          (Responds server_error) (start page_flat))).
Proof.
  refine (proj1 (proj1 (proj2 (proj2
            (C10_never_fires_swal post_options (Responds server_error)
               (start page_flat))))
            (post_options ++ swal_options) _ _ _)).
  - unfold wf_obj. simpl. repeat (constructor; [simpl; intuition discriminate|]).
    constructor.
  - unfold wf_obj. simpl. repeat (constructor; [simpl; intuition discriminate|]).
    constructor.
  - intros k Hk. unfold swal_key in Hk. apply orb_false_elim in Hk.
    destruct Hk as [H1 H2]. rewrite String.eqb_sym in H1, H2.
    unfold post_options, swal_options. cbn [app obj_get].
    destruct ("type" =? k); [reflexivity|].
    destruct ("url" =? k); [reflexivity|]. now rewrite H1, H2.
Defined.

(** * Further properties of the code *)

Lemma bind_done {A B} (m : M A) (k : A -> M B) (s : state) (a : A) (s1 : state) :
  m s = (Done a, s1) -> bind m k s = k a s1.
Proof. intros H. unfold bind. now rewrite H. Qed.

Lemma bind_raised {A B} (m : M A) (k : A -> M B) (s : state) (e : exn) (s1 : state) :
  m s = (Raised e, s1) -> bind m k s = (Raised e, s1).
Proof. intros H. unfold bind. now rewrite H. Qed.

(** ** One request for each call *)

Section Leads.

Context {P : event -> Prop}.

Lemma leads_emit {B} (ev : event) (k : unit -> M B) :
  emits P (k tt) -> leads P ev (bind (emit ev) k).
Proof.
  intros Hk s. unfold bind, emit.
  destruct (Hk (State (page s) (trace s ++ [ev]) (timers s) (next_timer s)
                      (swal s) (deferred s))) as [l [Hl HP]].
  exists l. split; [|exact HP].
  rewrite Hl. cbn [trace]. now rewrite <- app_assoc.
Qed.

Lemma leads_bind {A B} (ev : event) (m : M A) (k : A -> M B) :
  leads P ev m -> (forall a, emits P (k a)) -> leads P ev (bind m k).
Proof.
  intros Hm Hk s. unfold bind.
  destruct (Hm s) as [l [Hl HP]].
  destruct (m s) as [[a|e] s1]; cbn [snd] in *.
  - destruct (Hk a s1) as [l' [Hl' HP']].
    exists (l ++ l'). split.
    + rewrite Hl', Hl, <- app_assoc. reflexivity.
    + apply Forall_app. now split.
  - now exists l.
Qed.

Lemma leads_try_catch {A} (ev : event) (m : M A) (h : exn -> M A) :
  leads P ev m -> (forall e, emits P (h e)) -> leads P ev (try_catch m h).
Proof.
  intros Hm Hh s. unfold try_catch.
  destruct (Hm s) as [l [Hl HP]].
  destruct (m s) as [[a|e] s1]; cbn [snd] in *.
  - now exists l.
  - destruct (Hh e s1) as [l' [Hl' HP']].
    exists (l ++ l'). split.
    + rewrite Hl', Hl, <- app_assoc. reflexivity.
    + apply Forall_app. now split.
Qed.

Lemma leads_finally {A} (ev : event) (m : M A) (k : M unit) :
  leads P ev m -> emits P k -> leads P ev (finally m k).
Proof.
  intros Hm Hk s. rewrite finally_snd.
  destruct (Hm s) as [l [Hl HP]].
  destruct (Hk (snd (m s))) as [l' [Hl' HP']].
  exists (l ++ l'). split.
  - rewrite Hl', Hl, <- app_assoc. reflexivity.
  - apply Forall_app. now split.
Qed.

End Leads.

Lemma leads_fetch (url : value) (req : request) (tid : nat) (net : network) :
  leads not_fetch (Fetch url (method req) (headers req) (rbody req))
        (fetch url req tid net).
Proof.
  unfold fetch. apply leads_emit. destruct net; emits_auto.
Qed.

Lemma not_fetch_prepare (options : obj) : emits not_fetch (prepare options).
Proof. apply emits_prepare; intros; exact I. Qed.

Lemma not_fetch_completion (settings : obj) (tid : nat) :
  emits not_fetch (completion settings tid).
Proof. apply emits_completion; intros; exact I. Qed.

Lemma leads_chain_200 (settings : obj) (req : request) (tid : nat) (net : network) :
  leads not_fetch (Fetch (field settings "url") (method req) (headers req) (rbody req))
        (detached (V200.chain settings req tid net) ;;; run_deferred V200.validation_job).
Proof.
  apply leads_bind;
    [|intros; apply emits_run_deferred; intros; apply emits_job_200; intros; exact I].
  apply leads_try_catch; [|intros; emits_auto].
  apply leads_finally; [|apply not_fetch_completion].
  apply leads_try_catch;
    [|intros; apply emits_handleError_200; intros; exact I].
  unfold V200.then_steps.
  apply leads_bind; [apply leads_fetch|]. intros r.
  apply emits_bind; [destruct (negb (ok r)); emits_auto|]. intros r1.
  apply emits_bind; [apply emits_validateResponse; intros; exact I|]. intros r2.
  apply emits_bind; [apply emits_processContentType; intros; exact I|]. intros data.
  apply emits_processResponse; intros; exact I.
Qed.

Lemma leads_chain_128 (settings : obj) (req : request) (tid : nat) (net : network) :
  leads not_fetch (Fetch (field settings "url") (method req) (headers req) (rbody req))
        (detached (V128.chain settings req tid net) ;;; run_deferred V128.validation_job).
Proof.
  apply leads_bind;
    [|intros; apply emits_run_deferred; intros; apply emits_job_128; intros; exact I].
  apply leads_try_catch; [|intros; emits_auto].
  apply leads_finally; [|apply not_fetch_completion].
  apply leads_try_catch;
    [|intros; apply emits_handleError_128; intros; exact I].
  unfold V128.then_steps.
  apply leads_bind; [apply leads_fetch|]. intros r.
  apply emits_bind; [apply emits_validateResponse; intros; exact I|]. intros r2.
  apply emits_bind; [apply emits_processContentType; intros; exact I|]. intros data.
  apply emits_processResponse; intros; exact I.
Qed.

(** X1: a call of [easyAjax] sends one request or none.  When the
    preparation returns, what the call adds to the trace holds the request
    that [requestOptions] built, to [settings.url], exactly once, whatever
    the network does and whatever the callbacks do; when the preparation
    raises, the call raises the same exception and no request is sent.  The
    same holds for both releases. *)
Theorem X1_one_request_per_call (options : obj) (net : network) (s : state) :
  match prepare options s with
  | (Done (settings, req, tid), s1) =>
      let sent := Fetch (field settings "url") (method req) (headers req) (rbody req) in
      one_request sent s (snd (V200.easyAjax options net s))
      /\ one_request sent s (snd (V128.easyAjax options net s))
  | (Raised e, s1) =>
      V200.easyAjax options net s = (Raised e, s1)
      /\ V128.easyAjax options net s = (Raised e, s1)
      /\ no_request s s1
  end.
Proof.
  destruct (not_fetch_prepare options s) as [l0 [Hl0 HP0]].
  unfold V200.easyAjax, V128.easyAjax.
  destruct (prepare options s) as [[[[settings req] tid]|e] s1] eqn:Hp;
    cbn [snd] in Hl0.
  - rewrite !(bind_done _ _ _ _ _ Hp). cbv zeta. split.
    + destruct (leads_chain_200 settings req tid net s1) as [l [Hl HP]].
      exists l0, l. rewrite Hl, Hl0, <- app_assoc. auto.
    + destruct (leads_chain_128 settings req tid net s1) as [l [Hl HP]].
      exists l0, l. rewrite Hl, Hl0, <- app_assoc. auto.
  - rewrite !(bind_raised _ _ _ _ _ Hp).
    split; [reflexivity|]. split; [reflexivity|]. now exists l0.
Qed.
(** ** The request that is built *)

Lemma obj_get_other_key (k k' : string) (v : value) (o : obj) :
  k <> k' -> obj_get k ((k', v) :: o) = obj_get k o.
Proof.
  intros H. cbn [obj_get].
  destruct (k' =? k) eqn:E; [|reflexivity].
  apply String.eqb_eq in E. congruence.
Qed.

Lemma requestOptions_cases
    (settings : obj) (csrfToken : value) (s : state) (req : request) (s' : state) :
  requestOptions settings csrfToken s = (Done req, s') ->
  s' = s
  /\ method req = field settings "type"
  /\ exists b,
       rbody req = b
       /\ headers req =
            match content_type_of b with
            | Some ct => base_headers settings csrfToken ++ [("Content-Type", ct)]
            | None => base_headers settings csrfToken
            end.
Proof.
  intros H. unfold requestOptions, upper_type in H.
  destruct (field settings "type") as [| | | |t| | | |] eqn:Et;
    try discriminate H.
  unfold bind at 1, ret at 1 in H.
  destruct (negb (toUpperCase t =? "GET") && negb (toUpperCase t =? "HEAD")).
  - destruct (truthy (field settings "file")).
    + unfold createFormData, query in H.
      destruct (field settings "container"); try discriminate H.
      unfold bind, get_page, ret in H.
      destruct (querySelector _ _ _); [|discriminate H].
      destruct (Object_entries _); [|discriminate H].
      injection H as <- <-. repeat split. eexists; split; reflexivity.
    + destruct (field settings "data"); injection H as <- <-;
        repeat split; eexists; split; reflexivity.
  - injection H as <- <-. repeat split. eexists; split; reflexivity.
Qed.

(** X2: whatever [requestOptions] returns, its method is [settings.type]
    as given, it has the header [X-Requested-With: XMLHttpRequest], it has a
    [Content-Type] exactly when the body is a string or JSON (none for a
    request without body and none for a file upload), and it has no header
    other than these two and [X-CSRF-TOKEN]: the other entries of
    [options.headers] are not sent.  Building it changes nothing. *)
Theorem X2_request_headers
    (settings : obj) (csrfToken : value) (s : state) (req : request) (s' : state) :
  requestOptions settings csrfToken s = (Done req, s') ->
  s' = s
  /\ method req = field settings "type"
  /\ obj_get "X-Requested-With" (headers req) = Some (VStr "XMLHttpRequest")
  /\ obj_get "Content-Type" (headers req) = content_type_of (rbody req)
  /\ (forall k, k <> "X-CSRF-TOKEN" -> k <> "X-Requested-With" -> k <> "Content-Type" ->
        obj_get k (headers req) = None).
Proof.
  intros H. destruct (requestOptions_cases _ _ _ _ _ H) as [Hs [Hm [b [Hb Hh]]]].
  split; [exact Hs|]. split; [exact Hm|].
  rewrite Hb, Hh. unfold base_headers.
  split; [destruct (content_type_of b); reflexivity|].
  split; [destruct (content_type_of b); reflexivity|].
  intros k H1 H2 H3.
  destruct (content_type_of b); cbn [app];
    rewrite !obj_get_other_key by congruence; reflexivity.
Qed.

Lemma X2_request_headers_witness :
  let settings :=
    resolve page_flat
      [ ("type", VStr "POST"); ("data", VObj [("a", VNum 1)]);
        ("headers", VObj [("Authorization", VStr "Bearer t"); ("Accept", VStr "text/html")]) ] in
  exists req,
    requestOptions settings (VStr "tok") (start page_flat) = (Done req, start page_flat)
    /\ obj_get "Authorization" (headers req) = None
    /\ obj_get "Content-Type" (headers req) = Some (VStr "application/json").
Proof.
  intros settings.
  exists (Request (VStr "POST")
            [ ("X-CSRF-TOKEN", VStr "tok"); ("X-Requested-With", VStr "XMLHttpRequest");
              ("Content-Type", VStr "application/json") ]
            (JsonBody (VObj [("a", VNum 1)]))).
  assert (E : requestOptions settings (VStr "tok") (start page_flat)
              = (Done (Request (VStr "POST")
                         [ ("X-CSRF-TOKEN", VStr "tok");
                           ("X-Requested-With", VStr "XMLHttpRequest");
                           ("Content-Type", VStr "application/json") ]
                         (JsonBody (VObj [("a", VNum 1)]))), start page_flat))
    by reflexivity.
  split; [exact E|].
  destruct (X2_request_headers _ _ _ _ _ E) as [_ [_ [_ [Hct Hno]]]].
  split; [apply Hno; discriminate | exact Hct].
Defined.

(** X3: a file upload with a method other than GET and HEAD, when the
    container holds a form: the body is the form data of the first form in
    the container, in document order, with the entries of [data] appended;
    the request has the two base headers and no [Content-Type]; when [data]
    is [null] or [undefined] building the request raises a TypeError. *)
Theorem X3_file_upload_body
    (settings : obj) (csrfToken : value) (s : state) (t : string) (c f : nat) :
  field settings "type" = VStr t ->
  toUpperCase t <> "GET" -> toUpperCase t <> "HEAD" ->
  truthy (field settings "file") = true ->
  field settings "container" = VElem c ->
  querySelector (ByTag "form") c (page s) = Some f ->
  requestOptions settings csrfToken s =
    (match Object_entries (field settings "data") with
     | Some extra =>
         Done (Request (VStr t) (base_headers settings csrfToken) (FormBody f extra))
     | None => Raised (TypeError "Object.keys")
     end, s).
Proof.
  intros Ht Hget Hhead Hfile Hc Hform.
  unfold requestOptions, upper_type. rewrite Ht.
  unfold bind at 1, ret at 1.
  apply String.eqb_neq in Hget, Hhead. rewrite Hget, Hhead, Hfile. cbn [negb andb].
  unfold createFormData, query. rewrite Hc.
  unfold bind, get_page, ret. rewrite Hform.
  destruct (Object_entries (field settings "data")); reflexivity.
Qed.

Lemma X3_file_upload_body_witness :
  requestOptions
    (resolve page_flat [("type", VStr "post"); ("file", VBool true);
                        ("data", VObj [("note", VStr "hi")])])
    (VStr "tok") (start page_flat)
  = (Done (Request (VStr "post")
             [("X-CSRF-TOKEN", VStr "tok"); ("X-Requested-With", VStr "XMLHttpRequest")]
             (FormBody 4 [("note", VStr "hi")])), start page_flat).
Proof.
  apply (X3_file_upload_body
           (resolve page_flat [("type", VStr "post"); ("file", VBool true);
                               ("data", VObj [("note", VStr "hi")])])
           (VStr "tok") (start page_flat) "post" 3 4);
    try reflexivity; discriminate.
Defined.

(** X4: when the container of the settings is not an element (it is
    [null], as the default is on a page without a body, or it is a selector
    text), [easyAjax] raises the TypeError of [querySelectorAll] at once, in
    both releases: nothing is sent, no timer is set, no callback is called,
    the page is as it was. *)
Theorem X4_container_must_be_element (options : obj) (net : network) (s : state) :
  is_element (field (resolve (page s) options) "container") = false ->
  V200.easyAjax options net s = (Raised (TypeError "querySelectorAll"), s)
  /\ V128.easyAjax options net s = (Raised (TypeError "querySelectorAll"), s).
Proof.
  intros Hc.
  assert (Hp : prepare options s = (Raised (TypeError "querySelectorAll"), s)).
  { unfold prepare, bind at 1, get_page. unfold bind at 1.
    rewrite clearValidationErrors_other; [reflexivity|].
    intros c E. rewrite E in Hc. discriminate Hc. }
  unfold V200.easyAjax, V128.easyAjax.
  rewrite !(bind_raised _ _ _ _ _ Hp). split; reflexivity.
Qed.

Lemma X4_container_must_be_element_witness :
  V200.easyAjax [("url", VStr "/save"); ("container", VStr "#myForm")]
    (Responds (json_response 200 (VObj []))) (start page_flat)
  = (Raised (TypeError "querySelectorAll"), start page_flat).
Proof.
  apply (X4_container_must_be_element
           [("url", VStr "/save"); ("container", VStr "#myForm")]
           (Responds (json_response 200 (VObj []))) (start page_flat)).
  reflexivity.
Defined.

(** ** Before the request: [beforeSend] and the loading state *)

Lemma field_resolve_beforeSend (doc : node) (options : obj) :
  wf_obj options ->
  field (resolve doc options) "beforeSend" =
    js_or (match obj_get "beforeSend" options with
           | Some v => v
           | None => VUndefined
           end) (VFun DefaultBeforeSend).
Proof.
  intros Hwf. unfold resolve, field at 1.
  rewrite obj_get_set_same. f_equal.
  unfold field, merge. rewrite (obj_get_assign "beforeSend" options Hwf).
  destruct (obj_get "beforeSend" options); reflexivity.
Qed.

(** X5: a [beforeSend] callback of the caller replaces the default: it is
    called once with the settings, the library itself puts no button in the
    loading state, and what the callback throws leaves the preparation.  Any
    other value of [beforeSend], whether absent, falsy or a truthy value
    that is no function, makes [defaultBeforeSend] run. *)
Theorem X5_beforeSend_replaces_default (doc : node) (options : obj) (s : state) :
  wf_obj options ->
  run_beforeSend (resolve doc options) s =
    match obj_get "beforeSend" options with
    | Some (VFun (Callback name throws)) =>
        (if throws then Raised (CallbackThrew name) else Done tt,
         add_trace [Call name [ASettings]] s)
    | _ => defaultBeforeSend (resolve doc options) s
    end.
Proof.
  intros Hwf. unfold run_beforeSend.
  rewrite (field_resolve_beforeSend doc options Hwf).
  destruct (obj_get "beforeSend" options) as [[| |b|n|x|l|o|e|[name throws|]]|];
    try reflexivity.
  - destruct b; reflexivity.
  - unfold js_or. destruct (truthy (VNum n)); reflexivity.
  - unfold js_or. destruct (truthy (VStr x)); reflexivity.
  - unfold js_or, truthy, call, bind, emit, add_trace.
    destruct throws; reflexivity.
Qed.

Lemma X5_beforeSend_replaces_default_witness :
  run_beforeSend
    (resolve page_flat [("beforeSend", VFun (Callback "spinner" false))])
    (start page_flat)
  = (Done tt, add_trace [Call "spinner" [ASettings]] (start page_flat)).
Proof.
  apply (X5_beforeSend_replaces_default page_flat
           [("beforeSend", VFun (Callback "spinner" false))] (start page_flat)).
  repeat constructor; simpl; intuition discriminate.
Defined.

(** X6: [toggleButtonLoading] without a target only warns: when the
    selector is falsy, or when neither the selector nor the container of
    the settings is an element, it writes one warning to the console,
    changes no element and does not raise. *)
Theorem X6_toggle_without_target
    (selector : value) (isLoading : bool) (settings : obj) (s : state) :
  truthy selector = false
  \/ (is_element selector = false /\ is_element (field settings "container") = false) ->
  exists msg,
    toggleButtonLoading selector isLoading settings s
    = (Done tt, add_trace [ConsoleWarn msg] s).
Proof.
  intros H. unfold toggleButtonLoading.
  destruct (truthy selector) eqn:Et; cbn [negb].
  - destruct H as [H | [Hsel Hc]]; [discriminate H|].
    destruct selector; try discriminate Hsel;
      destruct (field settings "container"); try discriminate Hc;
      eexists; reflexivity.
  - eexists; reflexivity.
Qed.

Lemma X6_toggle_without_target_witness :
  exists msg,
    toggleButtonLoading (VStr "") true (resolve page_flat []) (start page_flat)
    = (Done tt, add_trace [ConsoleWarn msg] (start page_flat)).
Proof.
  apply (X6_toggle_without_target (VStr "") true (resolve page_flat []) (start page_flat)).
  left. reflexivity.
Defined.









Lemma update_node_unfold (id : nat) (f : node -> node) (n : node) :
  update_node id f n =
    if has_id id n
    then f (with_kids n (map (update_node id f) (kids n)))
    else with_kids n (map (update_node id f) (kids n)).
Proof. destruct n; reflexivity. Qed.









(** ** The response *)

(** X8: a 2xx response whose content type is neither JSON nor HTML, or
    that has no content type at all.  [processContentType] throws without
    reading the body, so that no success callback is called.  Release 2.0.0
    then shows the toast of a network error; in release 1.2.8 the chain goes
    to the error handler with the error of the content type. *)
Theorem X8_unsupported_content_type
    (r : response) (settings : obj) (req : request) (tid : nat) (s : state) :
  ok r = true ->
  unreadable r ->
  let sent := Fetch (field settings "url") (method req) (headers req) (rbody req) in
  try_catch (V200.then_steps settings req tid (Responds r))
            (fun error => V200.handleError error settings) s
    = (Done tt, add_trace [sent; network_toast] s)
  /\ V200.then_steps settings req tid (Responds r) s
     = (Raised (unreadable_error r), add_trace [sent] s)
  /\ V128.then_steps settings req tid (Responds r) s
     = (Raised (unreadable_error r), add_trace [sent] s).
Proof.
  intros Hok Hun sent.
  assert (H200 : V200.then_steps settings req tid (Responds r) s
                 = (Raised (unreadable_error r), add_trace [sent] s)).
  { unfold V200.then_steps, fetch, validateResponse, processContentType,
      unreadable_error, unreadable in *.
    unfold bind, emit, ret. cbn iota beta. rewrite Hok. cbn [negb].
    rewrite Hok. cbn [negb].
    destruct (contentType r) as [ct|]; [|reflexivity].
    destruct Hun as [Hj Hh]. rewrite Hj, Hh. reflexivity. }
  split; [|split; [exact H200|]].
  - unfold try_catch. rewrite H200.
    unfold V200.handleError, unreadable_error.
    destruct (contentType r); unfold add_trace, emit, network_toast; cbn;
      rewrite <- app_assoc; reflexivity.
  - unfold V128.then_steps, fetch, validateResponse, processContentType,
      unreadable_error, unreadable in *.
    unfold bind, emit, ret. cbn iota beta. rewrite Hok. cbn [negb].
    destruct (contentType r) as [ct|]; [|reflexivity].
    destruct Hun as [Hj Hh]. rewrite Hj, Hh. reflexivity.
Qed.

Lemma X8_unsupported_content_type_witness :
  let r := Response 200 (Some "text/plain") "done" None in
  let req := Request (VStr "GET") [] NoBody in
  try_catch (V200.then_steps [("url", VStr "/ping")] req 0 (Responds r))
            (fun error => V200.handleError error [("url", VStr "/ping")])
            (start page_flat)
  = (Done tt,
     add_trace [Fetch (VStr "/ping") (VStr "GET") [] NoBody; network_toast]
       (start page_flat)).
Proof.
  intros r req.
  apply (X8_unsupported_content_type r [("url", VStr "/ping")] req 0 (start page_flat));
    [reflexivity | split; reflexivity].
Defined.

Lemma emits_ret_bind {A B : Type} (P : event -> Prop) (x : A) (k : A -> M B) :
  emits P (k x) -> emits P (bind (ret x) k).
Proof. intros H s. exact (H s). Qed.

(** X9: a 2xx response whose content type names HTML and not JSON.  The
    body is read as text and handed on as it is, in both releases; for a
    text, [handleSuccess] neither navigates nor shows the success toast,
    whatever the settings are, since a text has neither [url] nor
    [message]. *)
Theorem X9_html_response
    (r : response) (ct : string) (settings : obj) (req : request) (tid : nat) (s : state) :
  ok r = true ->
  contentType r = Some ct ->
  includes ct "application/json" = false ->
  includes ct "text/html" = true ->
  let sent := Fetch (field settings "url") (method req) (headers req) (rbody req) in
  V200.then_steps settings req tid (Responds r) s
    = processResponse (VStr (bodyText r)) settings (add_trace [sent; ReadText r] s)
  /\ V128.then_steps settings req tid (Responds r) s
     = processResponse (VStr (bodyText r)) settings (add_trace [sent; ReadText r] s)
  /\ emits quiet (handleSuccess (VStr (bodyText r)) settings).
Proof.
  intros Hok Hct Hj Hh sent. split; [|split].
  - unfold V200.then_steps, fetch, validateResponse, processContentType.
    do 4 (unfold bind, emit, ret; cbn iota beta;
          rewrite ?Hok, ?Hct, ?Hj, ?Hh; cbn [negb]).
    unfold add_trace. cbn [page trace timers next_timer swal deferred].
    rewrite <- !app_assoc. reflexivity.
  - unfold V128.then_steps, fetch, validateResponse, processContentType.
    do 4 (unfold bind, emit, ret; cbn iota beta;
          rewrite ?Hok, ?Hct, ?Hj, ?Hh; cbn [negb]).
    unfold add_trace. cbn [page trace timers next_timer swal deferred].
    rewrite <- !app_assoc. reflexivity.
  - unfold handleSuccess, get_prop. cbn [prop].
    repeat first
      [ match goal with
        | |- emits _ (bind (ret _) _) => apply emits_ret_bind; cbn [truthy when]
        end
      | apply emits_clearValidationErrors
      | emits_step ].
Qed.

Lemma X9_html_response_witness :
  let r := Response 200 (Some "text/html; charset=utf-8") "<p>ok</p>" None in
  let settings := resolve page_flat [("url", VStr "/frag"); ("success", VFun (Callback "show" false))] in
  let req := Request (VStr "GET") [] NoBody in
  V200.then_steps settings req 0 (Responds r) (start page_flat)
  = (Done tt,
     add_trace [ Fetch (VStr "/frag") (VStr "GET") [] NoBody; ReadText r;
                 Call "show" [AValue (VStr "<p>ok</p>")] ] (start page_flat)).
Proof.
  intros r settings req.
  destruct (X9_html_response r "text/html; charset=utf-8" settings req 0 (start page_flat)
              eq_refl eq_refl eq_refl eq_refl) as [H _].
  rewrite H. reflexivity.
Defined.

(** X10: a 2xx JSON response whose body is falsy, such as [null],
    [false], [0] or an empty text, skips [handleSuccess] altogether: the
    validation messages are not cleared, nothing is shown and the form is
    not reset; the success callbacks are called with the body all the
    same.  This holds in both releases. *)
Theorem X10_falsy_body
    (r : response) (ct : string) (data : value)
    (settings : obj) (req : request) (tid : nat) (s : state) :
  ok r = true ->
  contentType r = Some ct ->
  includes ct "application/json" = true ->
  bodyJson r = Some data ->
  truthy data = false ->
  let sent := Fetch (field settings "url") (method req) (headers req) (rbody req) in
  V200.then_steps settings req tid (Responds r) s
    = success_calls data settings (add_trace [sent; ReadJson r] s)
  /\ V128.then_steps settings req tid (Responds r) s
     = success_calls data settings (add_trace [sent; ReadJson r] s).
Proof.
  intros Hok Hct Hinc Hbody Hfalsy sent.
  destruct (then_steps_decode_json r ct data settings req tid s Hok Hct Hinc Hbody)
    as [H200 H128].
  rewrite H200, H128. unfold processResponse, success_calls.
  rewrite Hfalsy. split; reflexivity.
Qed.

Lemma X10_falsy_body_witness :
  let settings := resolve page_flat [("url", VStr "/save");
                                     ("success", VFun (Callback "onSuccess" false));
                                     ("formReset", VBool true)] in
  let req := Request (VStr "GET") [] NoBody in
  V200.then_steps settings req 0 (Responds (json_response 200 VNull)) (start page_flat)
  = (Done tt,
     add_trace [ Fetch (VStr "/save") (VStr "GET") [] NoBody;
                 ReadJson (json_response 200 VNull);
                 Call "onSuccess" [AValue VNull] ] (start page_flat)).
Proof.
  intros settings req.
  destruct (X10_falsy_body (json_response 200 VNull) "application/json" VNull
              settings req 0 (start page_flat) eq_refl eq_refl eq_refl eq_refl eq_refl)
    as [H _].
  rewrite H. reflexivity.
Defined.

(** X11: what [handleSuccess] does with an object body when the
    container is an element and, if the form is to be reset, holds a form.
    The validation messages and marks of the container are cleared; then
    come, in this order, the navigation to [url] if [redirect] is set and
    the body has a truthy [url], the reset of the first form of the
    container if [formReset] is set, and the success toast with [message]
    if [showToastrMsg] is set and the body has a truthy [message].  The
    navigation does not stop the rest. *)
Theorem X11_success_effects (o settings : obj) (s : state) (c : nat) :
  field settings "container" = VElem c ->
  let form := querySelector (ByTag "form") c (cleared c (page s)) in
  (truthy (field settings "formReset") = true -> form <> None) ->
  handleSuccess (VObj o) settings s =
    (Done tt,
     State (cleared c (page s)) (trace s ++ success_effects o settings form)
           (timers s) (next_timer s) (swal s) (deferred s)).
Proof.
  intros Hc form Hform. subst form. unfold handleSuccess, success_effects, only_if.
  rewrite Hc. cbn [truthy when].
  unfold bind at 1. rewrite clearValidationErrors_element.
  unfold get_prop, query. cbn [prop].
  destruct (querySelector (ByTag "form") c (cleared c (page s))) as [f|] eqn:Ef.
  - unfold when. unfold with_page, bind, ret, emit, get_page.
    destruct (truthy (field settings "redirect"));
      destruct (truthy (field o "url"));
      destruct (truthy (field settings "showToastrMsg"));
      destruct (truthy (field o "message"));
      destruct (truthy (field settings "formReset"));
      cbn [andb page trace timers next_timer swal deferred app];
      rewrite ?Ef;
      cbn [andb page trace timers next_timer swal deferred app];
      rewrite <- ?app_assoc, ?app_nil_r; reflexivity.
  - destruct (truthy (field settings "formReset")); [exfalso; now apply Hform|].
    unfold when. unfold with_page, bind, ret, emit, get_page.
    destruct (truthy (field settings "redirect"));
      destruct (truthy (field o "url"));
      destruct (truthy (field settings "showToastrMsg"));
      destruct (truthy (field o "message"));
      cbn [andb page trace timers next_timer swal deferred app];
      rewrite <- ?app_assoc, ?app_nil_r; reflexivity.
Qed.

Lemma X11_success_effects_witness :
  handleSuccess (VObj [("message", VStr "Saved"); ("url", VStr "/done")])
    (resolve page_flat [("formReset", VBool true)]) (start page_flat)
  = (Done tt,
     add_trace [Navigate (VStr "/done"); FormReset 4; ToastrSuccess (VStr "Saved")]
       (start page_flat)).
Proof.
  rewrite (X11_success_effects [("message", VStr "Saved"); ("url", VStr "/done")]
             (resolve page_flat [("formReset", VBool true)]) (start page_flat) 3);
    [reflexivity | reflexivity | discriminate].
Defined.

(** X12: the dialog of [handleFailure].  When [showSwalMsg] is set and
    the dialog library is loaded, the dialog is fired once, after the error
    toast; its [text] is the message of the response and its [icon] the
    message type, whatever [swalOptions] says of the two, and every other
    key of [swalOptions] is passed on.  When the library is not loaded or
    [showSwalMsg] is falsy, no dialog is fired. *)
Theorem X12_failure_dialog
    (o settings swalOptions : obj) (messageType : value) (s : state) :
  field settings "swalOptions" = VObj swalOptions ->
  wf_obj swalOptions ->
  let toast := only_if (truthy (field settings "showToastrMsg")
                        && truthy (field o "message"))
                 [ToastrError (field o "message")] in
  if truthy (field settings "showSwalMsg") && swal s then
    exists fired,
      handleFailure (VObj o) settings messageType s
      = (Done tt, add_trace (toast ++ [SwalFire fired]) s)
      /\ field fired "text" = field o "message"
      /\ field fired "icon" = messageType
      /\ (forall k, k <> "text" -> k <> "icon" ->
            obj_get k fired = obj_get k swalOptions)
  else
    handleFailure (VObj o) settings messageType s = (Done tt, add_trace toast s).
Proof.
  intros Hopt Hwf toast. subst toast.
  unfold handleFailure, get_prop, only_if. cbn [prop].
  assert (Htoast :
    forall k : unit -> M unit,
      (when (truthy (field settings "showToastrMsg"))
         (message <- ret (field o "message");;
          when (truthy message) (emit (ToastrError message)));;; k tt) s
      = k tt (add_trace
                (if truthy (field settings "showToastrMsg") && truthy (field o "message")
                 then [ToastrError (field o "message")] else []) s)).
  { intros k. unfold bind, when, ret, emit, add_trace.
    destruct s as [pg tr tm nt sw df].
    destruct (truthy (field settings "showToastrMsg"));
      destruct (truthy (field o "message"));
      cbn [andb page trace timers next_timer swal deferred];
      rewrite ?app_nil_r; reflexivity. }
  rewrite (Htoast (fun _ => _)). clear Htoast.
  set (toast := if truthy (field settings "showToastrMsg") && _ then _ else _).
  unfold bind at 1 3, get_swal.
  change (swal (add_trace toast s)) with (swal s).
  destruct (truthy (field settings "showSwalMsg") && swal s) eqn:E.
  - exists (assign_from (VObj swalOptions)
              [("text", field o "message"); ("icon", messageType)]).
    split; [|split; [|split]].
    + cbn [when]. rewrite Hopt. unfold bind, ret, emit, add_trace.
      cbn [page trace timers next_timer swal deferred].
      now rewrite <- app_assoc.
    + unfold field at 1, assign_from. rewrite obj_get_assign; [reflexivity|].
      repeat constructor; simpl; intuition discriminate.
    + unfold field at 1, assign_from. rewrite obj_get_assign; [reflexivity|].
      repeat constructor; simpl; intuition discriminate.
    + intros k Ht Hi. unfold assign_from. cbn [Object_entries].
      rewrite obj_get_assign by (repeat constructor; simpl; intuition discriminate).
      cbn [obj_get].
      destruct ("text" =? k) eqn:E1; [apply String.eqb_eq in E1; congruence|].
      destruct ("icon" =? k) eqn:E2; [apply String.eqb_eq in E2; congruence|].
      rewrite (obj_get_assign k swalOptions Hwf).
      now destruct (obj_get k swalOptions).
  - cbn [when]. reflexivity.
Qed.

Lemma X12_failure_dialog_witness :
  exists fired,
    handleFailure (VObj [("message", VStr "No")])
      (resolve page_flat
         [("swalOptions", VObj [("text", VStr "mine"); ("timer", VNum 1500)])])
      (VStr "error") (start page_flat)
    = (Done tt, add_trace [ToastrError (VStr "No"); SwalFire fired] (start page_flat))
    /\ field fired "text" = VStr "No"
    /\ field fired "icon" = VStr "error"
    /\ obj_get "timer" fired = Some (VNum 1500).
Proof.
  assert (Hwf : wf_obj [("text", VStr "mine"); ("timer", VNum 1500)])
    by (repeat constructor; simpl; intuition discriminate).
  destruct (X12_failure_dialog [("message", VStr "No")]
              (resolve page_flat
                 [("swalOptions", VObj [("text", VStr "mine"); ("timer", VNum 1500)])])
              [("text", VStr "mine"); ("timer", VNum 1500)]
              (VStr "error") (start page_flat) eq_refl Hwf)
    as (fired & Hrun & Htext & Hicon & Hother).
  exists fired. split; [exact Hrun|]. split; [exact Htext|]. split; [exact Hicon|].
  rewrite Hother; [reflexivity | discriminate | discriminate].
Defined.

(** ** Failures *)

Lemma not_success_call (settings : obj) (f : value) (args : list arg) :
  match args with
  | AValue _ :: _ => False
  | _ => True
  end ->
  emits not_success (call settings f args).
Proof.
  intros Hargs. unfold call.
  destruct f as [| | | | | | | |[name throws|]]; try apply emits_raise.
  - apply emits_bind; [|intros; destruct throws; emits_auto].
    apply emits_emit. destruct args as [|[]]; try exact I. destruct Hargs.
  - destruct args as [|[[]| |] args]; try apply emits_ret;
      apply emits_defaultBeforeSend; intros; exact I.
Qed.

Lemma not_success_prepare (options : obj) : emits not_success (prepare options).
Proof.
  unfold prepare, read_csrfToken, run_beforeSend.
  repeat first
    [ apply emits_clearValidationErrors
    | apply emits_requestOptions
    | apply not_success_call; exact I
    | apply emits_defaultBeforeSend; intros; exact I
    | progress emits_auto ].
Qed.

Lemma not_success_completion (settings : obj) (tid : nat) :
  emits not_success (completion settings tid).
Proof.
  unfold completion.
  repeat first
    [ apply emits_toggle_off; intros; exact I
    | apply not_success_call; exact I
    | apply emits_clearTimeout; exact I
    | progress emits_auto ].
Qed.

Lemma not_success_handleError_128 (error : exn) (settings : obj) :
  emits not_success (V128.handleError error settings).
Proof.
  unfold V128.handleError.
  repeat first [ apply not_success_call; exact I | progress emits_auto ].
Qed.

Lemma then_steps_failed_200
    (settings : obj) (req : request) (tid : nat) (net : network) (s : state) :
  failed net ->
  let sent := Fetch (field settings "url") (method req) (headers req) (rbody req) in
  V200.then_steps settings req tid net s =
    match net with
    | NetworkFailure => (Raised FetchFailed, add_trace [sent] s)
    | TimedOut =>
        (Raised AbortError,
         State (page s) (trace s ++ [sent; TimerFired tid]) (drop_timer tid (timers s))
               (next_timer s) (swal s) (deferred s))
    | Responds r => (Raised (HttpReject r), add_trace [sent] s)
    end.
Proof.
  intros H sent. unfold V200.then_steps, fetch.
  destruct net as [| |r]; unfold bind, emit, timer_fires, raise, ret, add_trace;
    cbn [page trace timers next_timer swal deferred]; rewrite <- ?app_assoc;
    try reflexivity.
  cbn [failed] in H. rewrite H. reflexivity.
Qed.

Lemma then_steps_failed_128
    (settings : obj) (req : request) (tid : nat) (net : network) (s : state) :
  failed net ->
  let sent := Fetch (field settings "url") (method req) (headers req) (rbody req) in
  V128.then_steps settings req tid net s =
    match net with
    | NetworkFailure => (Raised FetchFailed, add_trace [sent] s)
    | TimedOut =>
        (Raised AbortError,
         State (page s) (trace s ++ [sent; TimerFired tid]) (drop_timer tid (timers s))
               (next_timer s) (swal s) (deferred s))
    | Responds r =>
        (Raised match bodyJson r with
                | Some json => NetworkStatusError (status r) json
                | None => SyntaxError "JSON"
                end,
         add_trace [sent; ReadJson r] s)
    end.
Proof.
  intros H sent. unfold V128.then_steps, fetch, validateResponse.
  destruct net as [| |r]; unfold bind, emit, timer_fires, raise, ret, add_trace;
    cbn [page trace timers next_timer swal deferred]; rewrite <- ?app_assoc;
    try reflexivity.
  cbn [failed] in H. rewrite H. cbn [negb].
  cbn [page trace timers next_timer swal deferred]. rewrite <- ?app_assoc.
  destruct (bodyJson r); reflexivity.
Qed.

Lemma not_success_then_steps_200
    (settings : obj) (req : request) (tid : nat) (net : network) :
  failed net -> emits not_success (V200.then_steps settings req tid net).
Proof.
  intros H s. rewrite (then_steps_failed_200 settings req tid net s H).
  destruct net; eexists; (split; [reflexivity|]); repeat constructor.
Qed.

Lemma not_success_then_steps_128
    (settings : obj) (req : request) (tid : nat) (net : network) :
  failed net -> emits not_success (V128.then_steps settings req tid net).
Proof.
  intros H s. rewrite (then_steps_failed_128 settings req tid net s H).
  destruct net; eexists; (split; [reflexivity|]); repeat constructor.
Qed.

(** X13: a request that fails shows nothing of a success.  When the
    network fails, the timer aborts the request or the response is not 2xx,
    what a call of [easyAjax] adds to the trace holds no navigation, no
    success toast, no form reset, no body read as text and no call of a
    success callback, whatever the options and the page are.  This holds
    in both releases. *)
Theorem X13_failure_shows_no_success (options : obj) (net : network) (s : state) :
  failed net ->
  (exists l, trace (snd (V200.easyAjax options net s)) = trace s ++ l
             /\ Forall not_success l)
  /\ (exists l, trace (snd (V128.easyAjax options net s)) = trace s ++ l
                /\ Forall not_success l).
Proof.
  intros Hfail. split.
  - apply (fun H => H s). change (emits not_success (V200.easyAjax options net)).
    unfold V200.easyAjax, V200.chain.
    apply emits_bind; [apply not_success_prepare|]. intros [[settings req] tid].
    apply emits_bind;
      [|intros; apply emits_run_deferred; intros; apply emits_job_200; intros; exact I].
    apply emits_try_catch; [|intros; emits_auto].
    apply emits_finally; [|apply not_success_completion].
    apply emits_try_catch; [now apply not_success_then_steps_200|].
    intros; apply emits_handleError_200; intros; exact I.
  - apply (fun H => H s). change (emits not_success (V128.easyAjax options net)).
    unfold V128.easyAjax, V128.chain.
    apply emits_bind; [apply not_success_prepare|]. intros [[settings req] tid].
    apply emits_bind;
      [|intros; apply emits_run_deferred; intros; apply emits_job_128; intros; exact I].
    apply emits_try_catch; [|intros; emits_auto].
    apply emits_finally; [|apply not_success_completion].
    apply emits_try_catch; [now apply not_success_then_steps_128|].
    intros; apply not_success_handleError_128.
Qed.

Lemma X13_failure_shows_no_success_witness :
  Forall not_success
    (trace (snd (V200.easyAjax
                   [ ("type", VStr "POST"); ("url", VStr "/save");
                     ("success", VFun (Callback "onSuccess" false)) ]
                   (Responds server_error) (start page_flat)))).
Proof.
  destruct (X13_failure_shows_no_success
              [ ("type", VStr "POST"); ("url", VStr "/save");
                ("success", VFun (Callback "onSuccess" false)) ]
              (Responds server_error) (start page_flat) eq_refl)
    as [[l [Hl HP]] _].
  rewrite Hl. exact HP.
Defined.


(** X15: a 422 body that is an object without [errors].  Release 2.0.0
    shows the summary toast, with the message of the body or the fallback
    text, and renders nothing.  The continuation of release 1.2.8 shows the
    toast with the message as it is, then fails on [Object.entries] of the
    missing [errors]; nobody handles the rejection. *)
Theorem X15_validation_body_without_errors
    (r : response) (settings : obj) (s : state) (b : obj) :
  bodyJson r = Some (VObj b) ->
  obj_get "errors" b = None ->
  V200.validation_job r settings s
    = (Done tt, add_trace [ToastrError (js_or (field b "message") validation_fallback)] s)
  /\ V128.validation_job r settings s
     = (Done tt,
        add_trace [ ConsoleError "Validation errors:";
                    ToastrError (field b "message");
                    UnhandledRejection (TypeError "Object.entries") ] s).
Proof.
  intros Hb He.
  unfold V200.validation_job, V128.validation_job, detached, try_catch.
  rewrite Hb. unfold get_prop. cbn [prop].
  assert (Hf : field b "errors" = VUndefined) by (unfold field; now rewrite He).
  unfold bind, ret, emit, raise, add_trace.
  rewrite !Hf. cbn [truthy Object_entries page trace timers next_timer swal deferred].
  rewrite <- !app_assoc. split; reflexivity.
Qed.

Lemma X15_validation_body_without_errors_witness :
  V200.validation_job (json_response 422 (VObj [("message", VStr "Invalid")]))
    (resolve page_flat []) (start page_flat)
  = (Done tt, add_trace [ToastrError (VStr "Invalid")] (start page_flat)).
Proof.
  destruct (X15_validation_body_without_errors
              (json_response 422 (VObj [("message", VStr "Invalid")]))
              (resolve page_flat []) (start page_flat) [("message", VStr "Invalid")]
              eq_refl eq_refl) as [H _].
  exact H.
Defined.

(** ** What a call leaves behind: timers and pending continuations *)

Section Keeps.

Context {X : Type} (proj : state -> X).
Hypothesis proj_frame :
  forall pg tr s,
    proj (State pg tr (timers s) (next_timer s) (swal s) (deferred s)) = proj s.

Lemma keeps_ret {A} (a : A) : keeps proj (ret a).
Proof. intros s. reflexivity. Qed.

Lemma keeps_raise {A} (e : exn) : keeps proj (@raise A e).
Proof. intros s. reflexivity. Qed.

Lemma keeps_bind {A B} (m : M A) (k : A -> M B) :
  keeps proj m -> (forall a, keeps proj (k a)) -> keeps proj (bind m k).
Proof.
  intros Hm Hk s. unfold bind. specialize (Hm s).
  destruct (m s) as [[a|e] s1]; cbn [snd] in *; [|exact Hm].
  now rewrite (Hk a s1).
Qed.

Lemma keeps_try_catch {A} (m : M A) (h : exn -> M A) :
  keeps proj m -> (forall e, keeps proj (h e)) -> keeps proj (try_catch m h).
Proof.
  intros Hm Hh s. unfold try_catch. specialize (Hm s).
  destruct (m s) as [[a|e] s1]; cbn [snd] in *; [exact Hm|].
  now rewrite (Hh e s1).
Qed.

Lemma keeps_finally {A} (m : M A) (k : M unit) :
  keeps proj m -> keeps proj k -> keeps proj (finally m k).
Proof.
  intros Hm Hk s. rewrite finally_snd. now rewrite Hk.
Qed.

Lemma keeps_when (b : bool) (m : M unit) : keeps proj m -> keeps proj (when b m).
Proof. intros H. destruct b; [exact H | apply keeps_ret]. Qed.

Lemma keeps_for_each {A} (l : list A) (f : A -> M unit) :
  (forall x, keeps proj (f x)) -> keeps proj (for_each l f).
Proof.
  intros H. induction l as [|x l IH]; [apply keeps_ret|].
  apply keeps_bind; [apply H | intros; exact IH].
Qed.

Lemma keeps_emit (e : event) : keeps proj (emit e).
Proof. intros s. apply proj_frame. Qed.

Lemma keeps_modify_page (f : node -> node) : keeps proj (modify_page f).
Proof. intros s. apply proj_frame. Qed.

Lemma keeps_get_page : keeps proj get_page.
Proof. intros s. reflexivity. Qed.

Lemma keeps_get_swal : keeps proj get_swal.
Proof. intros s. reflexivity. Qed.

Ltac keeps_step :=
  match goal with
  | |- keeps _ (bind _ _) => apply keeps_bind; [|intros]
  | |- keeps _ (ret _) => apply keeps_ret
  | |- keeps _ (raise _) => apply keeps_raise
  | |- keeps _ (emit _) => apply keeps_emit
  | |- keeps _ (when _ _) => apply keeps_when
  | |- keeps _ (for_each _ _) => apply keeps_for_each; intros
  | |- keeps _ (try_catch _ _) => apply keeps_try_catch; [|intros]
  | |- keeps _ (detached _) => apply keeps_try_catch; [|intros]
  | |- keeps _ (finally _ _) => apply keeps_finally
  | |- keeps _ get_page => apply keeps_get_page
  | |- keeps _ get_swal => apply keeps_get_swal
  | |- keeps _ (modify_page _) => apply keeps_modify_page
  | |- keeps _ (css _) => unfold css
  | |- keeps _ (get_prop _ _) => unfold get_prop
  | |- keeps _ (query _ _) => unfold query
  | |- keeps _ (queryAll _ _) => unfold queryAll
  | |- keeps _ (match ?x with _ => _ end) => destruct x
  | |- keeps _ (if ?b then _ else _) => destruct b
  end.

Lemma keeps_toggle (selector : value) (isLoading : bool) (settings : obj) :
  keeps proj (toggleButtonLoading selector isLoading settings).
Proof. unfold toggleButtonLoading. repeat keeps_step. Qed.

Lemma keeps_defaultBeforeSend (settings : obj) : keeps proj (defaultBeforeSend settings).
Proof.
  unfold defaultBeforeSend.
  destruct (_ && _); [apply keeps_toggle | apply keeps_ret].
Qed.

Lemma keeps_call (settings : obj) (f : value) (args : list arg) :
  keeps proj (call settings f args).
Proof.
  unfold call.
  destruct f as [| | | | | | | |[name throws|]]; try apply keeps_raise.
  - repeat keeps_step.
  - destruct args as [|[[]| |] args]; try apply keeps_ret;
      apply keeps_defaultBeforeSend.
Qed.

Lemma keeps_validateResponse (r : response) : keeps proj (validateResponse r).
Proof. unfold validateResponse. repeat keeps_step. Qed.

Lemma keeps_processContentType (r : response) : keeps proj (processContentType r).
Proof. unfold processContentType. repeat keeps_step. Qed.

Lemma keeps_clearValidationErrors (container : value) :
  keeps proj (clearValidationErrors container).
Proof. unfold clearValidationErrors. repeat keeps_step. Qed.

Lemma keeps_handleSuccess (response : value) (settings : obj) :
  keeps proj (handleSuccess response settings).
Proof.
  unfold handleSuccess.
  repeat first [ apply keeps_clearValidationErrors | keeps_step ].
Qed.

Lemma keeps_processResponse (data : value) (settings : obj) :
  keeps proj (processResponse data settings).
Proof.
  unfold processResponse.
  repeat first [ apply keeps_handleSuccess | apply keeps_call | keeps_step ].
Qed.

Lemma keeps_requestOptions (settings : obj) (csrfToken : value) :
  keeps proj (requestOptions settings csrfToken).
Proof.
  unfold requestOptions, upper_type, createFormData. repeat keeps_step.
Qed.

Lemma keeps_read_csrfToken : keeps proj read_csrfToken.
Proof. unfold read_csrfToken. repeat keeps_step. Qed.

Lemma keeps_run_beforeSend (settings : obj) : keeps proj (run_beforeSend settings).
Proof.
  unfold run_beforeSend.
  repeat first [ apply keeps_call | apply keeps_defaultBeforeSend | keeps_step ].
Qed.

Lemma keeps_display_128 (inputElement : option nat) (message : value) :
  keeps proj (V128.displayValidationError inputElement message).
Proof. unfold V128.displayValidationError. repeat keeps_step. Qed.

Lemma keeps_display_200 (inputElement : option nat) (message : value) :
  keeps proj (V200.displayValidationError inputElement message).
Proof. unfold V200.displayValidationError. repeat keeps_step. Qed.

Lemma keeps_job_128 (r : response) (settings : obj) :
  keeps proj (V128.validation_job r settings).
Proof.
  unfold V128.validation_job.
  repeat first [ apply keeps_display_128 | keeps_step ].
Qed.

Lemma keeps_job_200 (r : response) (settings : obj) :
  keeps proj (V200.validation_job r settings).
Proof.
  unfold V200.validation_job, V200.render_errors, V200.render_field.
  repeat first [ apply keeps_display_200 | keeps_step ].
Qed.

Lemma keeps_after_fetch_200 (settings : obj) (r : response) :
  keeps proj
    (r <- (if negb (ok r) then raise (HttpReject r) else ret r) ;;
     r <- validateResponse r ;;
     data <- processContentType r ;;
     processResponse data settings).
Proof.
  repeat first
    [ apply keeps_validateResponse | apply keeps_processContentType
    | apply keeps_processResponse | keeps_step ].
Qed.

Lemma keeps_after_fetch_128 (settings : obj) (r : response) :
  keeps proj
    (r <- validateResponse r ;;
     data <- processContentType r ;;
     processResponse data settings).
Proof.
  repeat first
    [ apply keeps_validateResponse | apply keeps_processContentType
    | apply keeps_processResponse | keeps_step ].
Qed.

Lemma keeps_after_clear (settings : obj) :
  keeps proj
    (when (truthy (field settings "disableButton"))
          (toggleButtonLoading (field settings "buttonSelector") false settings) ;;;
     when (truthy (field settings "complete"))
          (call settings (field settings "complete") [])).
Proof.
  repeat first [ apply keeps_toggle | apply keeps_call | keeps_step ].
Qed.

Lemma keeps_error_callbacks (error : exn) (settings : obj) :
  keeps proj
    (if truthy (field settings "customErrorHandler") then
       call settings (field settings "customErrorHandler") [AError error; ASettings]
     else if truthy (field settings "error") then
       call settings (field settings "error") [AError error]
     else ret tt).
Proof.
  repeat first [ apply keeps_call | keeps_step ].
Qed.

End Keeps.

Lemma clock_frame (pg : node) (tr : list event) (s : state) :
  clock (State pg tr (timers s) (next_timer s) (swal s) (deferred s)) = clock s.
Proof. reflexivity. Qed.

Lemma deferred_frame (pg : node) (tr : list event) (s : state) :
  deferred (State pg tr (timers s) (next_timer s) (swal s) (deferred s)) = deferred s.
Proof. reflexivity. Qed.

Lemma keeps_defer (r : response) (settings : obj) : keeps clock (defer r settings).
Proof. intros s. reflexivity. Qed.

Lemma keeps_timers {A : Type} (m : M A) (s : state) :
  keeps clock m -> timers (snd (m s)) = timers s.
Proof. intros H. exact (f_equal fst (H s)). Qed.

Lemma keeps_run_deferred (job : response -> obj -> M unit) :
  (forall r st, keeps clock (job r st)) -> keeps clock (run_deferred job).
Proof.
  intros Hjob s. unfold run_deferred.
  rewrite (keeps_for_each clock (deferred s) (fun rs => job (fst rs) (snd rs))
             (fun rs => Hjob (fst rs) (snd rs))).
  reflexivity.
Qed.

Lemma keeps_handleError_200 (error : exn) (settings : obj) :
  keeps clock (V200.handleError error settings).
Proof.
  unfold V200.handleError.
  destruct (exn_response error) as [r|]; [|apply (keeps_emit clock clock_frame)].
  destruct (status r =? 422)%Z; [|apply (keeps_emit clock clock_frame)].
  apply keeps_bind; intros; [apply (keeps_emit clock clock_frame) | apply keeps_defer].
Qed.

Lemma keeps_handleError_128 (error : exn) (settings : obj) :
  keeps clock (V128.handleError error settings).
Proof.
  unfold V128.handleError.
  apply keeps_bind; [apply (keeps_emit clock clock_frame)|]. intros _.
  apply keeps_bind; [|intros; apply (keeps_error_callbacks clock clock_frame)].
  destruct (exn_status error) as [z|]; [|apply (keeps_emit clock clock_frame)].
  destruct z as [|p|p]; try apply (keeps_emit clock clock_frame).
  destruct (Pos.eq_dec p 422) as [->|Hne].
  - destruct error; try apply keeps_raise.
    apply keeps_bind; intros; [apply (keeps_emit clock clock_frame) | apply keeps_defer].
  - do 9 (destruct p as [p|p|]; try apply (keeps_emit clock clock_frame));
      contradiction.
Qed.

Lemma drop_timer_idem (id : nat) (l : list nat) :
  drop_timer id (drop_timer id l) = drop_timer id l.
Proof.
  unfold drop_timer. induction l as [|t l IH]; [reflexivity|].
  cbn [filter]. destruct (negb (t =? id)%nat) eqn:E; cbn [filter]; [|exact IH].
  now rewrite E, IH.
Qed.

Lemma drop_timer_fresh (id : nat) (l : list nat) :
  Forall (fun t => t < id) l -> drop_timer id l = l.
Proof.
  unfold drop_timer. induction 1 as [|t l Ht _ IH]; [reflexivity|].
  cbn [filter]. destruct (t =? id)%nat eqn:E.
  - apply Nat.eqb_eq in E. lia.
  - cbn [negb]. now rewrite IH.
Qed.

Lemma prepare_clock (options : obj) (s : state) :
  match prepare options s with
  | (Done (_, _, tid), s1) => tid = next_timer s /\ timers s1 = tid :: timers s
  | (Raised _, s1) => timers s1 = timers s
  end.
Proof.
  unfold prepare, bind at 1, get_page.
  set (st := resolve (page s) options).
  unfold bind at 1.
  pose proof (keeps_clearValidationErrors clock clock_frame (field st "container") s) as H1.
  destruct (clearValidationErrors _ s) as [[u|e] s1]; cbn [snd] in H1;
    [|exact (f_equal fst H1)].
  unfold bind at 1.
  pose proof (keeps_read_csrfToken clock s1) as H2.
  destruct (read_csrfToken s1) as [[tok|e] s2]; cbn [snd] in H2;
    [|exact (f_equal fst (eq_trans H2 H1))].
  unfold bind at 1.
  pose proof (keeps_requestOptions clock st tok s2) as H3.
  destruct (requestOptions st tok s2) as [[req|e] s3]; cbn [snd] in H3;
    [|exact (f_equal fst (eq_trans H3 (eq_trans H2 H1)))].
  unfold bind at 1.
  pose proof (keeps_run_beforeSend clock clock_frame st s3) as H4.
  destruct (run_beforeSend st s3) as [[u'|e] s4]; cbn [snd] in H4;
    [|exact (f_equal fst (eq_trans H4 (eq_trans H3 (eq_trans H2 H1))))].
  assert (H : clock s4 = clock s) by (now rewrite H4, H3, H2).
  unfold bind, setTimeout, ret. cbn [timers next_timer].
  unfold clock in H. injection H as Ht Hn.
  split; [exact Hn | now rewrite Ht].
Qed.

Lemma fetch_timers (url : value) (req : request) (tid : nat) (net : network) (s : state) :
  match fetch url req tid net s with
  | (Done _, s1) => timers s1 = timers s
  | (Raised _, s1) => timers s1 = timers s \/ timers s1 = drop_timer tid (timers s)
  end.
Proof.
  unfold fetch. destruct net; cbn; auto.
Qed.

Lemma detached_then_timers (m k : M unit) (s : state) :
  keeps clock k -> timers (snd ((detached m ;;; k) s)) = timers (snd (m s)).
Proof.
  intros Hk. unfold bind, detached, try_catch, emit.
  destruct (m s) as [[u|e] s1]; cbn [snd]; rewrite (keeps_timers _ _ Hk); reflexivity.
Qed.

Section Timers.

Variable rest : obj -> response -> M unit.
Variable handler : exn -> obj -> M unit.
Variable job : response -> obj -> M unit.
Hypothesis keeps_rest : forall st r, keeps clock (rest st r).
Hypothesis keeps_handler : forall e st, keeps clock (handler e st).
Hypothesis keeps_job : forall r st, keeps clock (job r st).

Lemma chain_timers (settings : obj) (req : request) (tid : nat) (net : network) (s : state) :
  timers
    (snd ((detached
             (finally
                (try_catch
                   (r <- fetch (field settings "url") req tid net ;; rest settings r)
                   (fun error => handler error settings))
                (completion settings tid)) ;;;
           run_deferred job) s))
  = drop_timer tid (timers s).
Proof.
  assert (Hsettled :
    forall s2,
      s2 = snd (try_catch
                  (r <- fetch (field settings "url") req tid net ;; rest settings r)
                  (fun error => handler error settings) s) ->
      timers s2 = timers s \/ timers s2 = drop_timer tid (timers s)).
  { intros s2 ->. unfold try_catch, bind.
    pose proof (fetch_timers (field settings "url") req tid net s) as Hf.
    destruct (fetch _ req tid net s) as [[r|e] s1].
    - pose proof (keeps_timers _ s1 (keeps_rest settings r)) as Hr.
      destruct (rest settings r s1) as [[u|e] s2]; cbn [snd] in *.
      + left. congruence.
      + rewrite (keeps_timers _ s2 (keeps_handler e settings)). left. congruence.
    - rewrite (keeps_timers _ s1 (keeps_handler e settings)). exact Hf. }
  assert (Hfinal :
    timers (snd (finally
                   (try_catch
                      (r <- fetch (field settings "url") req tid net ;; rest settings r)
                      (fun error => handler error settings))
                   (completion settings tid) s))
    = drop_timer tid (timers s)).
  { rewrite finally_snd.
    specialize (Hsettled _ eq_refl).
    set (s2 := snd (try_catch _ _ s)) in *. clearbody s2.
    unfold completion. unfold bind at 1, clearTimeout.
    rewrite (keeps_timers _ _ (keeps_after_clear clock clock_frame settings)).
    cbn [timers].
    destruct Hsettled as [-> | ->]; [reflexivity | apply drop_timer_idem]. }
  rewrite detached_then_timers by (apply keeps_run_deferred, keeps_job).
  exact Hfinal.
Qed.

End Timers.

(** X16: a call of [easyAjax] leaves the timers as it found them.  In a
    state whose pending timers were all set before, the timers that are
    pending when the call and its chain have ended are those that were
    pending when it began: the timer that the call sets is cleared, or has
    fired, and no other timer is touched.  This holds in both releases,
    whatever the network does, and also when the call raises. *)
Theorem X16_timers_left_as_found (options : obj) (net : network) (s : state) :
  timers_known s ->
  timers (snd (V200.easyAjax options net s)) = timers s
  /\ timers (snd (V128.easyAjax options net s)) = timers s.
Proof.
  intros Hknown. unfold V200.easyAjax, V128.easyAjax.
  pose proof (prepare_clock options s) as Hp.
  destruct (prepare options s) as [[[[settings req] tid]|e] s1] eqn:E.
  - rewrite !(bind_done _ _ _ _ _ E). destruct Hp as [Htid Ht].
    assert (Hdrop : drop_timer tid (timers s1) = timers s).
    { rewrite Ht. unfold drop_timer. cbn [filter]. rewrite Nat.eqb_refl. cbn [negb].
      apply drop_timer_fresh. rewrite Htid. exact Hknown. }
    split.
    + rewrite <- Hdrop.
      apply (chain_timers
               (fun st r =>
                  r <- (if negb (ok r) then raise (HttpReject r) else ret r) ;;
                  r <- validateResponse r ;;
                  data <- processContentType r ;;
                  processResponse data st)
               (fun e st => V200.handleError e st) V200.validation_job).
      * intros; apply (keeps_after_fetch_200 clock clock_frame).
      * intros; apply keeps_handleError_200.
      * intros; apply (keeps_job_200 clock clock_frame).
    + rewrite <- Hdrop.
      apply (chain_timers
               (fun st r =>
                  r <- validateResponse r ;;
                  data <- processContentType r ;;
                  processResponse data st)
               (fun e st => V128.handleError e st) V128.validation_job).
      * intros; apply (keeps_after_fetch_128 clock clock_frame).
      * intros; apply keeps_handleError_128.
      * intros; apply (keeps_job_128 clock clock_frame).
  - rewrite !(bind_raised _ _ _ _ _ E). cbn [snd]. split; exact Hp.
Qed.

Lemma X16_timers_left_as_found_witness :
  timers (snd (V200.easyAjax [("type", VStr "POST"); ("url", VStr "/save")] TimedOut
                 (State page_flat [] [1; 0] 2 true [])))
  = [1; 0].
Proof.
  apply (X16_timers_left_as_found [("type", VStr "POST"); ("url", VStr "/save")] TimedOut
           (State page_flat [] [1; 0] 2 true [])).
  repeat constructor.
Defined.

(** ** Release 1.2.8 and the validation errors *)

Section Raises.

Context {Q : exn -> Prop}.

Lemma raises_never {A} (m : M A) :
  (forall s, exists a s', m s = (Done a, s')) -> raises_only Q m.
Proof.
  intros H s e s' E. destruct (H s) as [a [s1 E1]]. congruence.
Qed.

Lemma raises_ret {A} (a : A) : raises_only Q (ret a).
Proof. intros s e s' E. discriminate E. Qed.

Lemma raises_raise {A} (e : exn) : Q e -> raises_only Q (@raise A e).
Proof. intros H s e' s' E. injection E as <- _. exact H. Qed.

Lemma raises_bind {A B} (m : M A) (k : A -> M B) :
  raises_only Q m -> (forall a, raises_only Q (k a)) -> raises_only Q (bind m k).
Proof.
  intros Hm Hk s e s' E. unfold bind in E.
  destruct (m s) as [[a|e1] s1] eqn:Em.
  - exact (Hk a s1 e s' E).
  - injection E as <- _. exact (Hm s e1 s1 Em).
Qed.

Lemma raises_when (b : bool) (m : M unit) :
  raises_only Q m -> raises_only Q (when b m).
Proof. intros H. destruct b; [exact H | apply raises_ret]. Qed.

Lemma raises_for_each {A} (l : list A) (f : A -> M unit) :
  (forall x, raises_only Q (f x)) -> raises_only Q (for_each l f).
Proof.
  intros H. induction l as [|x l IH]; [apply raises_ret|].
  apply raises_bind; [apply H | intros; exact IH].
Qed.

Lemma raises_emit (e : event) : raises_only Q (emit e).
Proof. apply raises_never. intros s. eexists; eexists; reflexivity. Qed.

Lemma raises_modify_page (f : node -> node) : raises_only Q (modify_page f).
Proof. apply raises_never. intros s. eexists; eexists; reflexivity. Qed.

Lemma raises_get_page : raises_only Q get_page.
Proof. apply raises_never. intros s. eexists; eexists; reflexivity. Qed.

Lemma raises_timer_fires (id : nat) : raises_only Q (timer_fires id).
Proof. apply raises_never. intros s. eexists; eexists; reflexivity. Qed.

End Raises.

Ltac raises_step :=
  match goal with
  | |- raises_only _ (bind _ _) => apply raises_bind; [|intros]
  | |- raises_only _ (ret _) => apply raises_ret
  | |- raises_only _ (raise _) => apply raises_raise; reflexivity
  | |- raises_only _ (emit _) => apply raises_emit
  | |- raises_only _ (when _ _) => apply raises_when
  | |- raises_only _ (for_each _ _) => apply raises_for_each; intros
  | |- raises_only _ get_page => apply raises_get_page
  | |- raises_only _ (modify_page _) => apply raises_modify_page
  | |- raises_only _ (timer_fires _) => apply raises_timer_fires
  | |- raises_only _ (css _) => unfold css
  | |- raises_only _ (get_prop _ _) => unfold get_prop
  | |- raises_only _ (query _ _) => unfold query
  | |- raises_only _ (queryAll _ _) => unfold queryAll
  | |- raises_only _ (match ?x with _ => _ end) => destruct x
  | |- raises_only _ (if ?b then _ else _) => destruct b
  end.

Lemma no_status_call (settings : obj) (f : value) (args : list arg) :
  raises_only no_status (call settings f args).
Proof.
  unfold call.
  destruct f as [| | | | | | | |[name throws|]];
    try (apply raises_raise; reflexivity).
  - repeat raises_step.
  - destruct args as [|[[]| |] args]; try apply raises_ret;
      unfold defaultBeforeSend, toggleButtonLoading; repeat raises_step.
Qed.

Lemma no_status_then_steps_128
    (settings : obj) (req : request) (tid : nat) (net : network) :
  raises_only no_status (V128.then_steps settings req tid net).
Proof.
  unfold V128.then_steps, fetch, validateResponse, processContentType,
    processResponse, handleSuccess, clearValidationErrors.
  repeat first [ apply no_status_call | raises_step ].
Qed.

Lemma deferred_setTimeout (ms : value) : keeps deferred (setTimeout ms).
Proof. intros s. reflexivity. Qed.

Lemma deferred_prepare (options : obj) : keeps deferred (prepare options).
Proof.
  unfold prepare.
  apply keeps_bind; [apply keeps_get_page|]. intros doc.
  apply keeps_bind; [apply (keeps_clearValidationErrors deferred deferred_frame)|]. intros _.
  apply keeps_bind; [apply keeps_read_csrfToken|]. intros tok.
  apply keeps_bind; [apply keeps_requestOptions|]. intros req.
  apply keeps_bind; [apply (keeps_run_beforeSend deferred deferred_frame)|]. intros _.
  apply keeps_bind; [apply deferred_setTimeout | intros; apply keeps_ret].
Qed.

Lemma deferred_then_steps_128
    (settings : obj) (req : request) (tid : nat) (net : network) :
  keeps deferred (V128.then_steps settings req tid net).
Proof.
  unfold V128.then_steps.
  apply keeps_bind;
    [|intros; apply (keeps_after_fetch_128 deferred deferred_frame)].
  unfold fetch. apply keeps_bind; [apply (keeps_emit deferred deferred_frame)|]. intros _.
  destruct net; try apply keeps_raise; try apply keeps_ret.
  apply keeps_bind; [intros s; reflexivity | intros; apply keeps_raise].
Qed.

Lemma deferred_completion (settings : obj) (tid : nat) :
  keeps deferred (completion settings tid).
Proof.
  unfold completion.
  apply keeps_bind; [intros s; reflexivity|]. intros _.
  apply (keeps_after_clear deferred deferred_frame).
Qed.

Lemma deferred_handleError_128 (error : exn) (settings : obj) :
  no_status error -> keeps deferred (V128.handleError error settings).
Proof.
  intros H. unfold V128.handleError. unfold no_status in H. rewrite H.
  apply keeps_bind; [apply (keeps_emit deferred deferred_frame)|]. intros _.
  apply keeps_bind; [apply (keeps_emit deferred deferred_frame)|]. intros _.
  apply (keeps_error_callbacks deferred deferred_frame).
Qed.

Lemma deferred_chain_128
    (settings : obj) (req : request) (tid : nat) (net : network) (s : state) :
  deferred (snd (detached (V128.chain settings req tid net) s)) = deferred s.
Proof.
  assert (Hsettled :
    deferred (snd (try_catch (V128.then_steps settings req tid net)
                             (fun error => V128.handleError error settings) s))
    = deferred s).
  { unfold try_catch.
    pose proof (deferred_then_steps_128 settings req tid net s) as Hk.
    pose proof (no_status_then_steps_128 settings req tid net s) as Hq.
    destruct (V128.then_steps settings req tid net s) as [[u|e] s1]; cbn [snd] in *;
      [exact Hk|].
    rewrite (deferred_handleError_128 e settings (Hq e s1 eq_refl)). exact Hk. }
  unfold detached, V128.chain.
  apply (fun H => eq_trans H Hsettled).
  unfold try_catch at 1.
  match goal with
  | |- deferred (snd (match ?m s with _ => _ end)) = _ =>
      assert (Hf : deferred (snd (m s)) = deferred (snd (try_catch
                     (V128.then_steps settings req tid net)
                     (fun error => V128.handleError error settings) s)))
        by (rewrite finally_snd; apply deferred_completion);
      destruct (m s) as [[u|e] s3]
  end; cbn [snd] in *; exact Hf.
Qed.

Lemma not_inline_chain_128
    (settings : obj) (req : request) (tid : nat) (net : network) :
  emits not_inline (detached (V128.chain settings req tid net)).
Proof.
  unfold V128.chain.
  apply emits_try_catch; [|intros; emits_auto].
  apply emits_finally; [|apply emits_completion; intros; exact I].
  apply emits_try_catch; [apply emits_then_steps_128; intros; exact I|].
  intros. apply emits_handleError_128; intros; exact I.
Qed.

(** X17: release 1.2.8 never renders a validation error.  The chain
    rejects only with errors that have no [status] of their own (the error
    of [fetch], the error that [validateResponse] makes of a response that
    is not 2xx, the errors of the decoding and what a success callback
    throws), so the branch of [handleError] for the status 422 is not taken:
    no body read is started there, and once the chain has ended no
    continuation of the call is pending.  A call that starts with none
    pending adds no inline message to the page, whatever the response is. *)
Theorem X17_v128_renders_no_validation_error (options : obj) (net : network) (s : state) :
  deferred s = [] ->
  deferred (snd (V128.easyAjax options net s)) = []
  /\ exists l, trace (snd (V128.easyAjax options net s)) = trace s ++ l
               /\ Forall not_inline l.
Proof.
  intros Hd. unfold V128.easyAjax.
  pose proof (deferred_prepare options s) as Hp.
  destruct (emits_prepare (P := not_inline) (fun _ => I) (fun _ => I)
              (fun _ _ => I) (fun _ _ => I) options s) as [l0 [Hl0 HP0]].
  destruct (prepare options s) as [[[[settings req] tid]|e] s1] eqn:E; cbn [snd] in *.
  - rewrite (bind_done _ _ _ _ _ E).
    pose proof (deferred_chain_128 settings req tid net s1) as Hc.
    destruct (not_inline_chain_128 settings req tid net s1) as [l1 [Hl1 HP1]].
    unfold bind.
    destruct (detached (V128.chain settings req tid net) s1) as [[u|e] s2];
      cbn [snd] in *.
    + unfold run_deferred. rewrite Hc, Hp, Hd. cbn [for_each ret snd deferred trace].
      split; [reflexivity|].
      exists (l0 ++ l1). rewrite Hl1, Hl0, <- app_assoc.
      split; [reflexivity | apply Forall_app; now split].
    + split; [congruence|].
      exists (l0 ++ l1). rewrite Hl1, Hl0, <- app_assoc.
      split; [reflexivity | apply Forall_app; now split].
  - rewrite (bind_raised _ _ _ _ _ E). cbn [snd].
    split; [congruence | now exists l0].
Qed.

Lemma X17_v128_renders_no_validation_error_witness :
  exists l,
    trace (snd (V128.easyAjax post_options (Responds (json_response 422 errors_422))
                  (start page_flat)))
    = trace (start page_flat) ++ l
    /\ Forall not_inline l.
Proof.
  apply (X17_v128_renders_no_validation_error post_options
           (Responds (json_response 422 errors_422)) (start page_flat)).
  reflexivity.
Defined.

(** ** Clearing the validation messages *)

Lemma nodup_same_id (d x y : node) :
  NoDup (ids d) -> In x (subtree d) -> In y (subtree d) -> nid x = nid y -> x = y.
Proof.
  unfold ids. generalize (subtree d). intros l.
  induction l as [|n l IH]; intros Hnd Hx Hy E; [destruct Hx|].
  cbn [map] in Hnd. inversion Hnd as [|? ? Hnot Hl]; subst.
  destruct Hx as [<-|Hx], Hy as [<-|Hy].
  - reflexivity.
  - exfalso. apply Hnot. rewrite E. now apply in_map.
  - exfalso. apply Hnot. rewrite <- E. now apply in_map.
  - now apply IH.
Qed.

Lemma find_map {A B} (P : B -> bool) (g : A -> B) (l : list A) :
  find P (map g l) = option_map g (find (fun x => P (g x)) l).
Proof.
  induction l as [|x l IH]; [reflexivity|].
  cbn [map find]. destruct (P (g x)); [reflexivity | exact IH].
Qed.

Lemma remove_top (id : nat) (n : node) :
  nid (remove_node id n) = nid n /\ classes (remove_node id n) = classes n.
Proof. destruct n; split; reflexivity. Qed.

Lemma removed_gone (id : nat) :
  forall n m, In m (descendants (remove_node id n)) -> nid m <> id.
Proof.
  induction n as [n IH] using node_tree_ind. intros m Hin.
  destruct n as [i t a c d x ks]; simpl in *.
  apply in_flat_map in Hin. destruct Hin as [k' [Hk' Hm]].
  apply filter_In in Hk'. destruct Hk' as [Hk' Hkeep].
  apply in_map_iff in Hk'. destruct Hk' as [k [<- Hk]].
  rewrite Forall_forall in IH.
  destruct Hm as [<- | Hm].
  - unfold has_id in Hkeep. apply negb_true_iff, Nat.eqb_neq in Hkeep. exact Hkeep.
  - exact (IH k Hk m Hm).
Qed.

Lemma remove_all_top (fb : list nat) :
  forall n, nid (remove_all fb n) = nid n /\ classes (remove_all fb n) = classes n.
Proof.
  unfold remove_all. induction fb as [|e fb IH]; intros n; cbn [fold_left]; [now split|].
  destruct (IH (remove_node e n)) as [H1 H2], (remove_top e n) as [H3 H4].
  split; congruence.
Qed.

Lemma remove_all_subtree (fb : list nat) :
  forall n m, In m (subtree (remove_all fb n)) ->
              exists m0, In m0 (subtree n) /\ m = remove_all fb m0.
Proof.
  unfold remove_all. induction fb as [|e fb IH]; intros n m Hin; cbn [fold_left] in *.
  - now exists m.
  - destruct (IH _ _ Hin) as [m1 [H1 ->]].
    destruct (subtree_remove e n m1 H1) as [m0 [H0 ->]].
    now exists m0.
Qed.

Lemma remove_all_descendants (fb : list nat) :
  forall n m, In m (descendants (remove_all fb n)) ->
              exists m0, In m0 (descendants n) /\ m = remove_all fb m0.
Proof.
  unfold remove_all. induction fb as [|e fb IH]; intros n m Hin; cbn [fold_left] in *.
  - now exists m.
  - destruct (IH _ _ Hin) as [m1 [H1 ->]].
    destruct (descendants_remove e n m1 H1) as [m0 [H0 ->]].
    now exists m0.
Qed.

Lemma remove_all_gone (fb : list nat) :
  forall n m, In m (descendants (remove_all fb n)) -> ~ In (nid m) fb.
Proof.
  induction fb as [|e fb IH]; intros n m Hin; [intros []|].
  change (remove_all (e :: fb) n) with (remove_all fb (remove_node e n)) in Hin.
  intros [He | Hfb]; [|exact (IH _ _ Hin Hfb)].
  destruct (remove_all_descendants fb _ _ Hin) as [m1 [H1 ->]].
  destruct (remove_all_top fb m1) as [Hid _]. rewrite Hid in He.
  exact (removed_gone e n m1 H1 (eq_sym He)).
Qed.

Lemma has_class_removed (c : string) (m : node) :
  has_class c (remove_class c m) = false.
Proof.
  unfold has_class, remove_class. cbn [with_classes classes].
  induction (classes m) as [|c' cs IH]; [reflexivity|].
  cbn [filter]. destruct (c' =? c) eqn:E; cbn [negb existsb]; [exact IH|].
  rewrite String.eqb_sym, E. exact IH.
Qed.

Lemma has_class_remove_other (c c' : string) (m : node) :
  c <> c' -> has_class c (remove_class c' m) = has_class c m.
Proof.
  intros Hne. unfold has_class, remove_class. cbn [with_classes classes].
  induction (classes m) as [|c1 cs IH]; [reflexivity|].
  cbn [filter existsb]. destruct (c1 =? c') eqn:E; cbn [negb existsb].
  - apply String.eqb_eq in E. subst c1.
    apply String.eqb_neq in Hne. now rewrite Hne.
  - now rewrite IH.
Qed.

Lemma unmark_top (e : nat) (m : node) :
  nid (update_node e (remove_class invalid_class) m) = nid m
  /\ has_class feedback_class (update_node e (remove_class invalid_class) m)
     = has_class feedback_class m
  /\ (has_class invalid_class m = false ->
      has_class invalid_class (update_node e (remove_class invalid_class) m) = false)
  /\ (nid m = e ->
      has_class invalid_class (update_node e (remove_class invalid_class) m) = false).
Proof.
  rewrite update_node_unfold.
  set (m' := with_kids m (map (update_node e (remove_class invalid_class)) (kids m))).
  assert (Hc : forall c, has_class c m' = has_class c m) by (destruct m; reflexivity).
  assert (Hi : nid m' = nid m) by (destruct m; reflexivity).
  destruct (has_id e m) eqn:E; unfold has_id in E.
  - split; [destruct m'; exact Hi|].
    split; [rewrite has_class_remove_other by discriminate; apply Hc|].
    split; intros _; apply has_class_removed.
  - apply Nat.eqb_neq in E.
    split; [exact Hi|]. split; [apply Hc|].
    split; [intros H; now rewrite Hc | intros H; contradiction].
Qed.

Lemma unmark_all_top (inv : list nat) :
  forall m,
    nid (unmark_all inv m) = nid m
    /\ has_class feedback_class (unmark_all inv m) = has_class feedback_class m
    /\ (has_class invalid_class m = false ->
        has_class invalid_class (unmark_all inv m) = false)
    /\ (In (nid m) inv -> has_class invalid_class (unmark_all inv m) = false).
Proof.
  unfold unmark_all. induction inv as [|e inv IH]; intros m; cbn [fold_left].
  - split; [reflexivity|]. split; [reflexivity|]. split; [auto | intros []].
  - destruct (IH (update_node e (remove_class "is-invalid") m)) as (I1 & I2 & I3 & I4).
    destruct (unmark_top e m) as (T1 & T2 & T3 & T4).
    unfold invalid_class, feedback_class in *.
    split; [congruence|]. split; [congruence|].
    split; [intros H; apply I3, T3, H|].
    intros [He | Hin].
    + apply I3, T4. now symmetry.
    + apply I4. now rewrite T1.
Qed.

Lemma unmark_all_subtree (inv : list nat) :
  forall n, subtree (unmark_all inv n) = map (unmark_all inv) (subtree n).
Proof.
  unfold unmark_all. induction inv as [|e inv IH]; intros n; cbn [fold_left].
  - now rewrite map_id.
  - rewrite IH, subtree_update by (intros m; destruct m; reflexivity).
    now rewrite map_map.
Qed.

Lemma unmark_all_descendants (inv : list nat) :
  forall n, descendants (unmark_all inv n) = map (unmark_all inv) (descendants n).
Proof.
  unfold unmark_all. induction inv as [|e inv IH]; intros n; cbn [fold_left].
  - now rewrite map_id.
  - rewrite IH, descendants_update by (intros m; destruct m; reflexivity).
    now rewrite map_map.
Qed.

Lemma find_node_unmark_all (inv : list nat) (c : nat) (d : node) :
  find_node c (unmark_all inv d) = option_map (unmark_all inv) (find_node c d).
Proof.
  unfold find_node. rewrite unmark_all_subtree, find_map. f_equal.
  induction (subtree d) as [|x l IH]; [reflexivity|].
  cbn [find]. unfold has_id at 1 3.
  destruct (unmark_all_top inv x) as [-> _].
  now rewrite IH.
Qed.

Lemma no_match_below (sel : selector) (c : nat) (d : node) :
  (forall n m, find_node c d = Some n -> In m (descendants n) -> matches sel m = false) ->
  querySelectorAll sel c d = [].
Proof.
  intros H. unfold querySelectorAll.
  destruct (find_node c d) as [n|]; [|reflexivity].
  specialize (H n). induction (descendants n) as [|m l IH]; [reflexivity|].
  cbn [filter]. rewrite (H m eq_refl (or_introl eq_refl)).
  apply IH. intros m' E Hin. apply H; [exact E | now right].
Qed.

Lemma below_removed (c : nat) (d n1 m1 : node) :
  NoDup (ids d) ->
  find_node c (remove_all (querySelectorAll (ByClass feedback_class) c d) d) = Some n1 ->
  In m1 (descendants n1) ->
  has_class feedback_class m1 = false.
Proof.
  intros Hnd Hfind Hin.
  set (fb := querySelectorAll (ByClass feedback_class) c d) in *.
  destruct (find_node_in _ _ _ Hfind) as (_ & Hid1 & Hn1).
  destruct (remove_all_subtree fb d n1 Hn1) as [n0 [Hn0 ->]].
  destruct (remove_all_top fb n0) as [Hid _]. rewrite Hid in Hid1.
  assert (Hc : In c (ids d)) by (unfold ids; rewrite <- Hid1; now apply in_map).
  destruct (in_find_node c d Hc) as [n Hn].
  destruct (find_node_in _ _ _ Hn) as (_ & Hidn & Hnin).
  assert (n0 = n) by (apply (nodup_same_id d); congruence). subst n0.
  pose proof (remove_all_gone fb n m1 Hin) as Hgone.
  destruct (remove_all_descendants fb n m1 Hin) as [m0 [Hm0 ->]].
  destruct (remove_all_top fb m0) as [Hidm Hcm].
  unfold has_class. rewrite Hcm. fold (has_class feedback_class m0).
  destruct (has_class feedback_class m0) eqn:E; [|reflexivity].
  exfalso. apply Hgone. rewrite Hidm.
  subst fb. unfold querySelectorAll. rewrite Hn.
  apply in_map. apply filter_In. split; [exact Hm0 | exact E].
Qed.

(** X18: after [clearValidationErrors] on a container that is an
    element of a page whose elements are distinct, the container holds no
    inline message and no marked input: a query for [.invalid-feedback] or
    for [.is-invalid] below the container finds nothing.  The console, the
    toasts and the timers are not touched. *)
Theorem X18_clear_leaves_container_clean (c : nat) (s : state) :
  NoDup (ids (page s)) ->
  exists d',
    clearValidationErrors (VElem c) s = (Done tt, with_page d' s)
    /\ querySelectorAll (ByClass feedback_class) c d' = []
    /\ querySelectorAll (ByClass invalid_class) c d' = [].
Proof.
  intros Hnd. exists (cleared c (page s)).
  split; [apply clearValidationErrors_element|].
  unfold cleared.
  set (d1 := remove_all (querySelectorAll (ByClass "invalid-feedback") c (page s)) (page s)).
  set (inv := querySelectorAll (ByClass "is-invalid") c d1).
  split.
  - apply no_match_below. intros n m Hfind Hin.
    rewrite find_node_unmark_all in Hfind.
    destruct (find_node c d1) as [n1|] eqn:E1; [|discriminate Hfind].
    injection Hfind as <-. rewrite unmark_all_descendants in Hin.
    apply in_map_iff in Hin. destruct Hin as [m1 [<- Hm1]].
    cbn [matches]. destruct (unmark_all_top inv m1) as (_ & -> & _).
    exact (below_removed c (page s) n1 m1 Hnd E1 Hm1).
  - apply no_match_below. intros n m Hfind Hin.
    rewrite find_node_unmark_all in Hfind.
    destruct (find_node c d1) as [n1|] eqn:E1; [|discriminate Hfind].
    injection Hfind as <-. rewrite unmark_all_descendants in Hin.
    apply in_map_iff in Hin. destruct Hin as [m1 [<- Hm1]].
    cbn [matches]. destruct (unmark_all_top inv m1) as (_ & _ & Hkeep & Hhit).
    destruct (has_class invalid_class m1) eqn:E; [|now apply Hkeep].
    apply Hhit. subst inv. unfold querySelectorAll. rewrite E1.
    apply in_map. apply filter_In. split; [exact Hm1 | exact E].
Qed.

Lemma X18_clear_leaves_container_clean_witness :
  let d := snd (V200.easyAjax post_options
                  (Responds (json_response 422 errors_422)) (start page_wrapped)) in
  List.length (querySelectorAll (ByClass feedback_class) 3 (page d)) = 2
  /\ exists d',
       clearValidationErrors (VElem 3) d = (Done tt, with_page d' d)
       /\ querySelectorAll (ByClass feedback_class) 3 d' = []
       /\ querySelectorAll (ByClass invalid_class) 3 d' = [].
Proof.
  intros d. split; [vm_compute; reflexivity|].
  apply (X18_clear_leaves_container_clean 3 d).
  vm_compute. repeat constructor; simpl; intuition discriminate.
Defined.

(** ** A second message for the same input *)

Lemma parentNode_in (i p : nat) (d : node) :
  parentNode i d = Some p -> In i (ids d) /\ In p (ids d).
Proof.
  unfold parentNode. intros H.
  destruct (find _ (subtree d)) as [y|] eqn:E; [|discriminate H].
  injection H as <-. apply find_some in E. destruct E as [Hy Hk].
  apply existsb_exists in Hk. destruct Hk as [k [Hk Hid]].
  unfold has_id in Hid. apply Nat.eqb_eq in Hid. subst i.
  split.
  - apply (in_map nid). apply (subtree_trans d y k Hy).
    right. apply (subtree_kid y k Hk). now left.
  - now apply (in_map nid).
Qed.

Lemma append_descendant_cases (p : nat) (ch : node) :
  kids ch = [] ->
  forall n x,
    In x (descendants (appendChild p ch n)) ->
    (exists y, In y (descendants n) /\ x = appendChild p ch y) \/ x = ch.
Proof.
  intros Hleaf. induction n as [n IH] using node_tree_ind. intros x Hin.
  rewrite (descendants_grow (appendChild p ch) (extra_of p ch)
             (append_kids p ch) (extra_of_leaf p ch Hleaf)) in Hin.
  apply in_app_or in Hin. destruct Hin as [Hin | Hin].
  - apply in_flat_map in Hin. destruct Hin as [k' [Hk' Hx]].
    apply in_map_iff in Hk'. destruct Hk' as [k [<- Hk]].
    rewrite Forall_forall in IH.
    destruct Hx as [<- | Hx].
    + left. exists k. split; [|reflexivity].
      apply (subtree_kid n k Hk). now left.
    + destruct (IH k Hk x Hx) as [[y [Hy ->]] | ->]; [|now right].
      left. exists y. split; [|reflexivity].
      apply (subtree_kid n k Hk). now right.
  - right. unfold extra_of in Hin.
    destruct (has_id p n); [|destruct Hin].
    destruct Hin as [<- | []]. reflexivity.
Qed.

Lemma feedback_after_step (i p : nat) (m : value) (d : node) :
  parentNode i d = Some p ->
  querySelector (ByClass feedback_class) p d = None ->
  querySelector (ByClass feedback_class) p (render_step i p m d)
  = Some (nid (errorDiv (mark i d) m)).
Proof.
  intros Hp Hq. destruct (parentNode_in i p d Hp) as [_ Hpin].
  destruct (in_find_node p d Hpin) as [np Hnp].
  destruct (find_node_in p d np Hnp) as (_ & Hid & _).
  set (ch := errorDiv (mark i d) m).
  assert (Hnone : filter (has_class feedback_class) (descendants np) = []).
  { unfold querySelector, querySelectorAll in Hq. rewrite Hnp in Hq. cbn [matches] in Hq.
    destruct (filter _ (descendants np)); [reflexivity | discriminate Hq]. }
  unfold querySelector, querySelectorAll.
  rewrite find_node_step by now apply ch_not_in_page.
  rewrite Hnp. cbn [option_map matches]. fold ch.
  set (l := filter (matches (ByClass feedback_class))
              (descendants (appendChild p ch (mark i np)))).
  assert (Hall : forall x, In x l -> x = ch).
  { intros x Hx. apply filter_In in Hx. destruct Hx as [Hx Hfb].
    cbn [matches] in Hfb.
    destruct (append_descendant_cases p ch eq_refl _ x Hx) as [[y [Hy ->]] | ->];
      [|reflexivity].
    exfalso.
    destruct (append_top p ch y) as (_ & _ & _ & Hc & _).
    unfold has_class in Hfb. rewrite Hc in Hfb. fold (has_class feedback_class y) in Hfb.
    assert (Hin : In y (filter (has_class feedback_class) (descendants (mark i np))))
      by (apply filter_In; now split).
    rewrite filter_descendants_mark in Hin by (intros x; apply mark_top).
    rewrite Hnone in Hin. destruct Hin. }
  assert (Hch : In ch l).
  { apply filter_In. split; [|reflexivity].
    rewrite (descendants_grow (appendChild p ch) (extra_of p ch)
               (append_kids p ch) (extra_of_leaf p ch eq_refl)).
    apply in_or_app. right. unfold extra_of. rewrite has_id_mark.
    unfold has_id. rewrite Hid, Nat.eqb_refl. now left. }
  clearbody l. destruct l as [|x l']; [destruct Hch|].
  cbn [map hd_error]. now rewrite (Hall x (or_introl eq_refl)).
Qed.

Lemma remove_node_unfold (id : nat) (n : node) :
  remove_node id n =
    with_kids n (filter (fun k => negb (has_id id k)) (map (remove_node id) (kids n))).
Proof. destruct n; reflexivity. Qed.

Lemma with_kids_same (n : node) : with_kids n (kids n) = n.
Proof. destruct n; reflexivity. Qed.

Lemma remove_append (p : nat) (ch : node) :
  kids ch = [] ->
  forall n, ~ In (nid ch) (ids n) -> remove_node (nid ch) (appendChild p ch n) = n.
Proof.
  intros Hleaf. induction n as [n IH] using node_tree_ind. intros Hnot.
  assert (Hkid : forall k, In k (kids n) -> ~ In (nid ch) (ids k)).
  { intros k Hk Hin. apply Hnot. unfold ids in *.
    apply in_map_iff in Hin. destruct Hin as [x [Ex Hx]].
    apply in_map_iff. exists x. split; [assumption|].
    right. now apply (subtree_kid n k Hk). }
  assert (Hks : map (fun k => remove_node (nid ch) (appendChild p ch k)) (kids n) = kids n).
  { rewrite <- (map_id (kids n)) at 2. apply map_ext_in. intros k Hk.
    rewrite Forall_forall in IH. apply IH; [assumption | now apply Hkid]. }
  assert (Hkeep : filter (fun k => negb (has_id (nid ch) k)) (kids n) = kids n).
  { clear Hks IH. induction (kids n) as [|k ks IHk]; [reflexivity|].
    cbn [filter].
    assert (Hk : has_id (nid ch) k = false).
    { unfold has_id. apply Nat.eqb_neq. intros E.
      apply (Hkid k (or_introl eq_refl)). unfold ids. rewrite <- E.
      apply in_map. now left. }
    rewrite Hk. cbn [negb]. f_equal. apply IHk.
    intros k' Hk'. apply Hkid. now right. }
  assert (Hw : forall ks, with_kids (appendChild p ch n) ks = with_kids n ks).
  { intros ks. unfold appendChild. rewrite update_node_unfold.
    destruct (has_id p n); destruct n; reflexivity. }
  rewrite remove_node_unfold, Hw, append_kids, map_app, map_map, Hks, filter_app, Hkeep.
  assert (Hextra : filter (fun k => negb (has_id (nid ch) k))
                     (map (remove_node (nid ch)) (extra_of p ch n)) = []).
  { unfold extra_of. destruct (has_id p n); [|reflexivity].
    cbn [map filter]. destruct (remove_top (nid ch) ch) as [Hid _].
    unfold has_id. rewrite Hid, Nat.eqb_refl. reflexivity. }
  rewrite Hextra, app_nil_r. apply with_kids_same.
Qed.

Lemma add_class_idem (c : string) (m : node) :
  add_class c (add_class c m) = add_class c m.
Proof.
  destruct (has_class c m) eqn:E.
  - assert (H : add_class c m = m) by (unfold add_class; now rewrite E).
    rewrite H. exact H.
  - assert (H : add_class c m = with_classes (classes m ++ [c]) m)
      by (unfold add_class; now rewrite E).
    rewrite H. unfold add_class.
    assert (H1 : has_class c (with_classes (classes m ++ [c]) m) = true).
    { unfold has_class. cbn [with_classes classes]. rewrite existsb_app.
      cbn [existsb]. rewrite String.eqb_refl. now rewrite orb_true_r. }
    now rewrite H1.
Qed.

Lemma update_idem (id : nat) (f : node -> node) :
  (forall m, kids (f m) = kids m) ->
  (forall m, nid (f m) = nid m) ->
  (forall m, f (f m) = f m) ->
  forall n, update_node id f (update_node id f n) = update_node id f n.
Proof.
  intros Hk Hn Hf. induction n as [n IH] using node_tree_ind.
  assert (Hks : map (update_node id f) (map (update_node id f) (kids n))
                = map (update_node id f) (kids n)).
  { rewrite map_map. apply map_ext_in. intros k Hin.
    rewrite Forall_forall in IH. now apply IH. }
  rewrite (update_node_unfold id f n).
  set (n' := with_kids n (map (update_node id f) (kids n))).
  assert (Hn' : has_id id n' = has_id id n) by (destruct n; reflexivity).
  assert (Hkn' : kids n' = map (update_node id f) (kids n)) by (destruct n; reflexivity).
  destruct (has_id id n) eqn:E.
  - rewrite update_node_unfold.
    assert (Hid : has_id id (f n') = true) by (unfold has_id in *; now rewrite Hn).
    rewrite Hid, Hk, Hkn', Hks, <- Hkn', <- (Hk n'), with_kids_same. apply Hf.
  - rewrite update_node_unfold, Hn', Hkn', Hks, <- Hkn'. apply with_kids_same.
Qed.

Lemma mark_idem (i : nat) (d : node) : mark i (mark i d) = mark i d.
Proof.
  unfold mark. apply update_idem.
  - intros m. unfold add_class. destruct (has_class _ m); destruct m; reflexivity.
  - intros m. unfold add_class. destruct (has_class _ m); destruct m; reflexivity.
  - intros m. apply add_class_idem.
Qed.

(** X19: a second message for the same input replaces the first.  When
    [displayValidationError] (release 2.0.0) shows a message for an input
    whose parent holds no message yet and then shows another one for the
    same input, the first message is removed before the second is added:
    the page is the one that showing the second message alone gives, with
    one message in the parent. *)
Theorem X19_second_message_replaces_first (i p : nat) (m1 m2 : value) (s : state) :
  parentNode i (page s) = Some p ->
  querySelector (ByClass feedback_class) p (page s) = None ->
  (V200.displayValidationError (Some i) m1 ;;;
   V200.displayValidationError (Some i) m2) s
  = (Done tt,
     State (render_step i p m2 (page s))
           (trace s ++ [InlineError i (innerText_of m1); InlineError i (innerText_of m2)])
           (timers s) (next_timer s) (swal s) (deferred s))
  /\ page (snd (V200.displayValidationError (Some i) m2 s)) = render_step i p m2 (page s).
Proof.
  intros Hp Hq. destruct (parentNode_in i p (page s) Hp) as [Hi Hpin].
  split; [|now rewrite (displayValidationError_200 i p m2 s Hp Hq)].
  rewrite (bind_done _ _ _ _ _ (displayValidationError_200 i p m1 s Hp Hq)).
  unfold V200.displayValidationError, bind, get_page, ret. cbn [page].
  rewrite (parentNode_step i p m1 (page s) i Hi), Hp.
  change (ByClass "invalid-feedback") with (ByClass feedback_class).
  rewrite (feedback_after_step i p m1 (page s) Hp Hq).
  cbn [modify_page page trace timers next_timer swal deferred].
  unfold render_step.
  rewrite !(remove_append p (errorDiv (mark i (page s)) m1) eq_refl).
  - change (update_node i (add_class "is-invalid") (mark i (page s)))
      with (mark i (mark i (page s))).
    rewrite !mark_idem, parentNode_mark, Hp.
    unfold emit. cbn [page trace timers next_timer swal deferred].
    rewrite <- app_assoc. reflexivity.
  - cbn [errorDiv nid]. intros Hin. apply fresh_id_above in Hin. lia.
Qed.

Lemma X19_second_message_replaces_first_witness :
  (V200.displayValidationError (Some 5) (VStr "Email is required") ;;;
   V200.displayValidationError (Some 5) (VStr "Email is taken")) (start page_wrapped)
  = (Done tt,
     State (render_step 5 8 (VStr "Email is taken") page_wrapped)
           [InlineError 5 "Email is required"; InlineError 5 "Email is taken"]
           [] 0 true []).
Proof.
  apply (X19_second_message_replaces_first 5 8 (VStr "Email is required")
           (VStr "Email is taken") (start page_wrapped)); reflexivity.
Defined.

(** ** Showing a message and clearing it *)

Lemma remove_absent (id : nat) :
  forall n, ~ In id (ids n) -> remove_node id n = n.
Proof.
  induction n as [n IH] using node_tree_ind. intros Hnot.
  assert (Hkid : forall k, In k (kids n) -> ~ In id (ids k)).
  { intros k Hk Hin. apply Hnot. unfold ids in *.
    apply in_map_iff in Hin. destruct Hin as [x [Ex Hx]].
    apply in_map_iff. exists x. split; [assumption|].
    right. now apply (subtree_kid n k Hk). }
  assert (Hks : map (remove_node id) (kids n) = kids n).
  { rewrite <- (map_id (kids n)) at 2. apply map_ext_in. intros k Hk.
    rewrite Forall_forall in IH. apply IH; [assumption | now apply Hkid]. }
  assert (Hkeep : filter (fun k => negb (has_id id k)) (kids n) = kids n).
  { clear Hks IH. induction (kids n) as [|k ks IHk]; [reflexivity|].
    cbn [filter].
    assert (Hk : has_id id k = false).
    { unfold has_id. apply Nat.eqb_neq. intros E.
      apply (Hkid k (or_introl eq_refl)). unfold ids. rewrite <- E.
      apply in_map. now left. }
    rewrite Hk. cbn [negb]. f_equal. apply IHk.
    intros k' Hk'. apply Hkid. now right. }
  rewrite remove_node_unfold, Hks, Hkeep. apply with_kids_same.
Qed.

Lemma fold_settles {A B : Type} (step : A -> B -> A) (e : B) (a' : A) :
  step a' e = a' ->
  forall (l : list B) (a : A),
    Forall (eq e) l -> l <> [] -> step a e = a' -> fold_left step l a = a'.
Proof.
  intros Hfix l. induction l as [|x l IH]; intros a Hall Hne Hstep; [contradiction|].
  inversion Hall as [|x' l' Hx Hl]. subst x' l' x. cbn [fold_left]. rewrite Hstep.
  destruct l as [|y l]; [reflexivity|].
  apply IH; [assumption | discriminate | exact Hfix].
Qed.

Lemma none_below (sel : selector) (d n : node) :
  none_matches sel d -> In n (subtree d) -> filter (matches sel) (descendants n) = [].
Proof.
  unfold none_matches. rewrite Forall_forall. intros Hnone Hn.
  assert (H : forall x, In x (descendants n) -> matches sel x = false)
    by (intros x Hx; apply Hnone; right; now apply (descendants_trans d n x)).
  induction (descendants n) as [|x l IH]; [reflexivity|].
  cbn [filter]. rewrite (H x (or_introl eq_refl)).
  apply IH. intros y Hy. apply H. now right.
Qed.

Lemma feedback_below_after_step (i p c : nat) (m : value) (d nc : node) :
  find_node c d = Some nc ->
  In p (ids nc) ->
  none_matches (ByClass feedback_class) d ->
  let fb := querySelectorAll (ByClass feedback_class) c (render_step i p m d) in
  Forall (eq (nid (errorDiv (mark i d) m))) fb /\ fb <> [].
Proof.
  intros Hnc Hp Hnone fb. subst fb.
  destruct (find_node_in c d nc Hnc) as (Hc & Hid & Hin).
  set (ch := errorDiv (mark i d) m).
  unfold querySelectorAll.
  rewrite find_node_step by now apply ch_not_in_page.
  rewrite Hnc. cbn [option_map]. fold ch.
  assert (Hbelow : filter (matches (ByClass feedback_class)) (descendants (mark i nc)) = []).
  { cbn [matches].
    rewrite filter_descendants_mark by (intros x; apply mark_top).
    change (has_class feedback_class) with (matches (ByClass feedback_class)).
    now rewrite (none_below _ d nc Hnone Hin). }
  set (l := filter (matches (ByClass feedback_class))
              (descendants (appendChild p ch (mark i nc)))).
  assert (Hall : forall x, In x l -> x = ch).
  { intros x Hx. apply filter_In in Hx. destruct Hx as [Hx Hfb].
    destruct (append_descendant_cases p ch eq_refl _ x Hx) as [[y [Hy ->]] | ->];
      [|reflexivity].
    exfalso. cbn [matches] in Hfb.
    destruct (append_top p ch y) as (_ & _ & _ & Hcl & _).
    unfold has_class in Hfb. rewrite Hcl in Hfb. fold (has_class feedback_class y) in Hfb.
    assert (Hy' : In y (filter (matches (ByClass feedback_class))
                          (descendants (mark i nc))))
      by (apply filter_In; now split).
    rewrite Hbelow in Hy'. destruct Hy'. }
  assert (Hlen : 1 <= List.length l).
  { pose proof (count_append (has_class feedback_class) p ch (mark i nc) eq_refl) as Hcount.
    rewrite subtree_unfold in Hcount. rewrite <- descendants_flat in Hcount.
    cbn [filter] in Hcount.
    assert (Hroot : has_class feedback_class (appendChild p ch (mark i nc)) = false).
    { unfold ch. destruct (step_top i p m d nc) as (_ & _ & -> & _).
      unfold none_matches in Hnone. rewrite Forall_forall in Hnone.
      exact (Hnone nc Hin). }
    fold ch in Hroot. rewrite Hroot in Hcount.
    change (has_class feedback_class ch) with true in Hcount.
    rewrite occ_mark in Hcount.
    pose proof (occ_positive p nc Hp).
    subst l. change (matches (ByClass feedback_class)) with (has_class feedback_class).
    rewrite Hcount by (intros x; destruct (append_top p ch x) as (_ & _ & _ & Hcl & _);
                       unfold has_class; now rewrite Hcl).
    lia. }
  clearbody l. split.
  - rewrite Forall_map. rewrite Forall_forall. intros x Hx.
    now rewrite (Hall x Hx).
  - destruct l; [cbn in Hlen; lia | discriminate].
Qed.

Lemma mark_marks (i : nat) (y : node) :
  has_class invalid_class (mark i y) = has_id i y || has_class invalid_class y.
Proof.
  unfold mark. rewrite update_node_unfold.
  set (y' := with_kids y (map (update_node i (add_class "is-invalid")) (kids y))).
  assert (Hc : has_class invalid_class y' = has_class invalid_class y)
    by (destruct y; reflexivity).
  destruct (has_id i y); cbn [orb]; [|exact Hc].
  unfold add_class. fold invalid_class.
  destruct (has_class invalid_class y') eqn:E; [exact E|].
  unfold has_class. cbn [with_classes classes]. rewrite existsb_app.
  cbn [existsb]. rewrite String.eqb_refl. now rewrite orb_true_r.
Qed.

Lemma invalid_below_after_mark (i c : nat) (d nc : node) :
  find_node c d = Some nc ->
  In i (map nid (descendants nc)) ->
  none_matches (ByClass invalid_class) d ->
  let inv := querySelectorAll (ByClass invalid_class) c (mark i d) in
  Forall (eq i) inv /\ inv <> [].
Proof.
  intros Hnc Hi Hnone inv. subst inv.
  destruct (find_node_in c d nc Hnc) as (Hc & Hid & Hin).
  unfold querySelectorAll, find_node.
  rewrite (find_subtree_mark i (has_id c) d) by (intros x; apply has_id_mark).
  fold (find_node c d). rewrite Hnc. cbn [option_map matches].
  unfold mark. rewrite !descendants_update
    by (intros x; unfold add_class; destruct (has_class _ x); destruct x; reflexivity).
  fold (mark i).
  assert (Hclean : forall y, In y (descendants nc) -> has_class invalid_class y = false).
  { intros y Hy. unfold none_matches in Hnone. rewrite Forall_forall in Hnone.
    apply (Hnone y). right. now apply (descendants_trans d nc y). }
  split.
  - rewrite Forall_map, Forall_forall. intros x Hx.
    apply filter_In in Hx. destruct Hx as [Hx Hinv].
    apply in_map_iff in Hx. destruct Hx as [y [<- Hy]].
    cbn [matches] in Hinv.
    rewrite mark_marks, (Hclean y Hy), orb_false_r in Hinv.
    destruct (mark_top i y) as [-> _].
    unfold has_id in Hinv. apply Nat.eqb_eq in Hinv. now symmetry.
  - apply in_map_iff in Hi. destruct Hi as [y [Ey Hy]].
    assert (Hm : In (mark i y)
                   (filter (matches (ByClass invalid_class))
                      (map (mark i) (descendants nc)))).
    { apply filter_In. split; [now apply in_map|].
      cbn [matches]. rewrite mark_marks. unfold has_id. rewrite Ey, Nat.eqb_refl. reflexivity. }
    intros E. apply map_eq_nil in E. rewrite E in Hm. destruct Hm.
Qed.

Lemma remove_class_absent (c : string) (x : node) :
  has_class c x = false -> remove_class c x = x.
Proof.
  unfold has_class, remove_class. intros H.
  assert (Hf : filter (fun c' => negb (c' =? c)) (classes x) = classes x).
  { induction (classes x) as [|c' cs IH]; [reflexivity|].
    cbn [existsb] in H. apply orb_false_iff in H. destruct H as [H1 H2].
    cbn [filter]. rewrite String.eqb_sym, H1. cbn [negb]. f_equal. now apply IH. }
  rewrite Hf. destruct x; reflexivity.
Qed.

Lemma remove_class_add_class (c : string) (x : node) :
  has_class c x = false -> remove_class c (add_class c x) = x.
Proof.
  intros H. unfold add_class. rewrite H.
  unfold remove_class. cbn [with_classes classes].
  rewrite filter_app. cbn [filter]. rewrite String.eqb_refl. cbn [negb].
  rewrite app_nil_r.
  pose proof (remove_class_absent c x H) as Hx. unfold remove_class in Hx.
  destruct x as [j t a cs dis tx ks]. cbn [with_classes classes nid tag attrs disabled text kids] in *.
  injection Hx as Hcs. now rewrite Hcs.
Qed.

Lemma unmark_clean (i : nat) :
  forall n, (forall x, In x (subtree n) -> has_class invalid_class x = false) ->
            update_node i (remove_class invalid_class) n = n.
Proof.
  induction n as [n IH] using node_tree_ind. intros Hclean.
  assert (Hks : map (update_node i (remove_class invalid_class)) (kids n) = kids n).
  { rewrite <- (map_id (kids n)) at 2. apply map_ext_in. intros k Hk.
    rewrite Forall_forall in IH. apply IH; [assumption|].
    intros x Hx. apply Hclean. right. now apply (subtree_kid n k Hk). }
  rewrite update_node_unfold, Hks, with_kids_same.
  destruct (has_id i n); [|reflexivity].
  apply remove_class_absent. apply Hclean. now left.
Qed.

Lemma unmark_mark (i : nat) :
  forall n, (forall x, In x (subtree n) -> has_class invalid_class x = false) ->
            update_node i (remove_class invalid_class) (mark i n) = n.
Proof.
  induction n as [n IH] using node_tree_ind. intros Hclean.
  assert (Hks : map (update_node i (remove_class invalid_class))
                  (map (mark i) (kids n)) = kids n).
  { rewrite map_map. rewrite <- (map_id (kids n)) at 2. apply map_ext_in. intros k Hk.
    rewrite Forall_forall in IH. apply IH; [assumption|].
    intros x Hx. apply Hclean. right. now apply (subtree_kid n k Hk). }
  assert (Hroot : has_class invalid_class n = false) by (apply Hclean; now left).
  assert (Hadd : forall x, kids (add_class invalid_class x) = kids x)
    by (intros x; unfold add_class; destruct (has_class _ x); destruct x; reflexivity).
  assert (Hmk : kids (mark i n) = map (mark i) (kids n)).
  { unfold mark. apply kids_update. exact Hadd. }
  rewrite update_node_unfold, has_id_mark, Hmk, Hks.
  unfold mark. rewrite update_node_unfold. fold (mark i).
  destruct (has_id i n).
  - assert (Hsame : with_kids (add_class "is-invalid" (with_kids n (map (mark i) (kids n))))
                      (kids n)
                    = add_class invalid_class n).
    { unfold add_class, has_class in *. fold invalid_class.
      destruct n as [j t a cs dis tx ks]. cbn [with_kids classes kids] in *.
      rewrite Hroot. reflexivity. }
    rewrite Hsame. now apply remove_class_add_class.
  - destruct n; reflexivity.
Qed.

(** X20: clearing undoes showing.  On a page without inline messages
    and without marked inputs, when [displayValidationError] (release
    2.0.0) shows a message for an input below the container, whose parent
    is the container or below it, and [clearValidationErrors] then runs on
    the container, the page is again what it was before the message was
    shown. *)
Theorem X20_clear_undoes_display (i p c : nat) (m : value) (s : state) (nc : node) :
  parentNode i (page s) = Some p ->
  find_node c (page s) = Some nc ->
  In i (map nid (descendants nc)) ->
  In p (ids nc) ->
  none_matches (ByClass feedback_class) (page s) ->
  none_matches (ByClass invalid_class) (page s) ->
  (V200.displayValidationError (Some i) m ;;; clearValidationErrors (VElem c)) s
  = (Done tt, add_trace [InlineError i (innerText_of m)] s).
Proof.
  intros Hp Hnc Hi Hpc Hfb Hinv.
  assert (Hq : querySelector (ByClass feedback_class) p (page s) = None)
    by now apply none_matches_query.
  rewrite (bind_done _ _ _ _ _ (displayValidationError_200 i p m s Hp Hq)).
  rewrite clearValidationErrors_element.
  unfold with_page, add_trace. cbn [page trace timers next_timer swal deferred].
  f_equal. f_equal.
  assert (Hclean : forall x, In x (subtree (page s)) -> has_class invalid_class x = false).
  { unfold none_matches in Hinv. rewrite Forall_forall in Hinv. exact Hinv. }
  assert (Hfresh : ~ In (nid (errorDiv (mark i (page s)) m)) (ids (mark i (page s)))).
  { cbn [errorDiv nid]. intros Hin. apply fresh_id_above in Hin. lia. }
  unfold cleared.
  assert (H1 : remove_all
                 (querySelectorAll (ByClass "invalid-feedback") c
                    (render_step i p m (page s)))
                 (render_step i p m (page s))
               = mark i (page s)).
  { destruct (feedback_below_after_step i p c m (page s) nc Hnc Hpc Hfb) as [Hall Hne].
    unfold remove_all.
    apply (fold_settles (fun d e => remove_node e d) _ (mark i (page s))
             (remove_absent _ _ Hfresh) _ _ Hall Hne).
    unfold render_step. now apply remove_append. }
  rewrite H1.
  destruct (invalid_below_after_mark i c (page s) nc Hnc Hi Hinv) as [Hall Hne].
  unfold unmark_all.
  apply (fold_settles (fun d e => update_node e (remove_class "is-invalid") d) i (page s)
           (unmark_clean i (page s) Hclean) _ _ Hall Hne).
  now apply unmark_mark.
Qed.

Lemma X20_clear_undoes_display_witness :
  (V200.displayValidationError (Some 5) (VStr "Email is required") ;;;
   clearValidationErrors (VElem 3)) (start page_wrapped)
  = (Done tt, add_trace [InlineError 5 "Email is required"] (start page_wrapped)).
Proof.
  apply (X20_clear_undoes_display 5 8 3 (VStr "Email is required") (start page_wrapped)
           (el 3 "body" []
              [ el 4 "form" []
                  [ el 8 "div" [] [el 5 "input" [("name", "email")] []];
                    el 9 "div" [] [el 6 "input" [("name", "name")] []];
                    el 7 "button" [("type", "submit")] [] ] ]));
    try reflexivity.
  - cbn. tauto.
  - cbn. tauto.
  - repeat constructor.
  - repeat constructor.
Defined.

(** ** The order of completion and rendering *)




(** ** What is thrown while a success is handled *)

Section RaisedBySuccess.

Context {Q : exn -> Prop}.
Hypothesis Q_type : forall what, Q (TypeError what).
Hypothesis Q_syntax : forall what, Q (SyntaxError what).
Hypothesis Q_callback : forall name, Q (CallbackThrew name).




End RaisedBySuccess.



(** ** Where release 1.2.8 puts a message *)

(** X23: release 1.2.8 puts the message of an input into the nearest
    element with the class [form-group], counted from the input itself
    upwards, and into the parent of the input only when there is none.
    When that element holds no message yet, the input is marked and the
    message becomes the last child of that element. *)
Theorem X23_v128_message_goes_to_form_group (i g : nat) (m : value) (s : state) :
  match closest (ByClass "form-group") i (page s) with
  | Some group => group = g
  | None => parentNode i (page s) = Some g
  end ->
  querySelector (ByClass feedback_class) g (page s) = None ->
  V128.displayValidationError (Some i) m s
  = (Done tt,
     State (render_step i g m (page s))
           (trace s ++ [InlineError i (innerText_of m)])
           (timers s) (next_timer s) (swal s) (deferred s)).
Proof.
  intros Hg Hq. unfold V128.displayValidationError, bind, get_page, ret.
  change (ByClass "invalid-feedback") with (ByClass feedback_class).
  destruct (closest (ByClass "form-group") i (page s)) as [group|].
  - subst group. rewrite Hq. reflexivity.
  - rewrite Hg, Hq. reflexivity.
Qed.

Lemma X23_v128_message_goes_to_form_group_witness :
  let doc :=
    el 0 "html" []
      [ el 1 "form" []
          [ Node 2 "div" [] ["form-group"] false ""
              [ el 3 "label" [] []; el 4 "span" [] [el 5 "input" [("name", "email")] []] ] ] ] in
  V128.displayValidationError (Some 5) (VStr "Email is required") (start doc)
  = (Done tt,
     State (render_step 5 2 (VStr "Email is required") doc)
           [InlineError 5 "Email is required"] [] 0 true []).
Proof.
  intros doc.
  apply (X23_v128_message_goes_to_form_group 5 2 (VStr "Email is required") (start doc));
    reflexivity.
Defined.

(** ** What the preparation does to the page *)



(** ** The two releases *)

Lemma then_steps_done_not_failed
    (settings : obj) (req : request) (tid : nat) (net : network) (s s2 : state) :
  V128.then_steps settings req tid net s = (Done tt, s2) ->
  exists r, net = Responds r /\ ok r = true.
Proof.
  intros H. destruct net as [| |r].
  - rewrite (then_steps_failed_128 settings req tid NetworkFailure s I) in H. discriminate H.
  - rewrite (then_steps_failed_128 settings req tid TimedOut s I) in H. discriminate H.
  - exists r. split; [reflexivity|].
    destruct (ok r) eqn:E; [reflexivity|].
    rewrite (then_steps_failed_128 settings req tid (Responds r) s E) in H. discriminate H.
Qed.

Lemma then_steps_same_when_ok
    (settings : obj) (req : request) (tid : nat) (r : response) (s : state) :
  ok r = true ->
  V200.then_steps settings req tid (Responds r) s
  = V128.then_steps settings req tid (Responds r) s.
Proof.
  intros Hok. unfold V200.then_steps, V128.then_steps, fetch.
  unfold bind at 1 2 3 6 7 8. unfold emit at 1 2. cbn iota beta.
  unfold ret at 1 3. rewrite Hok. reflexivity.
Qed.

(** X25: the two releases differ only in how they treat a failure.
    When the preparation returns, no continuation is pending and the steps
    of release 1.2.8 up to the success callbacks end without an exception,
    a call of release 2.0.0 with the same options, on the same page and
    with the same response, ends in the same state with the same outcome. *)
Theorem X25_releases_agree_on_success
    (options : obj) (net : network) (s : state)
    (settings : obj) (req : request) (tid : nat) (s1 s2 : state) :
  prepare options s = (Done (settings, req, tid), s1) ->
  deferred s = [] ->
  V128.then_steps settings req tid net s1 = (Done tt, s2) ->
  V200.easyAjax options net s = V128.easyAjax options net s.
Proof.
  intros Hp Hd Hsteps.
  destruct (then_steps_done_not_failed settings req tid net s1 s2 Hsteps)
    as [r [-> Hok]].
  assert (Hd1 : deferred s1 = []).
  { pose proof (deferred_prepare options s) as H. rewrite Hp in H. cbn [snd] in H.
    congruence. }
  assert (Hchain : detached (V200.chain settings req tid (Responds r)) s1
                   = detached (V128.chain settings req tid (Responds r)) s1).
  { unfold detached, V200.chain, V128.chain, finally, try_catch.
    rewrite (then_steps_same_when_ok settings req tid r s1 Hok), Hsteps. reflexivity. }
  pose proof (deferred_chain_128 settings req tid (Responds r) s1) as Hdc.
  unfold V200.easyAjax, V128.easyAjax. rewrite !(bind_done _ _ _ _ _ Hp).
  unfold bind. rewrite Hchain.
  destruct (detached (V128.chain settings req tid (Responds r)) s1) as [[[]|e] s3];
    [|reflexivity].
  cbn [snd] in Hdc. unfold run_deferred. rewrite Hdc, Hd1. reflexivity.
Qed.

Lemma X25_releases_agree_on_success_witness :
  let options := [ ("type", VStr "POST"); ("url", VStr "/save");
                   ("success", VFun (Callback "onSuccess" false)) ] in
  let net := Responds (json_response 200 (VObj [("message", VStr "Saved")])) in
  V200.easyAjax options net (start page_flat) = V128.easyAjax options net (start page_flat).
Proof.
  intros options net.
  assert (Hp : exists settings req s1,
             prepare options (start page_flat) = (Done (settings, req, 0), s1)
             /\ exists s2, V128.then_steps settings req 0 net s1 = (Done tt, s2)).
  { eexists; eexists; eexists. split; [vm_compute; reflexivity|].
    eexists. vm_compute. reflexivity. }
  destruct Hp as (settings & req & s1 & Hp & s2 & Hsteps).
  exact (X25_releases_agree_on_success options net (start page_flat)
           settings req 0 s1 s2 Hp eq_refl Hsteps).
Defined.

(** ** A request that gets no response *)

(** X26: a request that gets no response.  When the timer fires before
    a response arrives, the request is aborted and the timer is no longer
    pending; when the network fails, the timers are as they were.  In both
    cases release 2.0.0 shows the toast of a network error and nothing
    else, and release 1.2.8 logs the error, shows its generic toast and
    calls the failure callbacks with the error of [fetch]. *)
Theorem X26_no_response
    (settings : obj) (req : request) (tid : nat) (net : network) (s : state) :
  net = NetworkFailure \/ net = TimedOut ->
  let sent := Fetch (field settings "url") (method req) (headers req) (rbody req) in
  let rejected :=
    match net with
    | TimedOut =>
        State (page s) (trace s ++ [sent; TimerFired tid]) (drop_timer tid (timers s))
              (next_timer s) (swal s) (deferred s)
    | _ => add_trace [sent] s
    end in
  let error := match net with TimedOut => AbortError | _ => FetchFailed end in
  try_catch (V200.then_steps settings req tid net)
            (fun error => V200.handleError error settings) s
    = (Done tt, add_trace [network_toast] rejected)
  /\ try_catch (V128.then_steps settings req tid net)
               (fun error => V128.handleError error settings) s
     = failure_calls error settings
         (add_trace [ConsoleError "Error in fetch operation:"; generic_toast] rejected).
Proof.
  intros Hnet sent rejected error. unfold try_catch.
  assert (Hfail : failed net) by (destruct Hnet; subst net; exact I).
  rewrite (then_steps_failed_200 settings req tid net s Hfail).
  rewrite (then_steps_failed_128 settings req tid net s Hfail).
  destruct Hnet; subst net; subst rejected error sent;
    unfold V200.handleError, V128.handleError, failure_calls;
    cbn [exn_response exn_status];
    unfold bind, emit, add_trace, network_toast, generic_toast;
    cbn [page trace timers next_timer swal deferred];
    rewrite <- ?app_assoc; split; reflexivity.
Qed.

Lemma X26_no_response_witness :
  let settings := resolve page_flat [("url", VStr "/save");
                                     ("error", VFun (Callback "onError" false))] in
  let req := Request (VStr "GET") [] NoBody in
  try_catch (V128.then_steps settings req 0 TimedOut)
            (fun error => V128.handleError error settings)
            (State page_flat [] [0] 1 true [])
  = (Done tt,
     State page_flat
           [ Fetch (VStr "/save") (VStr "GET") [] NoBody; TimerFired 0;
             ConsoleError "Error in fetch operation:"; generic_toast;
             Call "onError" [AError AbortError] ]
           [] 1 true []).
Proof.
  intros settings req.
  destruct (X26_no_response settings req 0 TimedOut (State page_flat [] [0] 1 true [])
              (or_intror eq_refl)) as [_ H].
  rewrite H. reflexivity.
Defined.
